(** * DuoTool audio engine: metronome scheduler, pitch detector, note mapper

    A shallow embedding of [src/services/audioEngine.ts] and of the
    telemetry handler of [src/App.tsx], with the properties of the
    specification stated and settled against it.

    Numbers.  A JavaScript [number] is an IEEE-754 double.  The embedding
    keeps the four kinds of value the control flow of the engine
    distinguishes (NaN, the two infinities, finite values) and idealises the
    finite ones as real numbers: no rounding, no overflow, one zero (the
    positive one).  Every comparison and every special-value rule used by
    the source ([x / 0], [log 0], [undefined - x], [NaN > -1], ...) follows
    ECMAScript.

    State.  The fields of the engine and the callbacks pending in the host
    ([setTimeout], [requestAnimationFrame]) make one record, [world]; a
    method of the engine or a callback that fires is a function on it.  The
    audio clock is an argument of the functions that read it and stands
    still while one of them runs.  The [while] loop of [scheduler], which
    need not terminate, runs on fuel.  [startTuner] is taken from its call
    to the end of its continuation, the answer of [getUserMedia] being an
    argument.

    Application.  The dispatchers of [src/App.tsx] and the Bluetooth
    service are embedded in front of the engine: the cells of the
    component, the engine and the service make one state, a handler is a
    function on it, and what the browser or the device decides (the outcome
    of [connect], a dropped link, a notification) is an argument or an
    event. *)

From Stdlib Require Import Reals Lra Lia ZArith List String Ascii Bool Permutation.
From stdpp Require Import base list.
Import ListNotations.

Set Default Proof Using "All".

(** ** JavaScript numbers *)

Inductive num : Type :=
| NaN
| NegInf
| Num (r : R)
| PosInf.

Declare Scope num_scope.
Delimit Scope num_scope with num.
Bind Scope num_scope with num.

(** Sign of a real, as a [comparison] with zero. *)
Definition Rsign (x : R) : comparison :=
  match total_order_T x 0 with
  | inleft (left _) => Lt
  | inleft (right _) => Eq
  | inright _ => Gt
  end.

Definition num_neg (a : num) : num :=
  match a with
  | NaN => NaN
  | NegInf => PosInf
  | Num x => Num (- x)
  | PosInf => NegInf
  end.

Definition num_add (a b : num) : num :=
  match a, b with
  | NaN, _ | _, NaN => NaN
  | PosInf, NegInf | NegInf, PosInf => NaN
  | PosInf, _ | _, PosInf => PosInf
  | NegInf, _ | _, NegInf => NegInf
  | Num x, Num y => Num (x + y)
  end.

Definition num_sub (a b : num) : num := num_add a (num_neg b).

(** An infinity of the sign of [x] times the sign [s]; NaN for a zero. *)
Definition inf_of_sign (c : comparison) : num :=
  match c with
  | Lt => NegInf
  | Eq => NaN
  | Gt => PosInf
  end.

Definition sign_mul (c d : comparison) : comparison :=
  match c, d with
  | Eq, _ | _, Eq => Eq
  | Lt, Lt | Gt, Gt => Gt
  | Lt, Gt | Gt, Lt => Lt
  end.

Definition num_mul (a b : num) : num :=
  match a, b with
  | NaN, _ | _, NaN => NaN
  | Num x, Num y => Num (x * y)
  | Num x, PosInf | PosInf, Num x => inf_of_sign (Rsign x)
  | Num x, NegInf | NegInf, Num x => inf_of_sign (sign_mul Lt (Rsign x))
  | PosInf, PosInf | NegInf, NegInf => PosInf
  | PosInf, NegInf | NegInf, PosInf => NegInf
  end.

(** Division: a finite value over zero is an infinity of its sign (the zero
    of the embedding is the positive one), [0 / 0] and [inf / inf] are NaN. *)
Definition num_div (a b : num) : num :=
  match a, b with
  | NaN, _ | _, NaN => NaN
  | Num x, Num y =>
      match Rsign y with
      | Eq => inf_of_sign (Rsign x)
      | _ => Num (x / y)
      end
  | Num _, (PosInf | NegInf) => Num 0
  | (PosInf | NegInf), (PosInf | NegInf) => NaN
  | PosInf, Num y => match Rsign y with Lt => NegInf | _ => PosInf end
  | NegInf, Num y => match Rsign y with Lt => PosInf | _ => NegInf end
  end.

(** [a < b]; false as soon as one side is NaN. *)
Definition num_ltb (a b : num) : bool :=
  match a, b with
  | NaN, _ | _, NaN => false
  | NegInf, (Num _ | PosInf) => true
  | Num _, PosInf => true
  | Num x, Num y => if Rlt_dec x y then true else false
  | _, _ => false
  end.

Definition num_gtb (a b : num) : bool := num_ltb b a.

Definition num_abs (a : num) : num :=
  match a with
  | NaN => NaN
  | NegInf | PosInf => PosInf
  | Num x => Num (Rabs x)
  end.

(** [Math.sqrt] *)
Definition num_sqrt (a : num) : num :=
  match a with
  | NaN | NegInf => NaN
  | PosInf => PosInf
  | Num x => match Rsign x with Lt => NaN | _ => Num (sqrt x) end
  end.

(** [Math.log] *)
Definition num_log (a : num) : num :=
  match a with
  | NaN | NegInf => NaN
  | PosInf => PosInf
  | Num x =>
      match Rsign x with
      | Lt => NaN
      | Eq => NegInf
      | Gt => Num (ln x)
      end
  end.

(** [Math.floor] *)
Definition num_floor (a : num) : num :=
  match a with
  | Num x => Num (IZR (Zfloor x))
  | _ => a
  end.

(** [Math.round]: the nearest integer, a tie going up. *)
Definition num_round (a : num) : num :=
  match a with
  | Num x => Num (IZR (Zfloor (x + / 2)))
  | _ => a
  end.

(** Truncation towards zero of a real. *)
Definition Rtrunc (q : R) : Z :=
  match Rsign q with
  | Lt => (- Zfloor (- q))%Z
  | _ => Zfloor q
  end.

(** The [%] operator: the remainder has the sign of the dividend. *)
Definition num_rem (a b : num) : num :=
  match a, b with
  | NaN, _ | _, NaN => NaN
  | (PosInf | NegInf), _ => NaN
  | Num x, (PosInf | NegInf) => Num x
  | Num x, Num y =>
      match Rsign y with
      | Eq => NaN
      | _ => Num (x - y * IZR (Rtrunc (x / y)))
      end
  end.

Notation "a + b" := (num_add a b) : num_scope.
Notation "a - b" := (num_sub a b) : num_scope.
Notation "a * b" := (num_mul a b) : num_scope.
Notation "a / b" := (num_div a b) : num_scope.
Notation "a <? b" := (num_ltb a b) : num_scope.
Notation "a >? b" := (num_gtb a b) : num_scope.

(** An integer of the program ([best_offset], an array length) as a number. *)
Definition num_of_Z (z : Z) : num := Num (IZR z).
Definition num_of_nat (n : nat) : num := Num (INR n).

(** A value read from an array or an optional field: [None] is
    [undefined], which arithmetic turns into NaN. *)
Definition to_number (v : option num) : num :=
  match v with
  | Some a => a
  | None => NaN
  end.

(** The array index a number denotes, when it is a non-negative integer. *)
Definition num_index (a : num) : option nat :=
  match a with
  | Num x =>
      let k := Zfloor x in
      if Req_dec_T x (IZR k) then
        if (0 <=? k)%Z then Some (Z.to_nat k) else None
      else None
  | _ => None
  end.

(** [arr[i]] for a number [i]: [undefined] unless [i] is an index in range. *)
Definition arr_get_num {A : Type} (arr : list A) (i : num) : option A :=
  match num_index i with
  | Some k => arr !! k
  | None => None
  end.

(** [arr[i]] for an integer [i] of the program. *)
Definition arr_get {A : Type} (arr : list A) (i : Z) : option A :=
  if (i <? 0)%Z then None else arr !! Z.to_nat i.

Definition is_finite (a : num) : Prop :=
  match a with
  | Num _ => True
  | _ => False
  end.

(** ** Pitch detector: [autoCorrelate] and [freqToNote] *)

Open Scope num_scope.

(** [buf[i]] on the sample buffer. *)
Definition buf_get (buf : list num) (i : nat) : num := to_number (buf !! i).

(** [for (i = 0; i < buf.length; i++) rms += buf[i] * buf[i]] *)
Definition sum_squares (buf : list num) : num :=
  fold_left (fun acc x => acc + x * x) buf (Num 0).

(** [Math.sqrt(rms / buf.length)] *)
Definition rms (buf : list num) : num :=
  num_sqrt (sum_squares buf / num_of_nat (length buf)).

(** The inner loop of the scan at one lag:
    [for (i = 0; i < bufferLength - offset; i++)
       correlation += Math.abs(buf[i] - buf[i + offset])] *)
Definition lag_sum (buf : list num) (offset : nat) : num :=
  fold_left
    (fun acc i => acc + num_abs (buf_get buf i - buf_get buf (i + offset)))
    (seq 0 (length buf - offset)) (Num 0).

(** [1 - correlation / bufferLength] *)
Definition lag_correlation (buf : list num) (offset : nat) : num :=
  Num 1 - lag_sum buf offset / num_of_nat (length buf).

(** The variables the scan over the lags mutates. *)
Record scan_state : Type := mk_scan {
  best_offset : Z;
  best_correlation : num;
  foundGoodCorrelation : bool;
  correlations : list num
}.

(** [best_offset = -1], [best_correlation = 0],
    [correlations = new Array(bufferLength).fill(0)] *)
Definition scan_init (bufferLength : nat) : scan_state :=
  mk_scan (-1) (Num 0) false (replicate bufferLength (Num 0)).

(** One iteration of the scan either goes on to the next lag or leaves the
    function through the refinement. *)
Inductive scan_step_result : Type :=
| Continue (s : scan_state)
| Leave (s : scan_state).

Definition scan_step (buf : list num) (offset : nat) (s : scan_state)
  : scan_step_result :=
  let correlation := lag_correlation buf offset in
  let corrs := <[offset := correlation]> (correlations s) in
  if (correlation >? Num 0.9) && (correlation >? best_correlation s) then
    if correlation >? best_correlation s then
      Continue (mk_scan (Z.of_nat offset) correlation true corrs)
    else
      Continue (mk_scan (best_offset s) (best_correlation s) true corrs)
  else if foundGoodCorrelation s then
    Leave (mk_scan (best_offset s) (best_correlation s)
                   (foundGoodCorrelation s) corrs)
  else
    Continue (mk_scan (best_offset s) (best_correlation s) false corrs).

(** How the scan ends: at the refinement ([Refine], the [return] inside the
    loop) or with every lag visited ([Exhausted]). *)
Inductive scan_outcome : Type :=
| Refine (s : scan_state)
| Exhausted (s : scan_state).

(** [for (offset = ...; offset < bufferLength; offset++)], [todo] lags left. *)
Fixpoint scan (buf : list num) (todo offset : nat) (s : scan_state)
  : scan_outcome :=
  match todo with
  | O => Exhausted s
  | S todo' =>
      match scan_step buf offset s with
      | Leave s' => Refine s'
      | Continue s' => scan buf todo' (S offset) s'
      end
  end.

(** The two indices next to [best_offset] that the refinement reads. *)
Definition refine_reads (s : scan_state) : Z * Z :=
  ((best_offset s - 1)%Z, (best_offset s + 1)%Z).

(** [shift = (correlations[best_offset + 1] - correlations[best_offset - 1])
             / correlations[best_offset];
     return sampleRate / (best_offset + 8 * shift)] *)
Definition refine (s : scan_state) (sampleRate : num) : num :=
  let c := correlations s in
  let shift :=
    (to_number (arr_get c (snd (refine_reads s)))
     - to_number (arr_get c (fst (refine_reads s))))
    / to_number (arr_get c (best_offset s)) in
  sampleRate / (num_of_Z (best_offset s) + Num 8 * shift).

Definition autoCorrelate (buf : list num) (sampleRate : num) : num :=
  if rms buf <? Num 0.01 then Num (-1)
  else
    let bufferLength := length buf in
    match scan buf bufferLength 0 (scan_init bufferLength) with
    | Refine s => refine s sampleRate
    | Exhausted s =>
        if best_correlation s >? Num 0.01
        then sampleRate / num_of_Z (best_offset s)
        else Num (-1)
    end.

Definition noteStrings : list string :=
  ["C"; "C#"; "D"; "D#"; "E"; "F"; "F#"; "G"; "G#"; "A"; "A#"; "B"]%string.

(** [12 * (Math.log(frequency / 440) / Math.log(2)) + 69] *)
Definition pitch_of (frequency : num) : num :=
  Num 12 * (num_log (frequency / Num 440) / num_log (Num 2)) + Num 69.

(** The object [freqToNote] returns; [note] is [None] when the table lookup
    gives [undefined]. *)
Record note_info : Type := mk_note {
  note : option string;
  cents : num
}.

Definition freqToNote (frequency : num) : note_info :=
  let pitch := pitch_of frequency in
  let roundedPitch := num_round pitch in
  let noteIndex := num_rem roundedPitch (Num 12) in
  let octave := num_floor (roundedPitch / Num 12) - Num 1 in
  let cents := num_floor ((pitch - roundedPitch) * Num 100) in
  mk_note (arr_get_num noteStrings noteIndex) cents.

(** ** The engine and its host

    The engine is single-threaded: its methods and the callbacks it hands to
    [setTimeout] and [requestAnimationFrame] run one at a time.  The host
    side of the state is the set of callbacks still pending, the handle it
    hands out next, and what the engine has emitted so far. *)

(** What a pending [setTimeout] callback does when it fires. *)
Inductive task : Type :=
| SchedulerTick                 (* [this.scheduler.bind(this)] *)
| BeatNotify (beatNumber : Z).  (* the closure armed by [scheduleNote] *)

Record timeout : Type := mk_timeout {
  timeout_id : nat;
  timeout_delay : num;          (* milliseconds *)
  timeout_task : task
}.

Record world : Type := mk_world {
  (* metronome state *)
  nextNoteTime : num;
  timerID : option nat;
  isMetronomePlaying : bool;
  bpm : num;
  beatCallback : option nat;    (* the listener registered, by name *)
  currentBeatInBar : Z;
  (* tuner state *)
  analyser : bool;              (* an analyser node exists *)
  microphoneStream : bool;      (* a live stream is held *)
  tunerFrameId : option nat;
  tunerCallback : option nat;
  sourceNode : bool;            (* a connected source node is held *)
  (* host *)
  timeouts : list timeout;      (* pending [setTimeout] callbacks *)
  frames : list nat;            (* pending animation-frame callbacks *)
  next_handle : nat;            (* handles are positive *)
  (* emitted so far *)
  notes : list (Z * num);       (* oscillator clicks: beat, start time *)
  beats : list Z;               (* calls of [onBeat] *)
  pitches : list (num * note_info)  (* calls of the tuner callback *)
}.

(** A fresh engine (the field initialisers of the class) in a fresh host. *)
Definition world_init : world :=
  mk_world (Num 0) None false (Num 120) None 0
           false false None None false
           [] [] 1 [] [] [].

(** A handle is truthy unless it is [null] or 0. *)
Definition truthy (h : option nat) : option nat :=
  match h with
  | Some (S n) => Some (S n)
  | _ => None
  end.

Definition is_tick (t : timeout) : bool :=
  match timeout_task t with
  | SchedulerTick => true
  | BeatNotify _ => false
  end.

(** Scheduling loops alive: the pending calls of [scheduler]. *)
Definition scheduling_loops (w : world) : nat :=
  length (List.filter is_tick (timeouts w)).

(** Detection loops alive: the pending calls of [detectPitch]. *)
Definition detection_loops (w : world) : nat := length (frames w).

(** [window.setTimeout(f, delay)]: the callback is queued under a new handle. *)
Definition setTimeout (k : task) (delay : num) (w : world) : nat * world :=
  let id := next_handle w in
  (id,
   mk_world (nextNoteTime w) (timerID w) (isMetronomePlaying w) (bpm w)
            (beatCallback w) (currentBeatInBar w)
            (analyser w) (microphoneStream w) (tunerFrameId w)
            (tunerCallback w) (sourceNode w)
            (timeouts w ++ [mk_timeout id delay k]) (frames w) (S id)
            (notes w) (beats w) (pitches w)).

(** [window.clearTimeout(id)] *)
Definition clearTimeout (id : nat) (w : world) : world :=
  mk_world (nextNoteTime w) (timerID w) (isMetronomePlaying w) (bpm w)
           (beatCallback w) (currentBeatInBar w)
           (analyser w) (microphoneStream w) (tunerFrameId w)
           (tunerCallback w) (sourceNode w)
           (List.filter (fun t => negb (Nat.eqb (timeout_id t) id))
                        (timeouts w))
           (frames w)
           (next_handle w) (notes w) (beats w) (pitches w).

(** [requestAnimationFrame(this.detectPitch.bind(this))] *)
Definition requestAnimationFrame (w : world) : nat * world :=
  let id := next_handle w in
  (id,
   mk_world (nextNoteTime w) (timerID w) (isMetronomePlaying w) (bpm w)
            (beatCallback w) (currentBeatInBar w)
            (analyser w) (microphoneStream w) (tunerFrameId w)
            (tunerCallback w) (sourceNode w)
            (timeouts w) (frames w ++ [id]) (S id)
            (notes w) (beats w) (pitches w)).

(** [cancelAnimationFrame(id)] *)
Definition cancelAnimationFrame (id : nat) (w : world) : world :=
  mk_world (nextNoteTime w) (timerID w) (isMetronomePlaying w) (bpm w)
           (beatCallback w) (currentBeatInBar w)
           (analyser w) (microphoneStream w) (tunerFrameId w)
           (tunerCallback w) (sourceNode w)
           (timeouts w)
           (List.filter (fun i => negb (Nat.eqb i id)) (frames w))
           (next_handle w) (notes w) (beats w) (pitches w).

(** Setters for the fields the engine assigns. *)
Definition set_metronome (nnt : num) (tid : option nat) (playing : bool)
    (tempo : num) (cb : option nat) (beat : Z) (w : world) : world :=
  mk_world nnt tid playing tempo cb beat
           (analyser w) (microphoneStream w) (tunerFrameId w)
           (tunerCallback w) (sourceNode w)
           (timeouts w) (frames w) (next_handle w)
           (notes w) (beats w) (pitches w).

Definition set_tuner (an mic : bool) (fid cb : option nat) (src : bool)
    (w : world) : world :=
  mk_world (nextNoteTime w) (timerID w) (isMetronomePlaying w) (bpm w)
           (beatCallback w) (currentBeatInBar w)
           an mic fid cb src
           (timeouts w) (frames w) (next_handle w)
           (notes w) (beats w) (pitches w).

Definition emit_note (beatNumber : Z) (time : num) (w : world) : world :=
  mk_world (nextNoteTime w) (timerID w) (isMetronomePlaying w) (bpm w)
           (beatCallback w) (currentBeatInBar w)
           (analyser w) (microphoneStream w) (tunerFrameId w)
           (tunerCallback w) (sourceNode w)
           (timeouts w) (frames w) (next_handle w)
           (notes w ++ [(beatNumber, time)]) (beats w) (pitches w).

Definition emit_beat (beatNumber : Z) (w : world) : world :=
  mk_world (nextNoteTime w) (timerID w) (isMetronomePlaying w) (bpm w)
           (beatCallback w) (currentBeatInBar w)
           (analyser w) (microphoneStream w) (tunerFrameId w)
           (tunerCallback w) (sourceNode w)
           (timeouts w) (frames w) (next_handle w)
           (notes w) (beats w ++ [beatNumber]) (pitches w).

Definition emit_pitch (freq : num) (n : note_info) (w : world) : world :=
  mk_world (nextNoteTime w) (timerID w) (isMetronomePlaying w) (bpm w)
           (beatCallback w) (currentBeatInBar w)
           (analyser w) (microphoneStream w) (tunerFrameId w)
           (tunerCallback w) (sourceNode w)
           (timeouts w) (frames w) (next_handle w)
           (notes w) (beats w) (pitches w ++ [(freq, n)]).

(** ** Metronome: the lookahead scheduler *)

(** [Math.max(a, b)] *)
Definition num_max (a b : num) : num :=
  match a, b with
  | NaN, _ | _, NaN => NaN
  | _, _ => if a <? b then b else a
  end.

(** [startMetronome] up to its call of [scheduler]; [now] is
    [ctx.currentTime]. *)
Definition startMetronome_assign (tempo : num) (onBeat : nat) (now : num)
    (w : world) : world :=
  set_metronome (now + Num 0.1) (timerID w) true tempo (Some onBeat) 0 w.

Definition stopMetronome (w : world) : world :=
  let w1 := set_metronome (nextNoteTime w) (timerID w) false (bpm w)
                          (beatCallback w) (currentBeatInBar w) w in
  match truthy (timerID w1) with
  | Some id =>
      let w2 := clearTimeout id w1 in
      set_metronome (nextNoteTime w2) None (isMetronomePlaying w2) (bpm w2)
                    (beatCallback w2) (currentBeatInBar w2) w2
  | None => w1
  end.

Definition updateBPM (tempo : num) (w : world) : world :=
  set_metronome (nextNoteTime w) (timerID w) (isMetronomePlaying w) tempo
                (beatCallback w) (currentBeatInBar w) w.

Definition nextNote (w : world) : world :=
  let secondsPerBeat := Num 60 / bpm w in
  let beat := (currentBeatInBar w + 1)%Z in
  set_metronome (nextNoteTime w + secondsPerBeat) (timerID w)
                (isMetronomePlaying w) (bpm w) (beatCallback w)
                (if (beat >? 4)%Z then 1%Z else beat) w.

(** The click is handed to the audio graph for [time]; the notification is
    left to a timeout due when the click sounds. *)
Definition scheduleNote (beatNumber : Z) (time : num) (now : num) (w : world)
  : world :=
  let w1 := emit_note beatNumber time w in
  let delay := num_max (Num 0) ((time - now) * Num 1000) in
  snd (setTimeout (BeatNotify beatNumber) delay w1).

(** The closure armed by [scheduleNote], when it fires. *)
Definition beat_notify (beatNumber : Z) (w : world) : world :=
  match isMetronomePlaying w, beatCallback w with
  | true, Some _ => emit_beat beatNumber w
  | _, _ => w
  end.

(** The beat number [scheduler] passes to [scheduleNote]. *)
Definition beat_to_play (w : world) : Z :=
  if (currentBeatInBar w =? 0)%Z then 1%Z else currentBeatInBar w.

(** The [while] loop of [scheduler].  It need not terminate, so it runs on
    fuel: [None] when the fuel is used up with the condition still true. *)
Fixpoint scheduler_loop (fuel : nat) (now : num) (w : world) : option world :=
  if nextNoteTime w <? now + Num 0.1 then
    match fuel with
    | O => None
    | S fuel' =>
        scheduler_loop fuel' now
          (nextNote (scheduleNote (beat_to_play w) (nextNoteTime w) now w))
    end
  else Some w.

(** [if (this.isMetronomePlaying) this.timerID = setTimeout(scheduler, 25)] *)
Definition scheduler_rearm (w : world) : world :=
  if isMetronomePlaying w then
    let '(id, w1) := setTimeout SchedulerTick (Num 25) w in
    set_metronome (nextNoteTime w1) (Some id) (isMetronomePlaying w1) (bpm w1)
                  (beatCallback w1) (currentBeatInBar w1) w1
  else w.

Definition scheduler (fuel : nat) (now : num) (w : world) : option world :=
  match scheduler_loop fuel now w with
  | Some w' => Some (scheduler_rearm w')
  | None => None
  end.

Definition startMetronome (fuel : nat) (tempo : num) (onBeat : nat)
    (now : num) (w : world) : option world :=
  scheduler fuel now (startMetronome_assign tempo onBeat now w).

(** ** Tuner: the detection loop *)

(** [detectPitch] on the frame [buf] the analyser hands over. *)
Definition detectPitch (buf : list num) (sampleRate : num) (w : world)
  : world :=
  if analyser w then
    let freq := autoCorrelate buf sampleRate in
    let w1 :=
      if freq >? Num (-1) then
        match tunerCallback w with
        | Some _ => emit_pitch freq (freqToNote freq) w
        | None => w
        end
      else w in
    let '(id, w2) := requestAnimationFrame w1 in
    set_tuner (analyser w2) (microphoneStream w2) (Some id)
              (tunerCallback w2) (sourceNode w2) w2
  else w.

(** [startTuner]; [granted] is whether [getUserMedia] resolves, [buf] the
    frame read by the first [detectPitch].  The function is taken from its
    call to the end of its continuation as one step. *)
Definition startTuner (callback : nat) (granted : bool) (buf : list num)
    (sampleRate : num) (w : world) : world :=
  let w1 := set_tuner (analyser w) (microphoneStream w) (tunerFrameId w)
                      (Some callback) (sourceNode w) w in
  if granted then
    detectPitch buf sampleRate
      (set_tuner true true (tunerFrameId w1) (tunerCallback w1) true w1)
  else w1.

Definition stopTuner (w : world) : world :=
  let w1 :=
    match truthy (tunerFrameId w) with
    | Some id => cancelAnimationFrame id w
    | None => w
    end in
  set_tuner (analyser w1) false (tunerFrameId w1) (tunerCallback w1) false w1.

(** ** The event loop *)

(** What the host or the application does next. *)
Inductive event : Type :=
| EStartMetronome (tempo : num) (onBeat : nat) (now : num)
| EStopMetronome
| EUpdateBPM (tempo : num)
| ETimeout (id : nat) (now : num)     (* a pending timeout fires *)
| EStartTuner (callback : nat) (granted : bool) (buf : list num)
              (sampleRate : num)
| EStopTuner
| EFrame (id : nat) (buf : list num) (sampleRate : num).

(** The pending timeout of handle [id], taken off the queue. *)
Definition take_timeout (id : nat) (w : world) : option (task * world) :=
  match find (fun t => Nat.eqb (timeout_id t) id) (timeouts w) with
  | Some t => Some (timeout_task t, clearTimeout id w)
  | None => None
  end.

Definition step (fuel : nat) (e : event) (w : world) : option world :=
  match e with
  | EStartMetronome tempo onBeat now => startMetronome fuel tempo onBeat now w
  | EStopMetronome => Some (stopMetronome w)
  | EUpdateBPM tempo => Some (updateBPM tempo w)
  | ETimeout id now =>
      match take_timeout id w with
      | Some (SchedulerTick, w') => scheduler fuel now w'
      | Some (BeatNotify b, w') => Some (beat_notify b w')
      | None => Some w
      end
  | EStartTuner callback granted buf sampleRate =>
      Some (startTuner callback granted buf sampleRate w)
  | EStopTuner => Some (stopTuner w)
  | EFrame id buf sampleRate =>
      if existsb (Nat.eqb id) (frames w)
      then Some (detectPitch buf sampleRate (cancelAnimationFrame id w))
      else Some w
  end.

Fixpoint run (fuel : nat) (es : list event) (w : world) : option world :=
  match es with
  | [] => Some w
  | e :: es' =>
      match step fuel e w with
      | Some w' => run fuel es' w'
      | None => None
      end
  end.

(** ** Reference quantities for the statements *)

(** Sum of the squares of a list of reals. *)
Fixpoint Rsum_squares (xs : list R) : R :=
  match xs with
  | [] => 0
  | x :: xs' => x * x + Rsum_squares xs'
  end.

(** A synthetic sine frame: sample [i] of a sine of the given amplitude and
    frequency at the given sample rate. *)
Definition sine_sample (amplitude frequency sampleRate : R) (i : nat) : R :=
  amplitude * sin (2 * PI * frequency * INR i / sampleRate).

Definition sine_samples (amplitude frequency sampleRate : R) (n : nat)
  : list R :=
  map (sine_sample amplitude frequency sampleRate) (seq 0 n).

Definition sine_frame (amplitude frequency sampleRate : R) (n : nat)
  : list num :=
  map Num (sine_samples amplitude frequency sampleRate n).

(** The continuous pitch number of a positive frequency,
    [12 * log2 (f / 440) + 69]. *)
Definition Rpitch (f : R) : R := (12 * (ln (f / 440) / ln 2) + 69)%R.

(** The nearest integer, a tie going up. *)
Definition Rround (p : R) : Z := Zfloor (p + / 2).

(** [floor ((pitchNumber - roundedPitch) * 100)] *)
Definition Rcents (f : R) : Z :=
  Zfloor ((Rpitch f - IZR (Rround (Rpitch f))) * 100).

(** ** The telemetry handler of the application ([App.tsx]) *)

Module App.

Open Scope string_scope.

(** White space as [String.prototype.trim] and the number parsers see it
    (the Latin-1 part). *)
Definition is_space (c : ascii) : bool :=
  let n := nat_of_ascii c in
  (Nat.eqb n 9 || Nat.eqb n 10 || Nat.eqb n 11 || Nat.eqb n 12
   || Nat.eqb n 13 || Nat.eqb n 32 || Nat.eqb n 160)%bool.

Fixpoint trim_start (s : string) : string :=
  match s with
  | String c s' => if is_space c then trim_start s' else s
  | EmptyString => EmptyString
  end.

Definition rev_string (s : string) : string :=
  string_of_list_ascii (rev (list_ascii_of_string s)).

(** [s.trim()] *)
Definition trim (s : string) : string :=
  rev_string (trim_start (rev_string (trim_start s))).

(** [s.split(sep)] for a one-character separator. *)
Fixpoint split (sep : ascii) (s : string) : list string :=
  match s with
  | EmptyString => [EmptyString]
  | String c s' =>
      if Ascii.eqb c sep then EmptyString :: split sep s'
      else
        match split sep s' with
        | p :: ps => String c p :: ps
        | [] => [String c EmptyString]
        end
  end.

(** [s.startsWith(p)] *)
Definition startsWith (s p : string) : bool := String.prefix p s.

Definition digit_of (c : ascii) : option Z :=
  let n := nat_of_ascii c in
  if (Nat.leb 48 n && Nat.leb n 57)%bool then Some (Z.of_nat (n - 48))
  else None.

Definition hex_digit_of (c : ascii) : option Z :=
  let n := nat_of_ascii c in
  if (Nat.leb 48 n && Nat.leb n 57)%bool then Some (Z.of_nat (n - 48))
  else if (Nat.leb 65 n && Nat.leb n 70)%bool then Some (Z.of_nat (n - 55))
  else if (Nat.leb 97 n && Nat.leb n 102)%bool then Some (Z.of_nat (n - 87))
  else None.

(** The longest run of digits at the head of [s]: its value on top of
    [acc], how many digits, and what follows. *)
Fixpoint take_digits (digit : ascii -> option Z) (radix : Z) (s : string)
    (acc : Z) (count : nat) : Z * nat * string :=
  match s with
  | EmptyString => (acc, count, s)
  | String c s' =>
      match digit c with
      | Some d => take_digits digit radix s' (acc * radix + d)%Z (S count)
      | None => (acc, count, s)
      end
  end.

(** An optional sign at the head of [s]. *)
Definition take_sign (s : string) : bool * string :=
  match s with
  | String "-" s' => (true, s')
  | String "+" s' => (false, s')
  | _ => (false, s)
  end.

Definition signed (negative : bool) (z : Z) : Z :=
  if negative then (- z)%Z else z.

(** [parseInt(s)] with no radix: decimal, or hexadecimal after [0x]. *)
Definition parseInt (s : string) : num :=
  let '(negative, s1) := take_sign (trim_start s) in
  let '(v, n, _) :=
    match s1 with
    | String "0" (String "x" s2) | String "0" (String "X" s2) =>
        take_digits hex_digit_of 16 s2 0 0
    | _ => take_digits digit_of 10 s1 0 0
    end in
  match n with
  | O => NaN
  | S _ => Num (IZR (signed negative v))
  end.

(** [m * 10 ^ e] *)
Definition decimal_value (m e : Z) : R :=
  if (0 <=? e)%Z then IZR (m * 10 ^ e) else (IZR m / IZR (10 ^ (- e)))%R.

(** The exponent part [e[+-]digits] at the head of [s], 0 when there is
    none. *)
Definition take_exponent (s : string) : Z :=
  match s with
  | String "e" s' | String "E" s' =>
      let '(negative, s1) := take_sign s' in
      let '(v, n, _) := take_digits digit_of 10 s1 0 0 in
      match n with
      | O => 0%Z
      | S _ => signed negative v
      end
  | _ => 0%Z
  end.

(** [parseFloat(s)]: the longest prefix that is a decimal literal. *)
Definition parseFloat (s : string) : num :=
  let '(negative, s1) := take_sign (trim_start s) in
  if String.prefix "Infinity" s1 then (if negative then NegInf else PosInf)
  else
    let '(int_part, int_digits, s2) := take_digits digit_of 10 s1 0 0 in
    let '(mantissa, frac_digits, s3) :=
      match s2 with
      | String "." s2' =>
          match take_digits digit_of 10 s2' int_part 0 with
          | (m, O, _) =>
              match int_digits with
              | O => (m, O, s2)          (* a lone dot is not a literal *)
              | S _ => (m, O, s2')
              end
          | r => r
          end
      | _ => (int_part, O, s2)
      end in
    match (int_digits + frac_digits)%nat with
    | O => NaN
    | S _ =>
        Num (decimal_value (signed negative mantissa)
               (take_exponent s3 - Z.of_nat frac_digits))
    end.

(** An argument that may be [undefined] is parsed as the string
    ["undefined"]: NaN. *)
Definition parseInt_opt (v : option string) : num :=
  match v with
  | Some s => parseInt s
  | None => NaN
  end.

Record TunerData : Type := mk_TunerData {
  frequency : num;
  noteName : string;
  cents : num;
  isActive : bool
}.

(** What the handler does to the state of the application. *)
Inductive update : Type :=
| SetCurrentBeat (beatVal : num)
| SetTunerData (d : TunerData)
| NoUpdate.

(** [parts.find(p => p.startsWith(tag))?.split(':')[1]] *)
Definition field (tag : string) (parts : list string) : option string :=
  match find (fun p => startsWith p tag) parts with
  | Some p => nth_error (split ":" p) 1
  | None => None
  end.

(** [v || d]: [undefined] and the empty string are falsy. *)
Definition or_default (v : option string) (d : string) : string :=
  match v with
  | Some (String c s) => String c s
  | _ => d
  end.

(** The three fields of a tuner line, each looked up on its own. *)
Definition tuner_of_parts (parts : list string) : TunerData :=
  let freq := parseFloat (or_default (field "FREQ:" parts) "0") in
  let note := or_default (field "NOTE:" parts) "" in
  let cents := parseInt (or_default (field "CENTS:" parts) "0") in
  mk_TunerData freq note cents true.

(** The callback handed to [bluetoothService.onDataReceived]. *)
Definition onDataReceived (data : string) : update :=
  let parts := split "|" (trim data) in
  if startsWith data "BEAT:" then
    SetCurrentBeat (parseInt_opt (nth_error (split ":" data) 1))
  else if startsWith data "FREQ:" then
    SetTunerData (tuner_of_parts parts)
  else NoUpdate.

(** The parts of a line, as the handler cuts them. *)
Definition parts_of (data : string) : list string :=
  split "|" (trim data).

(** No part carries the tag. *)
Definition absent (tag : string) (parts : list string) : Prop :=
  find (fun p => startsWith p tag) parts = None.

(** At most one part carries the tag. *)
Definition once (tag : string) (parts : list string) : Prop :=
  (length (List.filter (fun p => startsWith p tag) parts) <= 1)%nat.

Definition tags_once (parts : list string) : Prop :=
  once "FREQ:" parts /\ once "NOTE:" parts /\ once "CENTS:" parts.

End App.

(** ** The order of the beats

    The cursor of [nextNote] and the beat [scheduler] plays for it, taken
    out of the state so that the order of the clicks can be stated. *)

(** [currentBeatInBar++; if (currentBeatInBar > 4) currentBeatInBar = 1] *)
Definition advance (beat : Z) : Z :=
  if (beat + 1 >? 4)%Z then 1%Z else (beat + 1)%Z.

(** [currentBeatInBar === 0 ? 1 : currentBeatInBar] *)
Definition play (beat : Z) : Z :=
  if (beat =? 0)%Z then 1%Z else beat.

(** The beats of [n] clicks in a row, the cursor starting at [beat]. *)
Fixpoint played (beat : Z) (n : nat) : list Z :=
  match n with
  | O => []
  | S n' => play beat :: played (advance beat) n'
  end.

(** The bar as the specification has it: [1, 2, 3, 4, 1, 2, ...]. *)
Definition bar_beat (k : nat) : Z := Z.of_nat (k mod 4) + 1.

(** A strictly positive number. *)
Definition strictly_positive (a : num) : Prop := (Num 0 <? a) = true.

(** What the order of the clicks depends on: the clicks scheduled so far and
    the cursor. *)
Definition click_view (w : world) : list (Z * num) * Z :=
  (notes w, currentBeatInBar w).

(** An event other than a call of [startMetronome]. *)
Definition not_a_start (e : event) : Prop :=
  match e with
  | EStartMetronome _ _ _ => False
  | _ => True
  end.

(** The time of click [k] of a train that starts at [t], at tempo [b]. *)
Definition click_time (t b : R) (k : nat) : R := (t + INR k * (60 / b))%R.

(** The handles of the host: positive, handed out once, and below the next
    one. *)
Definition handles_ok (next : nat) (ids : list nat) : Prop :=
  List.NoDup ids /\ List.Forall (fun id => (1 <= id < next)%nat) ids.

Definition host_ok (w : world) : Prop :=
  (1 <= next_handle w)%nat
  /\ handles_ok (next_handle w) (map timeout_id (timeouts w))
  /\ handles_ok (next_handle w) (frames w).

(** The polling timeout of handle [id] is pending. *)
Definition tick_pending (id : nat) (w : world) : Prop :=
  In (mk_timeout id (Num 25) SchedulerTick) (timeouts w).

(** One scheduling loop when the metronome plays, held by [timerID]; none
    when it does not. *)
Definition one_loop (w : world) : Prop :=
  host_ok w
  /\ if isMetronomePlaying w
     then scheduling_loops w = 1%nat
          /\ exists id, timerID w = Some id /\ tick_pending id w
     else scheduling_loops w = 0%nat.

(** A call of [startMetronome] made while the metronome is not playing, as
    the toggle of the application makes it; any other event. *)
Definition start_when_stopped (e : event) (w : world) : Prop :=
  match e with
  | EStartMetronome _ _ _ => isMetronomePlaying w = false
  | _ => True
  end.

(** A run in which every start finds the metronome stopped. *)
Fixpoint disciplined (fuel : nat) (es : list event) (w : world) : Prop :=
  match es with
  | [] => True
  | e :: es' =>
      start_when_stopped e w
      /\ match step fuel e w with
         | Some w' => disciplined fuel es' w'
         | None => True
         end
  end.

(** ** Decimal text, for the statements about telemetry lines *)

(** The character of a decimal digit. *)
Definition digit_char (d : nat) : ascii := ascii_of_nat (48 + d).

(** A run of decimal digits as text, and its value on top of [acc]. *)
Fixpoint digits_string (ds : list nat) : string :=
  match ds with
  | [] => EmptyString
  | d :: ds' => String (digit_char d) (digits_string ds')
  end.

Fixpoint digits_value (ds : list nat) (acc : Z) : Z :=
  match ds with
  | [] => acc
  | d :: ds' => digits_value ds' (acc * 10 + Z.of_nat d)
  end.

Definition is_digits (ds : list nat) : Prop :=
  List.Forall (fun d => (d < 10)%nat) ds.

(** [c] occurs in [s]. *)
Fixpoint has_char (c : ascii) (s : string) : bool :=
  match s with
  | EmptyString => false
  | String x s' => Ascii.eqb x c || has_char c s'
  end.

(** What may follow the digits of an integer without changing how
    [parseInt] reads them: nothing, or a character that is neither a digit
    nor the [x] of a hexadecimal prefix. *)
Definition benign_tail (rest : string) : Prop :=
  match rest with
  | EmptyString => True
  | String c _ =>
      App.digit_of c = None /\ c <> "x"%char /\ c <> "X"%char
  end.

(** A note name that can travel in a line: no separator in it. *)
Definition plain_name (name : string) : Prop :=
  has_char "|" name = false /\ has_char ":" name = false.

(** Only white space. *)
Fixpoint all_space (s : string) : bool :=
  match s with
  | EmptyString => true
  | String c s' => App.is_space c && all_space s'
  end.

(** The last character of a text is not white space. *)
Definition ends_nonspace (s : string) : Prop :=
  match App.rev_string s with
  | EmptyString => False
  | String c _ => App.is_space c = false
  end.

(** The lines of the format the handler expects:
    [BEAT:<digits>] and [FREQ:<digits>.<digits>|NOTE:<name>|CENTS:<integer>],
    each with what may follow it. *)
Definition beat_line (ds : list nat) (rest : string) : string :=
  ("BEAT:" ++ digits_string ds ++ rest)%string.

Definition decimal_text (ds1 ds2 : list nat) : string :=
  (digits_string ds1 ++ String "." (digits_string ds2))%string.

Definition cents_text (negative : bool) (ds : list nat) : string :=
  if negative then String "-" (digits_string ds) else digits_string ds.

Definition freq_part (ds1 ds2 : list nat) : string :=
  ("FREQ:" ++ decimal_text ds1 ds2)%string.

Definition note_part (name : string) : string := ("NOTE:" ++ name)%string.

Definition cents_part (negative : bool) (ds : list nat) : string :=
  ("CENTS:" ++ cents_text negative ds)%string.

Definition tuner_body (ds1 ds2 : list nat) (name : string) (negative : bool)
    (ds3 : list nat) : string :=
  (freq_part ds1 ds2
   ++ String "|" (note_part name ++ String "|" (cents_part negative ds3)))%string.

Definition tuner_line (ds1 ds2 : list nat) (name : string) (negative : bool)
    (ds3 : list nat) (tail : string) : string :=
  (tuner_body ds1 ds2 name negative ds3 ++ tail)%string.

(** ** The Bluetooth service ([services/bluetoothService.ts])

    The service object as the application sees it.  What the browser and
    the device decide (whether [connect] gets through, whether the link
    drops) comes in from outside; what the service hands to [writeValue] is
    kept as a log. *)

Module Bluetooth.

(** How far [connect] gets: each [await] of the function can reject. *)
Inductive connect_outcome : Type :=
| Unsupported         (* no [navigator.bluetooth]: throws before the [try] *)
| RequestRejected     (* [requestDevice] rejects *)
| NoGatt              (* a device without a GATT server *)
| GattRejected        (* [gatt.connect] rejects *)
| ServiceRejected     (* [getPrimaryService] rejects *)
| RxRejected          (* [getCharacteristic(CHAR_RX_UUID)] rejects *)
| TxRejected          (* the notify characteristic cannot be set up *)
| Linked.

Record service : Type := mk_service {
  (* [None]: null.  [Some None]: a device without [gatt].
     [Some (Some c)]: a device whose [gatt.connected] is [c]. *)
  device : option (option bool);
  server : bool;                  (* [this.server] is set *)
  rxCharacteristic : bool;        (* [this.rxCharacteristic] is set *)
  dataCallback : bool;            (* a callback is registered *)
  (* calls of [writeValue]: the message is [`${cmd}:${value}\n`], kept as
     the command and the value, [None] for the default [''] *)
  written : list (string * option num)
}.

Definition service_init : service := mk_service None false false false [].

Definition cleanup (s : service) : service :=
  mk_service None false false (dataCallback s) (written s).

(** [!!(this.device && this.device.gatt && this.device.gatt.connected)] *)
Definition isConnected (s : service) : bool :=
  match device s with
  | Some (Some true) => true
  | _ => false
  end.

Definition disconnect (s : service) : service :=
  let s1 :=
    if isConnected s
    then mk_service (Some (Some false)) (server s) (rxCharacteristic s)
                    (dataCallback s) (written s)
    else s in
  cleanup s1.

(** The listener of [gattserverdisconnected]. *)
Definition handleDisconnect (s : service) : service := cleanup s.

Definition sendCommand (cmd : string) (value : option num) (s : service)
  : service :=
  if rxCharacteristic s
  then mk_service (device s) (server s) (rxCharacteristic s) (dataCallback s)
                  (written s ++ [(cmd, value)])
  else s.

Definition onDataReceived (s : service) : service :=
  mk_service (device s) (server s) (rxCharacteristic s) true (written s).

(** The listener of [characteristicvaluechanged]: the text handed to the
    registered callback, if any. *)
Definition handleCharacteristicValueChanged (value : option string)
    (s : service) : option string :=
  match value with
  | None => None
  | Some data => if dataCallback s then Some data else None
  end.

Definition with_link (d : option (option bool)) (srv rx : bool) (s : service)
  : service :=
  mk_service d srv rx (dataCallback s) (written s).

(** [connect]: whether the promise resolves, and the fields assigned on the
    way. *)
Definition connect (o : connect_outcome) (s : service) : bool * service :=
  match o with
  | Unsupported | RequestRejected => (false, s)
  | NoGatt =>
      (false, with_link (Some None) (server s) (rxCharacteristic s) s)
  | GattRejected =>
      (false, with_link (Some (Some false)) (server s) (rxCharacteristic s) s)
  | ServiceRejected | RxRejected =>
      (false, with_link (Some (Some true)) true (rxCharacteristic s) s)
  | TxRejected => (false, with_link (Some (Some true)) true true s)
  | Linked => (true, with_link (Some (Some true)) true true s)
  end.

End Bluetooth.

(** ** The dispatchers of the application ([App.tsx], [MetronomeUI.tsx])

    The component state, the engine and the Bluetooth service, and what each
    handler does to them.  A handler runs to its end before the next event,
    and sees the state the events before it have left; an [async] handler is
    taken with its continuation as one step.  A control that is not on the
    screen is not clicked. *)

Module Dispatch.

Inductive OperatingMode : Type := standalone | connected.
Inductive Tab : Type := metronome | tuner.

Definition START_METRONOME : string := "START_METRO".
Definition STOP_METRONOME : string := "STOP_METRO".
Definition SET_BPM : string := "SET_BPM".
Definition START_TUNER : string := "START_TUNER".
Definition STOP_TUNER : string := "STOP_TUNER".

(** [TunerData] as the component holds it; the note the engine reports may
    be [undefined]. *)
Record TunerData : Type := mk_TunerData {
  frequency : num;
  noteName : option string;
  cents : num;
  isActive : bool
}.

(** The [useState] cells of [App]. *)
Record cells : Type := mk_cells {
  mode : OperatingMode;
  activeTab : Tab;
  connectionError : option string;
  bpm : num;
  isMetroPlaying : bool;
  currentBeat : num;
  isTunerActive : bool;
  tunerData : TunerData
}.

Record state : Type := mk_state {
  ui : cells;
  engine : world;                 (* [audioEngine] *)
  link : Bluetooth.service        (* [bluetoothService] *)
}.

Definition cells_init : cells :=
  mk_cells standalone metronome None (Num 120) false (Num 1) false
           (mk_TunerData (Num 0) (Some EmptyString) (Num 0) false).

(** After the first render: the mount effect has registered the telemetry
    callback. *)
Definition state_init : state :=
  mk_state cells_init world_init
           (Bluetooth.onDataReceived Bluetooth.service_init).

Definition setMode (m : OperatingMode) (u : cells) : cells :=
  mk_cells m (activeTab u) (connectionError u) (bpm u) (isMetroPlaying u)
           (currentBeat u) (isTunerActive u) (tunerData u).

Definition setActiveTab (t : Tab) (u : cells) : cells :=
  mk_cells (mode u) t (connectionError u) (bpm u) (isMetroPlaying u)
           (currentBeat u) (isTunerActive u) (tunerData u).

Definition setConnectionError (e : option string) (u : cells) : cells :=
  mk_cells (mode u) (activeTab u) e (bpm u) (isMetroPlaying u)
           (currentBeat u) (isTunerActive u) (tunerData u).

Definition setBpm (b : num) (u : cells) : cells :=
  mk_cells (mode u) (activeTab u) (connectionError u) b (isMetroPlaying u)
           (currentBeat u) (isTunerActive u) (tunerData u).

Definition setIsMetroPlaying (p : bool) (u : cells) : cells :=
  mk_cells (mode u) (activeTab u) (connectionError u) (bpm u) p
           (currentBeat u) (isTunerActive u) (tunerData u).

Definition setCurrentBeat (b : num) (u : cells) : cells :=
  mk_cells (mode u) (activeTab u) (connectionError u) (bpm u)
           (isMetroPlaying u) b (isTunerActive u) (tunerData u).

Definition setIsTunerActive (a : bool) (u : cells) : cells :=
  mk_cells (mode u) (activeTab u) (connectionError u) (bpm u)
           (isMetroPlaying u) (currentBeat u) a (tunerData u).

Definition setTunerData (d : TunerData) (u : cells) : cells :=
  mk_cells (mode u) (activeTab u) (connectionError u) (bpm u)
           (isMetroPlaying u) (currentBeat u) (isTunerActive u) d.

(** The names under which the engine holds the two listeners. *)
Definition onBeat : nat := 1.
Definition onPitch : nat := 2.

(** The listeners [(beat) => setCurrentBeat(beat)] and
    [(freq, note, cents) => setTunerData(...)], for the calls the engine
    made while it went from [before] to [after]. *)
Definition listeners (before after : world) (u : cells) : cells :=
  let u1 :=
    match last (drop (length (beats before)) (beats after)) with
    | Some b => setCurrentBeat (num_of_Z b) u
    | None => u
    end in
  match last (drop (length (pitches before)) (pitches after)) with
  | Some (f, mk_note name c) =>
      setTunerData (mk_TunerData f name c true) u1
  | None => u1
  end.

(** [handleStartStopMetronome]; [now] is the clock the engine reads if it
    is started.  [None] when the engine does not return. *)
Definition handleStartStopMetronome (fuel : nat) (now : num) (s : state)
  : option state :=
  let newState := negb (isMetroPlaying (ui s)) in
  let u := setIsMetroPlaying newState (ui s) in
  match mode (ui s) with
  | connected =>
      let cmd := if newState then START_METRONOME else STOP_METRONOME in
      let l1 := Bluetooth.sendCommand cmd None (link s) in
      let l2 :=
        if newState
        then Bluetooth.sendCommand SET_BPM (Some (bpm (ui s))) l1
        else l1 in
      Some (mk_state u (engine s) l2)
  | standalone =>
      if newState then
        match startMetronome fuel (bpm (ui s)) onBeat now (engine s) with
        | Some w => Some (mk_state (listeners (engine s) w u) w (link s))
        | None => None
        end
      else
        Some (mk_state (setCurrentBeat (Num 1) u)
                       (stopMetronome (engine s)) (link s))
  end.

Definition handleBPMChange (newBpm : num) (s : state) : state :=
  let u := setBpm newBpm (ui s) in
  match mode (ui s) with
  | connected =>
      mk_state u (engine s)
               (Bluetooth.sendCommand SET_BPM (Some newBpm) (link s))
  | standalone => mk_state u (updateBPM newBpm (engine s)) (link s)
  end.

(** [handleToggleTuner]; [granted], [buf] and [sampleRate] are what the
    engine meets if it is started. *)
Definition handleToggleTuner (granted : bool) (buf : list num)
    (sampleRate : num) (s : state) : state :=
  let newState := negb (isTunerActive (ui s)) in
  let u := setIsTunerActive newState (ui s) in
  match mode (ui s) with
  | connected =>
      let cmd := if newState then START_TUNER else STOP_TUNER in
      mk_state u (engine s) (Bluetooth.sendCommand cmd None (link s))
  | standalone =>
      if newState then
        let w := startTuner onPitch granted buf sampleRate (engine s) in
        mk_state (listeners (engine s) w u) w (link s)
      else
        let prev := tunerData u in
        mk_state
          (setTunerData (mk_TunerData (Num 0) (noteName prev) (cents prev)
                                      false) u)
          (stopTuner (engine s)) (link s)
  end.

Definition connect_failed : string :=
  "Failed to connect. Ensure your device is advertising the UART service.".

(** [handleBluetoothToggle]; [outcome] is how far [connect] gets and
    [write_ok] whether the write of the tempo resolves. *)
Definition handleBluetoothToggle (outcome : Bluetooth.connect_outcome)
    (write_ok : bool) (s : state) : state :=
  match mode (ui s) with
  | connected =>
      mk_state (setConnectionError None (setMode standalone (ui s)))
               (engine s) (Bluetooth.disconnect (link s))
  | standalone =>
      let failed l :=
        mk_state (setMode standalone
                    (setConnectionError (Some connect_failed) (ui s)))
                 (engine s) l in
      match Bluetooth.connect outcome (link s) with
      | (true, l1) =>
          let u := setConnectionError None (setMode connected (ui s)) in
          match activeTab (ui s) with
          | metronome =>
              let l2 :=
                Bluetooth.sendCommand SET_BPM (Some (bpm (ui s))) l1 in
              if write_ok then mk_state u (engine s) l2 else failed l2
          | tuner => mk_state u (engine s) l1
          end
      | (false, l1) => failed l1
      end
  end.

(** The effect on [activeTab]: what plays is toggled off. *)
Definition tab_effect (fuel : nat) (now : num) (buf : list num)
    (sampleRate : num) (s : state) : option state :=
  match
    (if isMetroPlaying (ui s) then handleStartStopMetronome fuel now s
     else Some s)
  with
  | Some s1 =>
      Some (if isTunerActive (ui s)
            then handleToggleTuner true buf sampleRate s1
            else s1)
  | None => None
  end.

(** What the telemetry callback does to the cells. *)
Definition telemetry (data : string) (u : cells) : cells :=
  match App.onDataReceived data with
  | App.SetCurrentBeat b => setCurrentBeat b u
  | App.SetTunerData d =>
      setTunerData
        (mk_TunerData (App.frequency d) (Some (App.noteName d)) (App.cents d)
                      (App.isActive d)) u
  | App.NoUpdate => u
  end.

(** What happens to the application. *)
Inductive action : Type :=
| ClickBluetooth (outcome : Bluetooth.connect_outcome) (write_ok : bool)
| DismissError
| ClickStartStop (now : num)
| MoveSlider (value : num)            (* [onBPMChange(Number(...))] *)
| ClickMinus                          (* [onBPMChange(bpm - 1)] *)
| ClickPlus                           (* [onBPMChange(bpm + 1)] *)
| ClickTuner (granted : bool) (buf : list num) (sampleRate : num)
| ClickTab (t : Tab) (now : num) (buf : list num) (sampleRate : num)
| TimeoutFires (id : nat) (now : num)
| FrameFires (id : nat) (buf : list num) (sampleRate : num)
| LinkLost                            (* [gattserverdisconnected] *)
| Notification (value : option string).

Definition same_tab (a b : Tab) : bool :=
  match a, b with
  | metronome, metronome | tuner, tuner => true
  | _, _ => false
  end.

(** An event of the host, handed to the engine; the listeners it calls
    update the cells. *)
Definition host (fuel : nat) (e : event) (s : state) : option state :=
  match step fuel e (engine s) with
  | Some w => Some (mk_state (listeners (engine s) w (ui s)) w (link s))
  | None => None
  end.

Definition handle (fuel : nat) (a : action) (s : state) : option state :=
  match a with
  | ClickBluetooth outcome write_ok =>
      Some (handleBluetoothToggle outcome write_ok s)
  | DismissError =>
      Some (mk_state (setConnectionError None (ui s)) (engine s) (link s))
  | ClickStartStop now =>
      match activeTab (ui s) with
      | metronome => handleStartStopMetronome fuel now s
      | tuner => Some s
      end
  | MoveSlider value =>
      match activeTab (ui s) with
      | metronome => Some (handleBPMChange value s)
      | tuner => Some s
      end
  | ClickMinus =>
      match activeTab (ui s) with
      | metronome => Some (handleBPMChange (bpm (ui s) - Num 1) s)
      | tuner => Some s
      end
  | ClickPlus =>
      match activeTab (ui s) with
      | metronome => Some (handleBPMChange (bpm (ui s) + Num 1) s)
      | tuner => Some s
      end
  | ClickTuner granted buf sampleRate =>
      match activeTab (ui s) with
      | tuner => Some (handleToggleTuner granted buf sampleRate s)
      | metronome => Some s
      end
  | ClickTab t now buf sampleRate =>
      if same_tab t (activeTab (ui s)) then Some s
      else
        tab_effect fuel now buf sampleRate
          (mk_state (setActiveTab t (ui s)) (engine s) (link s))
  | TimeoutFires id now => host fuel (ETimeout id now) s
  | FrameFires id buf sampleRate => host fuel (EFrame id buf sampleRate) s
  | LinkLost =>
      Some (mk_state (ui s) (engine s) (Bluetooth.handleDisconnect (link s)))
  | Notification value =>
      match Bluetooth.handleCharacteristicValueChanged value (link s) with
      | Some data => Some (mk_state (telemetry data (ui s)) (engine s) (link s))
      | None => Some s
      end
  end.

Fixpoint handle_all (fuel : nat) (acts : list action) (s : state)
  : option state :=
  match acts with
  | [] => Some s
  | a :: acts' =>
      match handle fuel a s with
      | Some s' => handle_all fuel acts' s'
      | None => None
      end
  end.

(** A click on one of the controls of the two panels or of the tab bar. *)
Definition is_control (a : action) : Prop :=
  match a with
  | ClickStartStop _ | MoveSlider _ | ClickMinus | ClickPlus
  | ClickTuner _ _ _ | ClickTab _ _ _ _ => True
  | _ => False
  end.

(** Anything but the Bluetooth button. *)
Definition not_bluetooth (a : action) : Prop :=
  match a with
  | ClickBluetooth _ _ => False
  | _ => True
  end.

(** The play button and the engine agree, the engine runs at most its one
    polling loop, and nothing was sent. *)
Definition coupled (s : state) : Prop :=
  mode (ui s) = standalone
  /\ isMetroPlaying (ui s) = isMetronomePlaying (engine s)
  /\ one_loop (engine s)
  /\ Bluetooth.written (link s) = [].

(** What is switched on belongs to the tab on the screen. *)
Definition on_screen (s : state) : Prop :=
  (isMetroPlaying (ui s) = true -> activeTab (ui s) = metronome)
  /\ (isTunerActive (ui s) = true -> activeTab (ui s) = tuner).

End Dispatch.

(** ** Beats inside the bar *)

Definition in_bar (b : Z) : Prop := (1 <= b <= 4)%Z.

(** A pending notification carries a beat of the bar. *)
Definition notify_in_bar (t : timeout) : Prop :=
  match timeout_task t with
  | BeatNotify b => in_bar b
  | SchedulerTick => True
  end.

(** The cursor is 0 (just started) or a beat of the bar, and so is every
    beat clicked, reported or about to be reported. *)
Definition bar_ok (w : world) : Prop :=
  (0 <= currentBeatInBar w <= 4)%Z
  /\ List.Forall in_bar (map fst (notes w))
  /\ List.Forall in_bar (beats w)
  /\ List.Forall notify_in_bar (timeouts w).

(** The beat cell holds one of the four beats the indicator of
    [MetronomeUI] has a dot for ([currentBeat === i], [i] from 1 to 4). *)
Definition dot_lit (s : Dispatch.state) : Prop :=
  exists b : Z, in_bar b /\ Dispatch.currentBeat (Dispatch.ui s) = num_of_Z b.

(** Anything but a notification from the device. *)
Definition not_notification (a : Dispatch.action) : Prop :=
  match a with
  | Dispatch.Notification _ => False
  | _ => True
  end.

(** * Properties *)

Arguments num_ltb : simpl never.
Arguments num_gtb : simpl never.
Arguments num_div : simpl never.

(** ** Numbers *)

Lemma num_ltb_Num (x y : R) :
  (Num x <? Num y) = true <-> (x < y)%R.
Proof.
  unfold num_ltb. destruct (Rlt_dec x y); split; intros; try easy.
Qed.

Lemma num_ltb_Num_false (x y : R) :
  (Num x <? Num y) = false <-> (y <= x)%R.
Proof.
  unfold num_ltb. destruct (Rlt_dec x y); split; intros; try easy; lra.
Qed.

Lemma num_ltb_lt (x y : R) : (x < y)%R -> (Num x <? Num y) = true.
Proof. apply num_ltb_Num. Qed.

Lemma num_ltb_ge (x y : R) : (y <= x)%R -> (Num x <? Num y) = false.
Proof. apply num_ltb_Num_false. Qed.

Lemma Rsign_pos (x : R) : (0 < x)%R -> Rsign x = Gt.
Proof.
  intros H. unfold Rsign. destruct (total_order_T x 0) as [[?|?]|?]; try lra.
  reflexivity.
Qed.

Lemma Rsign_neg (x : R) : (x < 0)%R -> Rsign x = Lt.
Proof.
  intros H. unfold Rsign. destruct (total_order_T x 0) as [[?|?]|?]; try lra.
  reflexivity.
Qed.

Lemma Rsign_zero : Rsign 0 = Eq.
Proof.
  unfold Rsign. destruct (total_order_T 0 0) as [[?|?]|?]; try lra.
  reflexivity.
Qed.

Lemma num_add_NaN_r (a : num) : a + NaN = NaN.
Proof. destruct a; reflexivity. Qed.

Lemma num_sub_NaN_r (a : num) : a - NaN = NaN.
Proof. destruct a; reflexivity. Qed.

Lemma num_mul_NaN_r (a : num) : a * NaN = NaN.
Proof. destruct a; reflexivity. Qed.

Lemma num_div_NaN_r (a : num) : a / NaN = NaN.
Proof. destruct a; reflexivity. Qed.

Lemma num_div_NaN_l (a : num) : NaN / a = NaN.
Proof. destruct a; reflexivity. Qed.

Lemma num_div_Num (x y : R) : y <> 0%R -> Num x / Num y = Num (x / y).
Proof.
  intros H. unfold num_div, Rsign.
  destruct (total_order_T y 0) as [[?|?]|?]; try reflexivity. contradiction.
Qed.

(** ** The scan of [autoCorrelate] on a frame of finite samples *)

Section FiniteFrame.

Variable buf : list num.
Hypothesis buf_finite : Forall is_finite buf.

Lemma buf_get_finite (i : nat) :
  (i < length buf)%nat -> exists x, buf_get buf i = Num x.
Proof.
  intros Hi. unfold buf_get.
  destruct (lookup_lt_is_Some_2 buf i Hi) as [a Ha]. rewrite Ha.
  rewrite Forall_forall in buf_finite.
  assert (Hin : a ∈ buf) by (eapply list_elem_of_lookup_2; exact Ha).
  specialize (buf_finite a Hin). destruct a; try contradiction.
  exists r. reflexivity.
Qed.

(** The accumulated sum of absolute differences is finite and does not
    decrease. *)
Lemma lag_fold_finite (offset : nat) (l : list nat) (a : R) :
  (forall i, In i l -> (i + offset < length buf)%nat) ->
  exists r, (a <= r)%R /\
    fold_left
      (fun acc i => acc + num_abs (buf_get buf i - buf_get buf (i + offset)))
      l (Num a) = Num r.
Proof.
  revert a. induction l as [|i l IH]; intros a Hl.
  - exists a. split; [lra | reflexivity].
  - simpl.
    destruct (buf_get_finite i) as [x Hx].
    { specialize (Hl i (or_introl eq_refl)). lia. }
    destruct (buf_get_finite (i + offset)) as [y Hy].
    { apply Hl. left. reflexivity. }
    rewrite Hx, Hy. simpl.
    destruct (IH (a + Rabs (x + - y))%R) as [r [Hr Hf]].
    { intros j Hj. apply Hl. right. exact Hj. }
    exists r. split; [|exact Hf].
    pose proof (Rabs_pos (x + - y)). lra.
Qed.

(** At lag 0 every difference is [buf[i] - buf[i]]: the sum stays 0. *)
Lemma lag_fold_zero (l : list nat) :
  (forall i, In i l -> (i < length buf)%nat) ->
  fold_left
    (fun acc i => acc + num_abs (buf_get buf i - buf_get buf (i + 0)))
    l (Num 0) = Num 0.
Proof.
  induction l as [|i l IH]; intros Hl.
  - reflexivity.
  - simpl. rewrite Nat.add_0_r.
    destruct (buf_get_finite i) as [x Hx].
    { apply Hl. left. reflexivity. }
    rewrite Hx. simpl.
    replace (0 + Rabs (x + - x))%R with 0%R.
    + apply IH. intros j Hj. apply Hl. right. exact Hj.
    + replace (x + - x)%R with 0%R by lra. rewrite Rabs_R0. lra.
Qed.

Lemma lag_sum_0 : lag_sum buf 0 = Num 0.
Proof.
  unfold lag_sum. apply lag_fold_zero.
  intros i Hi. apply in_seq in Hi. lia.
Qed.

Lemma lag_sum_finite (offset : nat) :
  exists r, (0 <= r)%R /\ lag_sum buf offset = Num r.
Proof.
  unfold lag_sum. apply lag_fold_finite.
  intros i Hi. apply in_seq in Hi. lia.
Qed.

Hypothesis buf_nonempty : (0 < length buf)%nat.

(** The correlation at lag 0 is exactly 1. *)
Lemma lag_correlation_0 : lag_correlation buf 0 = Num 1.
Proof.
  unfold lag_correlation. rewrite lag_sum_0. unfold num_of_nat.
  rewrite num_div_Num.
  - simpl. f_equal. unfold Rdiv. lra.
  - apply not_0_INR. lia.
Qed.

(** At every lag the correlation is a finite value, at most 1. *)
Lemma lag_correlation_le_1 (offset : nat) :
  exists c, (c <= 1)%R /\ lag_correlation buf offset = Num c.
Proof.
  unfold lag_correlation.
  destruct (lag_sum_finite offset) as [r [Hr Hs]]. rewrite Hs.
  unfold num_of_nat. rewrite num_div_Num by (apply not_0_INR; lia).
  simpl. eexists. split; [|reflexivity].
  assert (0 < INR (length buf))%R by (apply lt_0_INR; lia).
  assert (0 <= r / INR (length buf))%R.
  { apply Rmult_le_pos; [lra|]. left. apply Rinv_0_lt_compat. lra. }
  lra.
Qed.

(** The lag-0 iteration records correlation 1 at [best_offset = 0]. *)
Lemma scan_step_0 :
  scan_step buf 0 (scan_init (length buf)) =
  Continue (mk_scan 0 (Num 1) true
              (<[0%nat := Num 1]> (replicate (length buf) (Num 0)))).
Proof.
  unfold scan_step. rewrite lag_correlation_0. simpl.
  unfold num_gtb. rewrite !num_ltb_lt by lra. reflexivity.
Qed.

(** With correlation 1 held at lag 0, no later lag does better: the next
    iteration leaves through the refinement, [best_offset] still 0. *)
Lemma scan_step_after_0 (offset : nat) (corrs : list num) :
  scan_step buf offset (mk_scan 0 (Num 1) true corrs) =
  Leave (mk_scan 0 (Num 1) true
           (<[offset := lag_correlation buf offset]> corrs)).
Proof.
  unfold scan_step.
  destruct (lag_correlation_le_1 offset) as [c [Hc Hl]]. rewrite Hl.
  simpl. unfold num_gtb.
  rewrite (num_ltb_ge 1 c) by lra. rewrite andb_false_r. reflexivity.
Qed.

Hypothesis buf_two : (2 <= length buf)%nat.

Lemma scan_refines_at_0 :
  scan buf (length buf) 0 (scan_init (length buf)) =
  Refine (mk_scan 0 (Num 1) true
            (<[1%nat := lag_correlation buf 1]>
               (<[0%nat := Num 1]> (replicate (length buf) (Num 0))))).
Proof.
  assert (Hn : exists n, length buf = S (S n)).
  { exists (length buf - 2)%nat. lia. }
  destruct Hn as [n Hn].
  replace (scan buf (length buf)) with (scan buf (S (S n)))
    by (rewrite Hn; reflexivity).
  cbn [scan]. rewrite scan_step_0, scan_step_after_0. reflexivity.
Qed.

End FiniteFrame.

(** ** The noise gate *)


Lemma Rsum_squares_nonneg (xs : list R) : (0 <= Rsum_squares xs)%R.
Proof. induction xs as [|x xs IH]; simpl; [lra | nra]. Qed.

Lemma Rsum_squares_ge (xs : list R) (x : R) :
  In x xs -> (x * x <= Rsum_squares xs)%R.
Proof.
  induction xs as [|y xs IH]; simpl; intros Hin; [contradiction|].
  pose proof (Rsum_squares_nonneg xs).
  destruct Hin as [-> | Hin]; [nra|]. specialize (IH Hin). nra.
Qed.

Lemma sum_squares_fold (xs : list R) (a : R) :
  fold_left (fun acc x => acc + x * x) (map Num xs) (Num a)
  = Num (a + Rsum_squares xs).
Proof.
  revert a. induction xs as [|x xs IH]; intros a; simpl.
  - f_equal. lra.
  - rewrite IH. f_equal. lra.
Qed.

Lemma sum_squares_Num (xs : list R) :
  sum_squares (map Num xs) = Num (Rsum_squares xs).
Proof.
  unfold sum_squares. rewrite sum_squares_fold. f_equal. lra.
Qed.

Lemma rms_Num (xs : list R) :
  xs <> [] ->
  rms (map Num xs) = Num (sqrt (Rsum_squares xs / INR (length xs))).
Proof.
  intros Hne. unfold rms. rewrite sum_squares_Num, length_map.
  unfold num_of_nat.
  assert (Hlen : (0 < INR (length xs))%R).
  { apply lt_0_INR. destruct xs; [contradiction | simpl; lia]. }
  rewrite num_div_Num by lra.
  unfold num_sqrt.
  pose proof (Rsum_squares_nonneg xs) as Hs.
  assert (Hq : (0 <= Rsum_squares xs / INR (length xs))%R).
  { apply Rmult_le_pos; [lra|]. left. apply Rinv_0_lt_compat. lra. }
  unfold Rsign.
  destruct (total_order_T (Rsum_squares xs / INR (length xs)) 0)
    as [[?|?]|?]; try reflexivity. lra.
Qed.

Lemma sqrt_ge_hundredth (y : R) : (0.0001 <= y)%R -> (0.01 <= sqrt y)%R.
Proof.
  intros Hy.
  destruct (Rle_lt_dec 0.01 (sqrt y)) as [H|H]; [exact H|].
  pose proof (sqrt_pos y) as Hp.
  pose proof (sqrt_sqrt y ltac:(lra)) as Hs.
  nra.
Qed.

(** A frame with one sample of square at least [length / 10000] passes the
    gate. *)
Lemma gate_passes (xs : list R) (x : R) :
  In x xs ->
  (0.0001 * INR (length xs) <= x * x)%R ->
  (rms (map Num xs) <? Num 0.01) = false.
Proof.
  intros Hin Hx.
  assert (Hne : xs <> []) by (destruct xs; [contradiction | discriminate]).
  rewrite rms_Num by exact Hne.
  apply num_ltb_ge. apply sqrt_ge_hundredth.
  assert (Hlen : (0 < INR (length xs))%R).
  { apply lt_0_INR. destruct xs; [contradiction | simpl; lia]. }
  pose proof (Rsum_squares_ge xs x Hin) as Hs.
  apply Rmult_le_reg_r with (r := INR (length xs)); [exact Hlen|].
  unfold Rdiv. rewrite Rmult_assoc, Rinv_l by lra. lra.
Qed.

Lemma Forall_finite_map_Num (xs : list R) : Forall is_finite (map Num xs).
Proof. induction xs; constructor; simpl; auto. Qed.

(** ** What [autoCorrelate] returns on a frame that passes the gate *)

Lemma refine_at_0 (best : num) (corrs : list num) (sampleRate : num) :
  refine (mk_scan 0 best true corrs) sampleRate = NaN.
Proof.
  unfold refine, refine_reads. cbn [best_offset correlations fst snd].
  change (arr_get corrs (0 - 1)) with (@None num). cbn [to_number].
  rewrite num_sub_NaN_r, num_div_NaN_l, num_mul_NaN_r, num_add_NaN_r.
  apply num_div_NaN_r.
Qed.

Lemma autoCorrelate_gated (buf : list num) (sampleRate : num) :
  Forall is_finite buf ->
  (2 <= length buf)%nat ->
  (rms buf <? Num 0.01) = false ->
  autoCorrelate buf sampleRate = NaN.
Proof.
  intros Hfin Hlen Hgate. unfold autoCorrelate. rewrite Hgate.
  cbv zeta. rewrite scan_refines_at_0 by (assumption || lia).
  apply refine_at_0.
Qed.

(** [detectPitch] calls the tuner callback only when [freq > -1]. *)
Lemma detectPitch_NaN_silent (buf : list num) (sampleRate : num) (w : world) :
  autoCorrelate buf sampleRate = NaN ->
  pitches (detectPitch buf sampleRate w) = pitches w.
Proof.
  intros HN. unfold detectPitch. rewrite HN.
  destruct (analyser w); reflexivity.
Qed.

(** ** A synthetic sine frame *)


Lemma sine_frame_length (a f sr : R) (n : nat) :
  length (sine_frame a f sr n) = n.
Proof.
  unfold sine_frame, sine_samples. rewrite !length_map. apply length_seq.
Qed.

(** Sample 735 of the 220 Hz sine at 44100 Hz sits at phase [22 PI / 3]. *)
Lemma sine_sample_735 : sine_sample 1 220 44100 735 = (- (sqrt 3 / 2))%R.
Proof.
  unfold sine_sample. rewrite INR_IZR_INZ.
  change (Z.of_nat 735) with 735%Z.
  replace (2 * PI * 220 * 735 / 44100)%R
    with (PI / 3 + PI + 2 * INR 3 * PI)%R by (simpl; field).
  rewrite sin_period, neg_sin, sin_PI3. lra.
Qed.

Lemma sine_220_gate :
  (rms (sine_frame 1 220 44100 2048) <? Num 0.01) = false.
Proof.
  unfold sine_frame.
  apply gate_passes with (x := sine_sample 1 220 44100 735).
  - unfold sine_samples. apply in_map. apply in_seq. lia.
  - unfold sine_samples. rewrite length_map, length_seq.
    rewrite INR_IZR_INZ. change (Z.of_nat 2048) with 2048%Z.
    rewrite sine_sample_735.
    pose proof (sqrt_sqrt 3 ltac:(lra)) as H3. nra.
Qed.

(** ** The note mapper *)


Lemma ln_2_pos : (0 < ln 2)%R.
Proof. pose proof ln_lt_2. lra. Qed.

Lemma num_log_2 : num_log (Num 2) = Num (ln 2).
Proof. unfold num_log. rewrite Rsign_pos by lra. reflexivity. Qed.

Lemma pitch_of_pos (f : R) : (0 < f)%R -> pitch_of (Num f) = Num (Rpitch f).
Proof.
  intros Hf. unfold pitch_of. rewrite num_log_2.
  rewrite num_div_Num by lra.
  assert (Hq : (0 < f / 440)%R) by (apply Rdiv_lt_0_compat; lra).
  unfold num_log. rewrite (Rsign_pos _ Hq).
  pose proof ln_2_pos. rewrite num_div_Num by lra. reflexivity.
Qed.

Lemma pitch_of_neg (f : R) : (f < 0)%R -> pitch_of (Num f) = NaN.
Proof.
  intros Hf. unfold pitch_of. rewrite num_log_2.
  rewrite num_div_Num by lra.
  assert (Hq : (f / 440 < 0)%R).
  { unfold Rdiv. assert (0 < / 440)%R by (apply Rinv_0_lt_compat; lra). nra. }
  unfold num_log. rewrite (Rsign_neg _ Hq). reflexivity.
Qed.

Lemma pitch_of_zero : pitch_of (Num 0) = NegInf.
Proof.
  unfold pitch_of. rewrite num_log_2. rewrite num_div_Num by lra.
  replace (0 / 440)%R with 0%R by (unfold Rdiv; lra).
  unfold num_log. rewrite Rsign_zero.
  unfold num_div. rewrite (Rsign_pos _ ln_2_pos).
  unfold num_mul. rewrite Rsign_pos by lra. reflexivity.
Qed.

(** The distance to the rounded pitch is in [[-1/2, 1/2)]. *)
Lemma Rround_nearest (p : R) :
  (- / 2 <= p - IZR (Rround p) < / 2)%R.
Proof.
  unfold Rround. pose proof (Zfloor_bound (p + / 2)). lra.
Qed.

Lemma Rcents_range (f : R) : (-50 <= Rcents f < 50)%Z.
Proof.
  unfold Rcents. set (p := Rpitch f).
  pose proof (Rround_nearest p) as Hn.
  pose proof (Zfloor_bound ((p - IZR (Rround p)) * 100)) as Hb.
  split.
  - apply Zfloor_lub. lra.
  - apply lt_IZR. lra.
Qed.

Lemma freqToNote_cents_pos (f : R) :
  (0 < f)%R -> cents (freqToNote (Num f)) = Num (IZR (Rcents f)).
Proof.
  intros Hf. unfold freqToNote. cbv zeta. cbn [cents].
  rewrite (pitch_of_pos f Hf). reflexivity.
Qed.

Lemma Rpitch_440 : Rpitch 440 = 69%R.
Proof.
  unfold Rpitch. replace (440 / 440)%R with 1%R by field.
  rewrite ln_1. unfold Rdiv. lra.
Qed.

Lemma num_index_Z (k : Z) :
  (0 <= k)%Z -> num_index (Num (IZR k)) = Some (Z.to_nat k).
Proof.
  intros Hk. unfold num_index. cbv zeta. rewrite ZfloorZ.
  destruct (Req_dec_T (IZR k) (IZR k)) as [_|Hne]; [|contradiction].
  apply Z.leb_le in Hk. rewrite Hk. reflexivity.
Qed.

Lemma freqToNote_440 : freqToNote (Num 440) = mk_note (Some "A"%string) (Num 0).
Proof.
  unfold freqToNote. cbv zeta. rewrite (pitch_of_pos 440) by lra.
  rewrite Rpitch_440. cbn [num_round].
  assert (Hr : Zfloor (69 + / 2) = 69%Z) by (apply Zfloor_eq; lra).
  rewrite Hr. f_equal.
  - unfold num_rem. rewrite Rsign_pos by lra.
    assert (Ht : Rtrunc (69 / 12) = 5%Z).
    { unfold Rtrunc. rewrite Rsign_pos by lra. apply Zfloor_eq. lra. }
    rewrite Ht. replace (69 - 12 * 5)%R with (IZR 9) by lra.
    unfold arr_get_num. rewrite num_index_Z by lia. reflexivity.
  - cbn [num_sub num_neg num_add num_mul num_floor].
    match goal with
    | |- context [Zfloor ?x] => replace x with (IZR 0) by lra
    end.
    rewrite ZfloorZ. reflexivity.
Qed.

Lemma freqToNote_of_NaN_pitch (frequency : num) :
  pitch_of frequency = NaN -> freqToNote frequency = mk_note None NaN.
Proof. intros H. unfold freqToNote. rewrite H. reflexivity. Qed.

Lemma freqToNote_of_NegInf_pitch (frequency : num) :
  pitch_of frequency = NegInf -> freqToNote frequency = mk_note None NaN.
Proof. intros H. unfold freqToNote. rewrite H. reflexivity. Qed.


(** ** The scheduler loop *)

Lemma nextNote_scheduleNote_fields (b : Z) (t now : num) (w : world) :
  let w1 := nextNote (scheduleNote b t now w) in
  nextNoteTime w1 = nextNoteTime w + Num 60 / bpm w
  /\ bpm w1 = bpm w
  /\ isMetronomePlaying w1 = isMetronomePlaying w
  /\ beatCallback w1 = beatCallback w
  /\ timerID w1 = timerID w
  /\ currentBeatInBar w1 = advance (currentBeatInBar w)
  /\ notes w1 = notes w ++ [(b, t)]
  /\ beats w1 = beats w
  /\ frames w1 = frames w
  /\ scheduling_loops w1 = scheduling_loops w.
Proof.
  cbv zeta. repeat split; try reflexivity.
  unfold scheduling_loops. cbn. rewrite List.filter_app, length_app. cbn. lia.
Qed.

Lemma scheduler_loop_unfold (fuel : nat) (now : num) (w : world) :
  scheduler_loop fuel now w =
  if nextNoteTime w <? now + Num 0.1 then
    match fuel with
    | O => None
    | S fuel' =>
        scheduler_loop fuel' now
          (nextNote (scheduleNote (beat_to_play w) (nextNoteTime w) now w))
    end
  else Some w.
Proof. destruct fuel; reflexivity. Qed.

(** What a pass of the loop leaves alone, and the clicks it adds. *)
Lemma scheduler_loop_effect (fuel : nat) (now : num) :
  forall w w', scheduler_loop fuel now w = Some w' ->
  bpm w' = bpm w
  /\ isMetronomePlaying w' = isMetronomePlaying w
  /\ beatCallback w' = beatCallback w
  /\ timerID w' = timerID w
  /\ beats w' = beats w
  /\ frames w' = frames w
  /\ scheduling_loops w' = scheduling_loops w
  /\ exists n, map fst (notes w')
               = map fst (notes w) ++ played (currentBeatInBar w) n
               /\ currentBeatInBar w' = Nat.iter n advance (currentBeatInBar w).
Proof.
  induction fuel as [|fuel IH]; intros w w' H;
    rewrite scheduler_loop_unfold in H;
    destruct (nextNoteTime w <? now + Num 0.1) eqn:Hc; try discriminate.
  - inversion H; subst. repeat (split; [reflexivity|]).
    exists 0%nat. simpl. rewrite app_nil_r. split; reflexivity.
  - apply IH in H.
    pose proof (nextNote_scheduleNote_fields (beat_to_play w) (nextNoteTime w)
                  now w) as F. cbv zeta in F.
    destruct F as (F1 & F2 & F3 & F4 & F5 & F6 & F7 & F8 & F9 & F10).
    destruct H as (H2 & H3 & H4 & H5 & H8 & H9 & H10 & n & Hn & Hc').
    rewrite H2, H3, H4, H5, H8, H9, H10.
    repeat (split; [assumption|]).
    exists (S n). rewrite Hn, F7, F6, map_app. cbn [map fst played].
    rewrite <- app_assoc. split.
    + reflexivity.
    + rewrite Hc', F6. symmetry. apply Nat.iter_succ_r.
  - inversion H; subst. repeat (split; [reflexivity|]).
    exists 0%nat. simpl. rewrite app_nil_r. split; reflexivity.
Qed.

Lemma INR_to_nat_ge (z : Z) : (IZR z <= INR (Z.to_nat z))%R.
Proof.
  destruct (Z_lt_le_dec z 0) as [Hz|Hz].
  - replace (Z.to_nat z) with 0%nat by lia. simpl. apply IZR_lt in Hz. lra.
  - rewrite INR_IZR_INZ, Z2Nat.id by lia. lra.
Qed.

(** With a positive finite tempo, [n] passes of the body are enough as soon
    as [n] beats cover the gap up to the lookahead horizon. *)
Lemma scheduler_loop_enough (b c : R) (n : nat) :
  (0 < b)%R ->
  forall (w : world) (t : R),
  bpm w = Num b ->
  nextNoteTime w = Num t ->
  (c + 0.1 - t < INR n * (60 / b))%R ->
  forall fuel, (n <= fuel)%nat ->
  exists w', scheduler_loop fuel (Num c) w = Some w'
             /\ (nextNoteTime w' <? Num c + Num 0.1) = false.
Proof.
  intros Hb. induction n as [|n IH]; intros w t Hbpm Ht Hgap fuel Hfuel.
  - exists w. rewrite scheduler_loop_unfold, Ht. cbn [num_add].
    simpl in Hgap. rewrite num_ltb_ge by lra. split; reflexivity.
  - rewrite scheduler_loop_unfold, Ht. cbn [num_add].
    destruct (Rlt_dec t (c + 0.1)) as [Hlt|Hge].
    + rewrite num_ltb_lt by exact Hlt.
      destruct fuel as [|fuel]; [lia|].
      pose proof (nextNote_scheduleNote_fields (beat_to_play w) (Num t)
                    (Num c) w) as F. cbv zeta in F.
      destruct F as (F1 & F2 & _).
      rewrite Hbpm, Ht in F1. rewrite num_div_Num in F1 by lra.
      cbn [num_add] in F1.
      apply (IH _ (t + 60 / b)%R); try assumption; try lia.
      rewrite S_INR in Hgap. lra.
    + rewrite num_ltb_ge by lra. exists w. split; [reflexivity|].
      rewrite Ht. cbn [num_add]. apply num_ltb_ge. lra.
Qed.

(** * The claims *)

(** ** Pitch detector *)

(** C1.  The detector does not do what the claim says, on the very input
    the claim names.  For the 2048-sample frame of a full-scale 220 Hz sine
    sampled at 44100 Hz: the frame passes the noise gate; the scan takes lag
    0 (correlation 1) as its best lag, so at lag 1 the refinement reads
    [correlations[-1]] and [autoCorrelate] returns NaN instead of a
    frequency near 220; [NaN > -1] is false, so [detectPitch] hands nothing
    to the tuner callback: no frequency, no note, no cents. *)
Theorem sine_220_no_estimate (w : world) :
  (rms (sine_frame 1 220 44100 2048) <? Num 0.01) = false
  /\ autoCorrelate (sine_frame 1 220 44100 2048) (Num 44100) = NaN
  /\ (autoCorrelate (sine_frame 1 220 44100 2048) (Num 44100) >? Num (-1))
     = false
  /\ pitches (detectPitch (sine_frame 1 220 44100 2048) (Num 44100) w)
     = pitches w.
Proof.
  assert (HN : autoCorrelate (sine_frame 1 220 44100 2048) (Num 44100) = NaN).
  { apply autoCorrelate_gated.
    - apply Forall_finite_map_Num.
    - rewrite sine_frame_length. lia.
    - exact sine_220_gate. }
  split; [exact sine_220_gate|]. split; [exact HN|]. split.
  - rewrite HN. reflexivity.
  - apply detectPitch_NaN_silent. exact HN.
Qed.

(** C9.  The indices read by the refinement are not all within the array.
    On every frame of finite samples, two or more of them, that passes the
    gate: lag 0 has correlation exactly 1 and becomes [best_offset]; the scan
    leaves through the refinement at lag 1 with [best_offset] still 0; so the
    refinement reads the indices -1 and 1 of an array of [bufferLength]
    entries, and the read at -1, below the array, gives [undefined]. *)
Theorem refinement_reads_below_array (buf : list num) (sampleRate : num) :
  Forall is_finite buf ->
  (2 <= length buf)%nat ->
  (rms buf <? Num 0.01) = false ->
  lag_correlation buf 0 = Num 1
  /\ exists s : scan_state,
       scan buf (length buf) 0 (scan_init (length buf)) = Refine s
       /\ autoCorrelate buf sampleRate = refine s sampleRate
       /\ best_offset s = 0%Z
       /\ length (correlations s) = length buf
       /\ refine_reads s = ((-1)%Z, 1%Z)
       /\ ~ (0 <= fst (refine_reads s) < Z.of_nat (length buf))%Z
       /\ arr_get (correlations s) (fst (refine_reads s)) = None.
Proof.
  intros Hfin Hlen Hgate. split.
  - apply lag_correlation_0; [assumption | lia].
  - eexists. split.
    + apply scan_refines_at_0; [assumption | lia | assumption].
    + split.
      * unfold autoCorrelate. rewrite Hgate. cbv zeta.
        rewrite scan_refines_at_0 by (assumption || lia). reflexivity.
      * split; [reflexivity|]. split.
        { cbn [correlations]. rewrite !length_insert. apply length_replicate. }
        split; [reflexivity|]. split; [|reflexivity].
        cbn. lia.
Qed.

(** The frame [0, 1, 0, -1]: one period of a 220 Hz sine sampled at 880 Hz. *)
Lemma refinement_reads_below_array_witness :
  Forall is_finite [Num 0; Num 1; Num 0; Num (-1)]
  /\ (2 <= length [Num 0; Num 1; Num 0; Num (-1)])%nat
  /\ (rms [Num 0; Num 1; Num 0; Num (-1)] <? Num 0.01) = false
  /\ lag_correlation [Num 0; Num 1; Num 0; Num (-1)] 0 = Num 1
  /\ exists s : scan_state,
       scan [Num 0; Num 1; Num 0; Num (-1)] 4 0 (scan_init 4) = Refine s
       /\ autoCorrelate [Num 0; Num 1; Num 0; Num (-1)] (Num 880)
          = refine s (Num 880)
       /\ best_offset s = 0%Z
       /\ length (correlations s) = 4%nat
       /\ refine_reads s = ((-1)%Z, 1%Z)
       /\ ~ (0 <= fst (refine_reads s) < 4)%Z
       /\ arr_get (correlations s) (fst (refine_reads s)) = None.
Proof.
  assert (Hfin : Forall is_finite [Num 0; Num 1; Num 0; Num (-1)]).
  { repeat constructor. }
  assert (Hlen : (2 <= length [Num 0; Num 1; Num 0; Num (-1)])%nat).
  { simpl. lia. }
  assert (Hgate : (rms [Num 0; Num 1; Num 0; Num (-1)] <? Num 0.01) = false).
  { apply (gate_passes [0; 1; 0; -1]%R 1%R).
    - simpl. right. left. reflexivity.
    - simpl. lra. }
  split; [exact Hfin|]. split; [exact Hlen|]. split; [exact Hgate|].
  exact (refinement_reads_below_array [Num 0; Num 1; Num 0; Num (-1)]
           (Num 880) Hfin Hlen Hgate).
Defined.

(** ** Note mapper *)



(** C7, as the code has it.  [freqToNote] has no guard: for a frequency
    that is zero or negative the pitch number is [-Infinity] or NaN, the
    table lookup gives no note ([undefined]) and the cents are NaN. *)
Theorem freqToNote_nonpositive (f : R) :
  (f <= 0)%R ->
  freqToNote (Num f) = mk_note None NaN.
Proof.
  intros Hf. destruct (Rle_lt_or_eq_dec f 0 Hf) as [Hneg | ->].
  - apply freqToNote_of_NaN_pitch. apply pitch_of_neg. exact Hneg.
  - apply freqToNote_of_NegInf_pitch. exact pitch_of_zero.
Qed.

Lemma freqToNote_nonpositive_witness :
  (-5 <= 0)%R /\ freqToNote (Num (-5)) = mk_note None NaN.
Proof.
  split; [lra|]. apply (freqToNote_nonpositive (-5)). lra.
Defined.

(** C7 as stated fails at frequency 0: the cents are NaN, not zero. *)
Lemma freqToNote_zero_cents_NaN :
  cents (freqToNote (Num 0)) = NaN
  /\ ~ (note (freqToNote (Num 0)) = None
        /\ cents (freqToNote (Num 0)) = Num 0).
Proof.
  assert (H : freqToNote (Num 0) = mk_note None NaN).
  { apply freqToNote_of_NegInf_pitch. exact pitch_of_zero. }
  rewrite H. split; [reflexivity|]. intros [_ Hc]. discriminate Hc.
Qed.

(** ** Metronome *)

(** With a negative tempo every pass moves the next click further into the
    past: once entered, the loop uses up any fuel. *)
Lemma scheduler_loop_diverges (b c : R) (fuel : nat) :
  (b < 0)%R ->
  forall (w : world) (t : R),
  bpm w = Num b ->
  nextNoteTime w = Num t ->
  (t < c + 0.1)%R ->
  scheduler_loop fuel (Num c) w = None.
Proof.
  intros Hb. induction fuel as [|fuel IH]; intros w t Hbpm Ht Hlt;
    rewrite scheduler_loop_unfold, Ht; cbn [num_add];
    rewrite num_ltb_lt by exact Hlt; [reflexivity|].
  pose proof (nextNote_scheduleNote_fields (beat_to_play w) (Num t)
                (Num c) w) as F. cbv zeta in F.
  destruct F as (F1 & F2 & _).
  rewrite Hbpm, Ht in F1. rewrite num_div_Num in F1 by lra.
  cbn [num_add] in F1.
  apply (IH _ (t + 60 / b)%R); try assumption.
  assert (60 / b < 0)%R.
  { unfold Rdiv. assert (/ b < 0)%R by (apply Rinv_lt_0_compat; exact Hb).
    nra. }
  lra.
Qed.

(** Called at a finite clock value, [startMetronome] finds the first click
    exactly at the lookahead horizon: its own pass of the loop schedules
    nothing and the polling timeout is armed. *)
Lemma startMetronome_at (fuel : nat) (tempo : num) (onBeat : nat) (c : R)
    (w : world) :
  startMetronome fuel tempo onBeat (Num c) w
  = Some (scheduler_rearm (startMetronome_assign tempo onBeat (Num c) w)).
Proof.
  unfold startMetronome, scheduler. rewrite scheduler_loop_unfold.
  cbn [startMetronome_assign set_metronome nextNoteTime num_add].
  rewrite num_ltb_ge by lra. reflexivity.
Qed.

(** From a cursor inside the bar the beats follow the bar. *)
Lemma played_in_bar (m : nat) :
  forall c : Z, (1 <= c <= 4)%Z ->
  played c m = map (fun j => bar_beat (Z.to_nat (c - 1) + j)) (seq 0 m).
Proof.
  induction m as [|m IH]; intros c Hc; [reflexivity|].
  cbn [played seq map]. f_equal.
  - unfold play, bar_beat. rewrite Nat.add_0_r.
    destruct (Z.eqb_spec c 0) as [H0|_]; [lia|].
    rewrite Nat.mod_small by lia. lia.
  - rewrite <- seq_shift, List.map_map.
    assert (Ha : (1 <= advance c <= 4)%Z).
    { unfold advance. destruct (Z.gtb_spec (c + 1) 4); lia. }
    rewrite (IH _ Ha). apply List.map_ext. intros j. unfold bar_beat.
    f_equal. f_equal. unfold advance.
    destruct (Z.gtb_spec (c + 1) 4) as [Hgt|Hle].
    + assert (c = 4%Z) by lia. subst c.
      change (Z.to_nat (1 - 1)) with 0%nat.
      change (Z.to_nat (4 - 1)) with 3%nat.
      replace (3 + S j)%nat with (j + 1 * 4)%nat by lia.
      rewrite Nat.Div0.mod_add. reflexivity.
    + f_equal. lia.
Qed.

(** After a start the cursor is 0: the first click is beat 1, and so is the
    second; from there on the beats follow the bar. *)
Lemma played_from_0 (n : nat) :
  played 0 (S n) = 1%Z :: map bar_beat (seq 0 n).
Proof.
  cbn [played]. change (play 0) with 1%Z. change (advance 0) with 1%Z.
  f_equal. rewrite played_in_bar by lia. reflexivity.
Qed.

(** *** The order of the clicks, in general *)

Lemma played_app (n m : nat) :
  forall c : Z,
  played c (n + m) = played c n ++ played (Nat.iter n advance c) m.
Proof.
  induction n as [|n IH]; intros c; [reflexivity|].
  cbn [Nat.add played]. rewrite IH, Nat.iter_succ_r. reflexivity.
Qed.

Lemma stopMetronome_click_view (w : world) :
  click_view (stopMetronome w) = click_view w.
Proof.
  unfold stopMetronome. cbv zeta. destruct (truthy _); reflexivity.
Qed.

Lemma detectPitch_click_view (buf : list num) (sampleRate : num) (w : world) :
  click_view (detectPitch buf sampleRate w) = click_view w.
Proof.
  unfold detectPitch. destruct (analyser w); [|reflexivity].
  cbv zeta. destruct (autoCorrelate buf sampleRate >? Num (-1));
    [destruct (tunerCallback w)|]; reflexivity.
Qed.

Lemma startTuner_click_view (callback : nat) (granted : bool)
    (buf : list num) (sampleRate : num) (w : world) :
  click_view (startTuner callback granted buf sampleRate w) = click_view w.
Proof.
  unfold startTuner. cbv zeta. destruct granted; [|reflexivity].
  rewrite detectPitch_click_view. reflexivity.
Qed.

Lemma stopTuner_click_view (w : world) :
  click_view (stopTuner w) = click_view w.
Proof.
  unfold stopTuner. cbv zeta. destruct (truthy _); reflexivity.
Qed.

Lemma scheduler_click_view (fuel : nat) (now : num) (w w' : world) :
  scheduler fuel now w = Some w' ->
  exists n : nat,
    map fst (notes w') = map fst (notes w) ++ played (currentBeatInBar w) n
    /\ currentBeatInBar w' = Nat.iter n advance (currentBeatInBar w).
Proof.
  unfold scheduler. destruct (scheduler_loop fuel now w) as [w1|] eqn:E;
    [|discriminate].
  intros H. inversion H; subst w'. clear H.
  destruct (scheduler_loop_effect fuel now w w1 E)
    as (_ & _ & _ & _ & _ & _ & _ & n & Hn & Hc).
  exists n. unfold scheduler_rearm.
  destruct (isMetronomePlaying w1); split; assumption.
Qed.

(** An event that is not a start adds clicks in the order of the cursor. *)
Lemma step_click_view (fuel : nat) (e : event) (w w' : world) :
  not_a_start e ->
  step fuel e w = Some w' ->
  exists n : nat,
    map fst (notes w') = map fst (notes w) ++ played (currentBeatInBar w) n
    /\ currentBeatInBar w' = Nat.iter n advance (currentBeatInBar w).
Proof.
  assert (Hsame : forall w1 : world, click_view w1 = click_view w ->
            exists n : nat,
              map fst (notes w1)
              = map fst (notes w) ++ played (currentBeatInBar w) n
              /\ currentBeatInBar w1
                 = Nat.iter n advance (currentBeatInBar w)).
  { intros w1 Hv. unfold click_view in Hv. inversion Hv as [[Hn Hc]].
    exists 0%nat. cbn [played Nat.iter]. rewrite app_nil_r.
    split; reflexivity. }
  intros Hns Hstep. destruct e; cbn [step] in Hstep; try contradiction.
  - inversion Hstep; subst. apply Hsame, stopMetronome_click_view.
  - inversion Hstep; subst. apply Hsame. reflexivity.
  - unfold take_timeout in Hstep.
    destruct (find _ (timeouts w)) as [t|]; [|inversion Hstep; subst;
                                               apply Hsame; reflexivity].
    destruct (timeout_task t) as [|b].
    + apply scheduler_click_view in Hstep. exact Hstep.
    + inversion Hstep; subst. apply Hsame. unfold beat_notify. cbn.
      destruct (isMetronomePlaying w); [destruct (beatCallback w)|];
        reflexivity.
  - inversion Hstep; subst. apply Hsame, startTuner_click_view.
  - inversion Hstep; subst. apply Hsame, stopTuner_click_view.
  - destruct (existsb _ _); inversion Hstep; subst; apply Hsame;
      [|reflexivity].
    rewrite detectPitch_click_view. reflexivity.
Qed.

Lemma run_click_view (fuel : nat) (es : list event) :
  Forall not_a_start es ->
  forall w w' : world,
  run fuel es w = Some w' ->
  exists n : nat,
    map fst (notes w') = map fst (notes w) ++ played (currentBeatInBar w) n
    /\ currentBeatInBar w' = Nat.iter n advance (currentBeatInBar w).
Proof.
  induction es as [|e es IH]; intros Hes w w' Hrun.
  - inversion Hrun; subst. exists 0%nat. cbn [played Nat.iter].
    rewrite app_nil_r. split; reflexivity.
  - cbn [run] in Hrun. destruct (step fuel e w) as [w1|] eqn:E;
      [|discriminate].
    apply Forall_cons in Hes. destruct Hes as [He Hes].
    destruct (step_click_view fuel e w w1 He E) as (n & Hn & Hc).
    destruct (IH Hes w1 w' Hrun) as (m & Hm & Hc').
    exists (n + m)%nat. split.
    + rewrite Hm, Hn, Hc, played_app, <- app_assoc. reflexivity.
    + rewrite Hc', Hc, (Nat.add_comm n m). symmetry. apply Nat.iter_add.
Qed.

(** From a start on, whatever the tempo, the clock and the events that
    follow (no other start among them), the clicks scheduled carry the beats
    [played 0 k]: 1 first, then 1, 2, 3, 4, 1, 2, 3, 4, ... *)
Lemma clicks_after_start (fuel : nat) (tempo : num) (onBeat : nat) (c : R)
    (es : list event) (w w' : world) :
  Forall not_a_start es ->
  run fuel (EStartMetronome tempo onBeat (Num c) :: es) w = Some w' ->
  exists k : nat, map fst (notes w') = map fst (notes w) ++ played 0 k.
Proof.
  intros Hes Hrun. cbn [run step] in Hrun.
  rewrite startMetronome_at in Hrun.
  destruct (run_click_view fuel es Hes _ w' Hrun) as (k & Hk & _).
  exists k. exact Hk.
Qed.

(** Evaluation of a run on concrete clock values: unfold, then settle each
    comparison and division of reals. *)
Ltac num_settle :=
  repeat first
    [ rewrite num_ltb_lt by lra
    | rewrite num_ltb_ge by lra
    | rewrite num_div_Num by lra ].

(** A step of a run leaves a world built from setters; it is brought to a
    literal record before the next step looks at it. *)
Ltac world_norm :=
  cbv [beat_notify clearTimeout cancelAnimationFrame requestAnimationFrame
       scheduler_rearm nextNote scheduleNote
       startMetronome_assign stopMetronome updateBPM truthy
       set_metronome set_tuner emit_note emit_beat emit_pitch setTimeout
       world_init beat_to_play num_max
       nextNoteTime timerID isMetronomePlaying bpm beatCallback
       currentBeatInBar analyser microphoneStream tunerFrameId tunerCallback
       sourceNode timeouts frames next_handle notes beats pitches
       timeout_id timeout_delay timeout_task fst snd];
  simpl; num_settle; simpl.

Ltac run_eval :=
  repeat (progress (unfold scheduler, take_timeout;
                    try rewrite scheduler_loop_unfold;
                    world_norm)).

(** C2.  The beats delivered after a start are not [1, 2, 3, 4, ...].
    Tempo 120 started at clock 0: the pass of the scheduler at 0.025 s
    schedules the click of 0.1 s as beat 1 (the cursor is 0) and moves the
    cursor to 1; the pass at 0.525 s schedules the click of 0.6 s as beat 1
    again.  With both notifications fired, [onBeat] has received 1 and 1. *)
Theorem first_beat_delivered_twice :
  option_map beats
    (run 1 [EStartMetronome (Num 120) 7 (Num 0);
            ETimeout 1 (Num 0.025);
            ETimeout 2 (Num 0.1);
            ETimeout 3 (Num 0.525);
            ETimeout 4 (Num 0.6)]
         world_init)
  = Some [1%Z; 1%Z].
Proof.
  cbn [run step]. rewrite startMetronome_at.
  run_eval. reflexivity.
Qed.



(** C5, as the code has it.  [updateBPM] and [startMetronome] store the
    tempo they are given, whatever it is: nothing is rejected, nothing is
    clamped, and with the tempo stored [startMetronome] goes on to arm the
    polling timeout. *)
Theorem tempo_stored_unchecked (tempo : num) (w : world) :
  bpm (updateBPM tempo w) = tempo
  /\ forall (fuel onBeat : nat) (c : R),
       exists w', startMetronome fuel tempo onBeat (Num c) w = Some w'
                  /\ bpm w' = tempo
                  /\ isMetronomePlaying w' = true
                  /\ scheduling_loops w' = S (scheduling_loops w).
Proof.
  split; [reflexivity|]. intros fuel onBeat c.
  eexists. split; [apply startMetronome_at|].
  split; [reflexivity|]. split; [reflexivity|].
  unfold scheduling_loops. cbn.
  rewrite List.filter_app, length_app. cbn. lia.
Qed.

(** C5 as stated fails at tempo 0: it is stored, scheduling starts, and the
    stored tempo is not strictly positive. *)
Lemma tempo_zero_accepted :
  exists w,
    startMetronome 0 (Num 0) 7 (Num 0) world_init = Some w
    /\ bpm w = Num 0
    /\ scheduling_loops w = 1%nat
    /\ ~ strictly_positive (bpm w).
Proof.
  eexists. split; [apply startMetronome_at|].
  split; [reflexivity|]. split; [reflexivity|].
  unfold strictly_positive. cbn [bpm scheduler_rearm startMetronome_assign
    set_metronome isMetronomePlaying setTimeout].
  rewrite num_ltb_ge by lra. discriminate.
Qed.



(** What a granted [startTuner] does to the host: one animation frame more,
    none taken away. *)
Lemma startTuner_granted_host (callback : nat) (buf : list num)
    (sampleRate : num) (w : world) :
  frames (startTuner callback true buf sampleRate w)
  = frames w ++ [next_handle w]
  /\ next_handle (startTuner callback true buf sampleRate w)
     = S (next_handle w).
Proof.
  unfold startTuner, detectPitch. cbn.
  destruct (autoCorrelate buf sampleRate >? Num (-1)); split; reflexivity.
Qed.



(** ** Telemetry lines *)

Example parseFloat_440 :
  App.parseFloat "440.0" = Num (IZR 4400 / IZR 10).
Proof. reflexivity. Qed.

Example parseFloat_exponent :
  App.parseFloat " -1.5e3x" = Num (IZR (-15 * 100)).
Proof. reflexivity. Qed.

Example parseFloat_lone_dot : App.parseFloat "." = NaN.
Proof. reflexivity. Qed.

Example parseFloat_trailing_dot : App.parseFloat "7." = Num (IZR 7).
Proof. reflexivity. Qed.

Example parseFloat_leading_dot :
  App.parseFloat ".5" = Num (IZR 5 / IZR 10).
Proof. reflexivity. Qed.

Example parseFloat_0 : App.parseFloat "0" = Num 0.
Proof. reflexivity. Qed.

Example parseInt_0 : App.parseInt "0" = Num 0.
Proof. reflexivity. Qed.

Example parseInt_hex : App.parseInt "0x1f" = Num (IZR 31).
Proof. reflexivity. Qed.

Example parseInt_prefix : App.parseInt "-12px" = Num (IZR (-12)).
Proof. reflexivity. Qed.

Example parseInt_no_digits : App.parseInt "A" = NaN.
Proof. reflexivity. Qed.

Example split_empty_part :
  App.split "|" "a||b" = ["a"; ""; "b"]%string.
Proof. reflexivity. Qed.

Example trim_both_ends :
  App.trim (String " " (String (ascii_of_nat 10) "a b  ")) = "a b"%string.
Proof. reflexivity. Qed.

Example telemetry_beat :
  App.onDataReceived "BEAT:3" = App.SetCurrentBeat (Num (IZR 3)).
Proof. reflexivity. Qed.

Example telemetry_full_line :
  App.onDataReceived "FREQ:440.0|NOTE:A|CENTS:0"
  = App.SetTunerData
      (App.mk_TunerData (Num (IZR 4400 / IZR 10)) "A" (Num 0) true).
Proof. reflexivity. Qed.

Lemma find_head_filter {A : Type} (P : A -> bool) (l : list A) :
  find P l = hd_error (List.filter P l).
Proof.
  induction l as [|x l IH]; [reflexivity|].
  simpl. destruct (P x); [reflexivity | exact IH].
Qed.

(** A tag carried by at most one part is found whatever the order of the
    parts. *)
Lemma find_once_perm {A : Type} (P : A -> bool) (l l' : list A) :
  Permutation l l' ->
  (length (List.filter P l) <= 1)%nat ->
  find P l = find P l'.
Proof.
  intros Hp Hlen. rewrite !find_head_filter.
  assert (Hf : Permutation (List.filter P l) (List.filter P l')).
  { clear Hlen. induction Hp as [| x l1 l2 _ IH | x y l1 | l1 l2 l3 _ IH1 _ IH2].
    - constructor.
    - simpl. destruct (P x); [constructor|]; exact IH.
    - simpl. destruct (P x), (P y); try reflexivity. constructor.
    - etransitivity; eassumption. }
  destruct (List.filter P l) as [|a [|b t]] eqn:E.
  - apply Permutation_nil in Hf. rewrite Hf. reflexivity.
  - apply Permutation_length_1_inv in Hf. rewrite Hf. reflexivity.
  - simpl in Hlen. lia.
Qed.

Lemma field_once_perm (tag : string) (parts parts' : list string) :
  Permutation parts parts' ->
  App.once tag parts ->
  App.field tag parts = App.field tag parts'.
Proof.
  intros Hp Ho. unfold App.field.
  rewrite (find_once_perm _ parts parts' Hp Ho). reflexivity.
Qed.

Lemma tuner_of_parts_perm (parts parts' : list string) :
  Permutation parts parts' ->
  App.tags_once parts ->
  App.tuner_of_parts parts = App.tuner_of_parts parts'.
Proof.
  intros Hp (Hf & Hn & Hc). unfold App.tuner_of_parts.
  rewrite (field_once_perm _ _ _ Hp Hf), (field_once_perm _ _ _ Hp Hn),
    (field_once_perm _ _ _ Hp Hc). reflexivity.
Qed.

Lemma field_absent (tag : string) (parts : list string) :
  App.absent tag parts -> App.field tag parts = None.
Proof. unfold App.absent, App.field. intros ->. reflexivity. Qed.

(** A line cannot begin with both tags. *)
Lemma freq_line_not_beat (data : string) :
  App.startsWith data "FREQ:" = true -> App.startsWith data "BEAT:" = false.
Proof.
  unfold App.startsWith. destruct data as [|c data]; [discriminate|].
  cbn [String.prefix]. destruct (ascii_dec "F" c) as [<-|]; [|discriminate].
  intros _. reflexivity.
Qed.




(** * Further properties of the code *)

(** ** The detector on the frames it can be handed *)

Lemma sqrt_lt_hundredth (y : R) :
  (0 <= y < 0.0001)%R -> (sqrt y < 0.01)%R.
Proof.
  intros [H0 Hy].
  destruct (Rlt_le_dec (sqrt y) 0.01) as [H|H]; [exact H|].
  pose proof (sqrt_sqrt y H0) as Hs. nra.
Qed.

(** A frame whose mean square is below [0.01 ^ 2] is stopped by the gate. *)
Lemma gate_stops (xs : list R) :
  xs <> [] ->
  (Rsum_squares xs < 0.0001 * INR (length xs))%R ->
  (rms (map Num xs) <? Num 0.01) = true.
Proof.
  intros Hne Hs. rewrite rms_Num by exact Hne.
  apply num_ltb_lt. apply sqrt_lt_hundredth.
  assert (Hlen : (0 < INR (length xs))%R).
  { apply lt_0_INR. destruct xs; [contradiction | simpl; lia]. }
  pose proof (Rsum_squares_nonneg xs) as H0.
  split.
  - apply Rmult_le_pos; [lra|]. left. apply Rinv_0_lt_compat. lra.
  - apply Rmult_lt_reg_r with (r := INR (length xs)); [exact Hlen|].
    unfold Rdiv. rewrite Rmult_assoc, Rinv_l by lra. lra.
Qed.

Lemma autoCorrelate_empty (sampleRate : num) :
  autoCorrelate [] sampleRate = Num (-1).
Proof.
  unfold autoCorrelate, rms, sum_squares, num_of_nat.
  cbn [fold_left length INR].
  unfold num_div. rewrite Rsign_zero. cbn [inf_of_sign num_sqrt].
  unfold num_ltb at 1. cbv zeta. cbn [scan scan_init best_correlation].
  unfold num_gtb. rewrite num_ltb_ge by lra. reflexivity.
Qed.

(** No callback without [freq > -1]. *)
Lemma detectPitch_silent (buf : list num) (sampleRate : num) (w : world) :
  (autoCorrelate buf sampleRate >? Num (-1)) = false ->
  pitches (detectPitch buf sampleRate w) = pitches w.
Proof.
  intros H. unfold detectPitch. rewrite H.
  destruct (analyser w); reflexivity.
Qed.

(** With an analyser in place [detectPitch] asks for the next frame,
    whatever it found in this one. *)
Lemma detectPitch_rearms (buf : list num) (sampleRate : num) (w : world) :
  analyser w = true ->
  frames (detectPitch buf sampleRate w) = frames w ++ [next_handle w]
  /\ tunerFrameId (detectPitch buf sampleRate w) = Some (next_handle w)
  /\ next_handle (detectPitch buf sampleRate w) = S (next_handle w)
  /\ timeouts (detectPitch buf sampleRate w) = timeouts w
  /\ analyser (detectPitch buf sampleRate w) = true.
Proof.
  intros Ha. unfold detectPitch. rewrite Ha. cbv zeta.
  destruct (autoCorrelate buf sampleRate >? Num (-1));
    [destruct (tunerCallback w)|]; cbn; rewrite ?Ha; repeat split.
Qed.

(** X1.  A quiet frame gives no pitch.  When the mean square of the samples
    is below the square of the gate (in particular on a silent frame),
    [autoCorrelate] returns the sentinel -1 and [detectPitch] calls the tuner
    callback with nothing; the empty frame gives -1 as well, although its RMS
    is NaN and the gate lets it through. *)
Theorem quiet_frame_no_pitch (xs : list R) (sampleRate : num) (w : world) :
  xs <> [] ->
  (Rsum_squares xs < 0.0001 * INR (length xs))%R ->
  autoCorrelate (map Num xs) sampleRate = Num (-1)
  /\ pitches (detectPitch (map Num xs) sampleRate w) = pitches w
  /\ (rms [] <? Num 0.01) = false
  /\ autoCorrelate [] sampleRate = Num (-1).
Proof.
  intros Hne Hs.
  assert (Ha : autoCorrelate (map Num xs) sampleRate = Num (-1)).
  { unfold autoCorrelate. rewrite (gate_stops xs Hne Hs). reflexivity. }
  split; [exact Ha|]. split.
  - apply detectPitch_silent. rewrite Ha. unfold num_gtb.
    apply num_ltb_ge. lra.
  - split; [|apply autoCorrelate_empty].
    unfold rms, sum_squares, num_of_nat. cbn [fold_left length INR].
    unfold num_div. rewrite Rsign_zero. reflexivity.
Qed.

Lemma quiet_frame_no_pitch_witness :
  [0; 0; 0; 0]%R <> []
  /\ (Rsum_squares [0; 0; 0; 0] < 0.0001 * INR (length [0; 0; 0; 0]%R))%R
  /\ autoCorrelate (map Num [0; 0; 0; 0]%R) (Num 44100) = Num (-1)
  /\ pitches (detectPitch (map Num [0; 0; 0; 0]%R) (Num 44100) world_init)
     = pitches world_init
  /\ (rms [] <? Num 0.01) = false
  /\ autoCorrelate [] (Num 44100) = Num (-1).
Proof.
  assert (H1 : [0; 0; 0; 0]%R <> []) by discriminate.
  assert (H2 : (Rsum_squares [0; 0; 0; 0]
                < 0.0001 * INR (length [0; 0; 0; 0]%R))%R).
  { simpl. lra. }
  split; [exact H1|]. split; [exact H2|].
  exact (quiet_frame_no_pitch [0; 0; 0; 0]%R (Num 44100) world_init H1 H2).
Defined.

(** What [autoCorrelate] can return on a frame of finite samples that is not
    a single sample: the sentinel or NaN. *)
Lemma autoCorrelate_finite_frame (buf : list num) (sampleRate : num) :
  Forall is_finite buf ->
  length buf <> 1%nat ->
  autoCorrelate buf sampleRate = Num (-1)
  \/ autoCorrelate buf sampleRate = NaN.
Proof.
  intros Hfin Hlen. destruct buf as [|a [|b buf]].
  - left. apply autoCorrelate_empty.
  - simpl in Hlen. contradiction.
  - destruct (rms (a :: b :: buf) <? Num 0.01) eqn:Hg.
    + left. unfold autoCorrelate. rewrite Hg. reflexivity.
    + right. apply autoCorrelate_gated; [exact Hfin | simpl; lia | exact Hg].
Qed.

(** X2.  The tuner never reports.  On every frame of finite samples other
    than a single sample (the analyser hands over 2048 of them), whatever
    the sample rate, [autoCorrelate] returns -1 or NaN, so [detectPitch]
    never calls the tuner callback; with an analyser in place it still asks
    for the next frame. *)
Theorem tuner_never_reports (buf : list num) (sampleRate : num) (w : world) :
  Forall is_finite buf ->
  length buf <> 1%nat ->
  (autoCorrelate buf sampleRate >? Num (-1)) = false
  /\ pitches (detectPitch buf sampleRate w) = pitches w
  /\ (analyser w = true ->
      frames (detectPitch buf sampleRate w) = frames w ++ [next_handle w]).
Proof.
  intros Hfin Hlen.
  assert (Hq : (autoCorrelate buf sampleRate >? Num (-1)) = false).
  { destruct (autoCorrelate_finite_frame buf sampleRate Hfin Hlen) as [-> | ->].
    - unfold num_gtb. apply num_ltb_ge. lra.
    - reflexivity. }
  split; [exact Hq|]. split.
  - apply detectPitch_silent. exact Hq.
  - intros Ha. apply (detectPitch_rearms buf sampleRate w Ha).
Qed.

Lemma tuner_never_reports_witness :
  Forall is_finite (sine_frame 1 220 44100 2048)
  /\ length (sine_frame 1 220 44100 2048) <> 1%nat
  /\ (autoCorrelate (sine_frame 1 220 44100 2048) (Num 48000) >? Num (-1))
     = false
  /\ pitches (detectPitch (sine_frame 1 220 44100 2048) (Num 48000) world_init)
     = pitches world_init
  /\ (analyser world_init = true ->
      frames (detectPitch (sine_frame 1 220 44100 2048) (Num 48000) world_init)
      = frames world_init ++ [next_handle world_init]).
Proof.
  assert (H1 : Forall is_finite (sine_frame 1 220 44100 2048)).
  { apply Forall_finite_map_Num. }
  assert (H2 : length (sine_frame 1 220 44100 2048) <> 1%nat).
  { rewrite sine_frame_length. lia. }
  split; [exact H1|]. split; [exact H2|].
  exact (tuner_never_reports (sine_frame 1 220 44100 2048) (Num 48000)
           world_init H1 H2).
Defined.

Lemma PosInf_div_pos (y : R) : (0 < y)%R -> PosInf / Num y = PosInf.
Proof. intros Hy. unfold num_div. rewrite (Rsign_pos y Hy). reflexivity. Qed.

Lemma pitch_of_PosInf : pitch_of PosInf = PosInf.
Proof.
  unfold pitch_of. rewrite num_log_2, PosInf_div_pos by lra.
  cbn [num_log]. rewrite (PosInf_div_pos _ ln_2_pos).
  unfold num_mul. rewrite (Rsign_pos 12) by lra. reflexivity.
Qed.

Lemma freqToNote_PosInf : freqToNote PosInf = mk_note None NaN.
Proof. unfold freqToNote. rewrite pitch_of_PosInf. reflexivity. Qed.

(** X3.  The frame of one sample.  When the sample passes the gate the scan
    visits lag 0 only and ends with [best_offset = 0]; [autoCorrelate]
    returns [sampleRate / 0], Infinity for a positive sample rate, and
    [detectPitch] calls the tuner callback with that frequency, no note and
    NaN cents. *)
Theorem single_sample_reports_infinity (x sr : R) (w : world) :
  (0.01 <= Rabs x)%R ->
  (0 < sr)%R ->
  analyser w = true ->
  tunerCallback w <> None ->
  autoCorrelate [Num x] (Num sr) = PosInf
  /\ pitches (detectPitch [Num x] (Num sr) w)
     = pitches w ++ [(PosInf, mk_note None NaN)].
Proof.
  intros Hx Hsr Ha Hcb.
  assert (HA : autoCorrelate [Num x] (Num sr) = PosInf).
  { unfold autoCorrelate.
    change (rms [Num x]) with (rms (map Num [x])).
    rewrite (gate_passes [x] x).
    - cbv zeta. cbn [length scan].
      change (scan_init 1) with (scan_init (length [Num x])).
      rewrite (scan_step_0 [Num x]) by (repeat constructor).
      cbn [best_correlation best_offset]. unfold num_gtb.
      rewrite num_ltb_lt by lra.
      unfold num_of_Z, num_div. rewrite Rsign_zero, (Rsign_pos sr Hsr).
      reflexivity.
    - left. reflexivity.
    - simpl. unfold Rabs in Hx. destruct (Rcase_abs x); nra. }
  split; [exact HA|].
  unfold detectPitch. rewrite Ha, HA, freqToNote_PosInf. cbv zeta.
  change (PosInf >? Num (-1)) with true. cbv iota.
  destruct (tunerCallback w); [reflexivity | contradiction].
Qed.

Lemma single_sample_reports_infinity_witness :
  (0.01 <= Rabs 1)%R
  /\ (0 < 44100)%R
  /\ analyser (set_tuner true true None (Some 7%nat) true world_init) = true
  /\ tunerCallback (set_tuner true true None (Some 7%nat) true world_init)
     <> None
  /\ autoCorrelate [Num 1] (Num 44100) = PosInf
  /\ pitches (detectPitch [Num 1] (Num 44100)
                (set_tuner true true None (Some 7%nat) true world_init))
     = pitches (set_tuner true true None (Some 7%nat) true world_init)
       ++ [(PosInf, mk_note None NaN)].
Proof.
  assert (H1 : (0.01 <= Rabs 1)%R) by (rewrite Rabs_R1; lra).
  assert (H2 : (0 < 44100)%R) by lra.
  split; [exact H1|]. split; [exact H2|]. split; [reflexivity|].
  split; [discriminate|].
  apply (single_sample_reports_infinity 1 44100
           (set_tuner true true None (Some 7%nat) true world_init) H1 H2
           eq_refl).
  discriminate.
Defined.

(** ** The note mapper on the whole positive axis *)

(** The quotient of an integer by 12, truncated towards zero, as [%]
    computes it. *)
Lemma Rtrunc_twelfth (r : Z) : Rtrunc (IZR r / 12) = Z.quot r 12.
Proof.
  assert (Hpos : forall a : Z, (0 <= a)%Z -> Zfloor (IZR a / 12) = (a / 12)%Z).
  { intros a Ha. apply Zfloor_eq.
    pose proof (Z.div_mod a 12 ltac:(lia)) as Hdm.
    pose proof (Z.mod_pos_bound a 12 ltac:(lia)) as Hm.
    assert (Hr : IZR a = (12 * IZR (a / 12) + IZR (a mod 12))%R).
    { rewrite Hdm at 1. rewrite plus_IZR, mult_IZR. reflexivity. }
    destruct Hm as [Hm0 Hm12]. apply IZR_le in Hm0. apply IZR_lt in Hm12.
    lra. }
  unfold Rtrunc. destruct (Z_lt_le_dec r 0) as [Hneg | Hnn].
  - assert (Hq : (IZR r / 12 < 0)%R) by (apply IZR_lt in Hneg; lra).
    rewrite (Rsign_neg _ Hq).
    replace (- (IZR r / 12))%R with (IZR (- r) / 12)%R
      by (rewrite opp_IZR; lra).
    rewrite Hpos by lia.
    rewrite <- (Z.opp_involutive r) at 2. rewrite Z.quot_opp_l by lia.
    rewrite Z.quot_div_nonneg by lia. reflexivity.
  - assert (Hq : (0 <= IZR r / 12)%R) by (apply IZR_le in Hnn; lra).
    rewrite Z.quot_div_nonneg by lia.
    unfold Rsign. destruct (total_order_T (IZR r / 12) 0) as [[?|?]|?];
      try (apply Hpos; exact Hnn). lra.
Qed.

(** [%] on an integer pitch is the integer remainder, of the sign of the
    pitch. *)
Lemma num_rem_twelve (r : Z) :
  num_rem (Num (IZR r)) (Num 12) = Num (IZR (Z.rem r 12)).
Proof.
  unfold num_rem. rewrite (Rsign_pos 12) by lra. rewrite Rtrunc_twelfth.
  f_equal. pose proof (Z.quot_rem' r 12) as H.
  assert (Hz : Z.rem r 12 = (r - 12 * Z.quot r 12)%Z) by lia.
  rewrite Hz, minus_IZR, mult_IZR. reflexivity.
Qed.

Lemma freqToNote_note_pos (f : R) :
  (0 < f)%R ->
  note (freqToNote (Num f))
  = arr_get_num noteStrings (Num (IZR (Z.rem (Rround (Rpitch f)) 12))).
Proof.
  intros Hf. unfold freqToNote. cbv zeta. cbn [note].
  rewrite (pitch_of_pos f Hf). cbn [num_round].
  change (Zfloor (Rpitch f + / 2)) with (Rround (Rpitch f)).
  rewrite num_rem_twelve. reflexivity.
Qed.

Lemma num_index_negative (k : Z) : (k < 0)%Z -> num_index (Num (IZR k)) = None.
Proof.
  intros Hk. unfold num_index. cbv zeta. rewrite ZfloorZ.
  destruct (Req_dec_T (IZR k) (IZR k)) as [_|Hne]; [|reflexivity].
  destruct (Z.leb_spec 0 k); [lia | reflexivity].
Qed.



(** One octave up the pitch number is 12 more. *)
Lemma Rpitch_double (f : R) : (0 < f)%R -> Rpitch (2 * f) = (Rpitch f + 12)%R.
Proof.
  intros Hf. unfold Rpitch.
  replace (2 * f / 440)%R with (2 * (f / 440))%R by (unfold Rdiv; lra).
  assert (Hq : (0 < f / 440)%R) by (apply Rdiv_lt_0_compat; lra).
  rewrite ln_mult by lra. pose proof ln_2_pos. field. lra.
Qed.

Lemma Rround_plus_12 (p : R) : Rround (p + 12) = (Rround p + 12)%Z.
Proof.
  unfold Rround. replace (p + 12 + / 2)%R with (p + / 2 + IZR 12)%R by lra.
  apply Zfloor_addz.
Qed.

Lemma Rcents_double (f : R) : (0 < f)%R -> Rcents (2 * f) = Rcents f.
Proof.
  intros Hf. unfold Rcents. rewrite (Rpitch_double f Hf), Rround_plus_12.
  f_equal. rewrite plus_IZR. lra.
Qed.



Example low_A_has_no_note :
  freqToNote (Num (440 / 64)) = mk_note None (Num 0).
Proof.
  assert (Hf : (0 < 440 / 64)%R) by lra.
  assert (Hp : Rpitch (440 / 64) = IZR (-3)).
  { unfold Rpitch. replace (440 / 64 / 440)%R with (/ 2 ^ 6)%R by (simpl; field).
    rewrite ln_Rinv by (apply pow_lt; lra). rewrite ln_pow by lra.
    pose proof ln_2_pos. simpl INR. field. lra. }
  assert (Hr : Rround (IZR (-3)) = (-3)%Z).
  { unfold Rround. apply Zfloor_eq. lra. }
  pose proof (freqToNote_note_pos _ Hf) as Hn.
  pose proof (freqToNote_cents_pos _ Hf) as Hc.
  unfold Rcents in Hc. rewrite Hp, Hr in Hn, Hc.
  replace ((IZR (-3) - IZR (-3)) * 100)%R with (IZR 0) in Hc by lra.
  rewrite ZfloorZ in Hc.
  change (Z.rem (-3) 12) with (-3)%Z in Hn.
  unfold arr_get_num in Hn. rewrite num_index_negative in Hn by lia.
  destruct (freqToNote (Num (440 / 64))). cbn in Hn, Hc. subst. reflexivity.
Qed.

(** ** A pass of the scheduler *)

Lemma click_time_0 (t b : R) : click_time t b 0 = t.
Proof. unfold click_time. simpl. lra. Qed.

Lemma click_time_S (t b : R) (k : nat) :
  click_time (t + 60 / b) b k = click_time t b (S k).
Proof. unfold click_time. rewrite S_INR. lra. Qed.

(** The clicks of a pass, tempo [b], first click due at [t], clock [c]. *)
Lemma scheduler_loop_clicks (b c : R) (fuel : nat) :
  (0 < b)%R ->
  forall (w w' : world) (t : R),
  bpm w = Num b ->
  nextNoteTime w = Num t ->
  scheduler_loop fuel (Num c) w = Some w' ->
  exists n : nat,
    map snd (notes w')
    = map snd (notes w) ++ map (fun k => Num (click_time t b k)) (seq 0 n)
    /\ nextNoteTime w' = Num (click_time t b n)
    /\ (c + 0.1 <= click_time t b n)%R
    /\ (forall k, (k < n)%nat -> (click_time t b k < c + 0.1)%R)
    /\ length (timeouts w') = (length (timeouts w) + n)%nat.
Proof.
  intros Hb. induction fuel as [|fuel IH]; intros w w' t Hbpm Ht Hrun;
    rewrite scheduler_loop_unfold, Ht in Hrun; cbn [num_add] in Hrun;
    destruct (Rlt_dec t (c + 0.1)) as [Hlt|Hge].
  - rewrite num_ltb_lt in Hrun by exact Hlt. discriminate.
  - rewrite num_ltb_ge in Hrun by lra. inversion Hrun; subst w'.
    exists 0%nat. cbn [seq map]. rewrite app_nil_r, click_time_0, Nat.add_0_r.
    repeat (split; [first [reflexivity | assumption | lra]|]).
    split; [intros k Hk; lia | reflexivity].
  - rewrite num_ltb_lt in Hrun by exact Hlt.
    pose proof (nextNote_scheduleNote_fields (beat_to_play w) (Num t)
                  (Num c) w) as F. cbv zeta in F.
    destruct F as (F1 & F2 & _ & _ & _ & _ & F7 & _).
    rewrite Hbpm, Ht in F1. rewrite num_div_Num in F1 by lra.
    cbn [num_add] in F1. rewrite Hbpm in F2.
    destruct (IH _ w' (t + 60 / b)%R F2 F1 Hrun)
      as (n & Hn & Hnext & Hend & Hin & Hlen).
    exists (S n). rewrite Hn, F7, map_app. cbn [map snd seq].
    rewrite <- app_assoc. cbn [app]. rewrite click_time_0.
    rewrite <- seq_shift, List.map_map.
    split.
    { f_equal. f_equal. apply List.map_ext. intros k.
      rewrite click_time_S. reflexivity. }
    rewrite <- click_time_S. split; [exact Hnext|]. split; [exact Hend|].
    split.
    { intros [|k] Hk; [rewrite click_time_0; exact Hlt|].
      rewrite <- click_time_S. apply Hin. lia. }
    rewrite Hlen. cbn. rewrite length_app. cbn. lia.
  - rewrite num_ltb_ge in Hrun by lra. inversion Hrun; subst w'.
    exists 0%nat. cbn [seq map]. rewrite app_nil_r, click_time_0, Nat.add_0_r.
    repeat (split; [first [reflexivity | assumption | lra]|]).
    split; [intros k Hk; lia | reflexivity].
Qed.



Lemma num_ltb_PosInf_l (a : num) : (PosInf <? a) = false.
Proof. destruct a; reflexivity. Qed.

Lemma num_ltb_irrefl (a : num) : (a <? a) = false.
Proof. destruct a; try reflexivity. apply num_ltb_ge. lra. Qed.

(** X7.  Tempo 0 silences the metronome for good.  With the tempo at 0 the
    beat lasts [60 / 0], Infinity: the pass that finds a click due schedules
    that one click and leaves [nextNoteTime] at Infinity.  From then on no
    pass schedules anything, at any clock value and whatever tempo
    [updateBPM] sets afterwards. *)
Theorem tempo_zero_stalls (c t : R) (fuel : nat) (w : world) :
  bpm w = Num 0 ->
  nextNoteTime w = Num t ->
  (t < c + 0.1)%R ->
  exists w' : world,
    scheduler_loop (S fuel) (Num c) w = Some w'
    /\ notes w' = notes w ++ [(beat_to_play w, Num t)]
    /\ nextNoteTime w' = PosInf
    /\ forall (tempo now : num) (fuel' : nat),
         scheduler_loop fuel' now (updateBPM tempo w')
         = Some (updateBPM tempo w').
Proof.
  intros Hbpm Ht Hlt.
  pose proof (nextNote_scheduleNote_fields (beat_to_play w) (Num t)
                (Num c) w) as F. cbv zeta in F.
  destruct F as (F1 & _ & _ & _ & _ & _ & F7 & _).
  rewrite Hbpm, Ht in F1.
  assert (Hinf : Num 60 / Num 0 = PosInf).
  { unfold num_div. rewrite Rsign_zero, (Rsign_pos 60) by lra. reflexivity. }
  rewrite Hinf in F1. cbn [num_add] in F1.
  exists (nextNote (scheduleNote (beat_to_play w) (Num t) (Num c) w)).
  split.
  - rewrite scheduler_loop_unfold, Ht. cbn [num_add].
    rewrite num_ltb_lt by exact Hlt.
    rewrite scheduler_loop_unfold, F1, num_ltb_PosInf_l. reflexivity.
  - split; [exact F7|]. split; [exact F1|].
    intros tempo now fuel'. rewrite scheduler_loop_unfold.
    change (nextNoteTime (updateBPM tempo
              (nextNote (scheduleNote (beat_to_play w) (Num t) (Num c) w))))
      with (nextNoteTime
              (nextNote (scheduleNote (beat_to_play w) (Num t) (Num c) w))).
    rewrite F1, num_ltb_PosInf_l. reflexivity.
Qed.

Lemma tempo_zero_stalls_witness :
  bpm (updateBPM (Num 0) world_init) = Num 0
  /\ nextNoteTime (updateBPM (Num 0) world_init) = Num 0
  /\ (0 < 1 + 0.1)%R
  /\ exists w' : world,
       scheduler_loop 1 (Num 1) (updateBPM (Num 0) world_init) = Some w'
       /\ notes w'
          = notes (updateBPM (Num 0) world_init)
            ++ [(beat_to_play (updateBPM (Num 0) world_init), Num 0)]
       /\ nextNoteTime w' = PosInf
       /\ forall (tempo now : num) (fuel' : nat),
            scheduler_loop fuel' now (updateBPM tempo w')
            = Some (updateBPM tempo w').
Proof.
  split; [reflexivity|]. split; [reflexivity|]. split; [lra|].
  apply (tempo_zero_stalls 1 0 0 (updateBPM (Num 0) world_init));
    [reflexivity | reflexivity | lra].
Defined.



(** ** Handles and loops *)

Lemma handles_ok_nil (next : nat) : handles_ok next [].
Proof. split; constructor. Qed.

Lemma handles_ok_next (next : nat) (ids : list nat) :
  handles_ok next ids -> handles_ok (S next) ids.
Proof.
  intros [Hn Hf]. split; [exact Hn|].
  eapply List.Forall_impl; [|exact Hf]. cbn. intros id Hid. lia.
Qed.

Lemma handles_ok_fresh (next : nat) (ids : list nat) :
  (1 <= next)%nat ->
  handles_ok next ids -> handles_ok (S next) (ids ++ [next]).
Proof.
  intros H1 [Hn Hf]. split.
  - apply List.NoDup_app; [exact Hn | repeat constructor; intros [] |].
    intros id Hin [<- | []].
    rewrite List.Forall_forall in Hf. specialize (Hf _ Hin). lia.
  - apply List.Forall_app. split.
    + eapply List.Forall_impl; [|exact Hf]. cbn. intros id Hid. lia.
    + repeat constructor; lia.
Qed.

Lemma NoDup_map_filter {A : Type} (f : A -> nat) (Q : A -> bool)
    (l : list A) :
  List.NoDup (map f l) -> List.NoDup (map f (List.filter Q l)).
Proof.
  induction l as [|x l IH]; intros Hn; [exact Hn|].
  cbn in Hn. apply List.NoDup_cons_iff in Hn. destruct Hn as [Hx Hn].
  cbn. destruct (Q x); [|apply IH; exact Hn].
  cbn. apply List.NoDup_cons; [|apply IH; exact Hn].
  intros Hin. apply Hx. apply List.in_map_iff in Hin.
  destruct Hin as (y & Hy & Hin). apply List.filter_In in Hin.
  apply List.in_map_iff. exists y. tauto.
Qed.

Lemma Forall_map_filter {A : Type} (f : A -> nat) (Q : A -> bool)
    (P : nat -> Prop) (l : list A) :
  List.Forall P (map f l) -> List.Forall P (map f (List.filter Q l)).
Proof.
  rewrite !List.Forall_forall. intros H id Hin. apply H.
  apply List.in_map_iff in Hin. destruct Hin as (y & Hy & Hin).
  apply List.filter_In in Hin. apply List.in_map_iff. exists y. tauto.
Qed.

Lemma handles_ok_map_filter {A : Type} (f : A -> nat) (Q : A -> bool)
    (next : nat) (l : list A) :
  handles_ok next (map f l) -> handles_ok next (map f (List.filter Q l)).
Proof.
  intros [Hn Hf]. split;
    [apply NoDup_map_filter | apply Forall_map_filter]; assumption.
Qed.

Lemma handles_ok_filter (Q : nat -> bool) (next : nat) (ids : list nat) :
  handles_ok next ids -> handles_ok next (List.filter Q ids).
Proof.
  intros H. rewrite <- (List.map_id (List.filter Q ids)).
  apply (handles_ok_map_filter (fun x => x)). rewrite List.map_id. exact H.
Qed.

(** [host_ok] looks at the queues and the next handle only. *)
Lemma host_ok_same (w w' : world) :
  next_handle w' = next_handle w ->
  timeouts w' = timeouts w ->
  frames w' = frames w ->
  host_ok w -> host_ok w'.
Proof. unfold host_ok. intros -> -> ->. tauto. Qed.

Lemma host_ok_init : host_ok world_init.
Proof.
  unfold host_ok. cbn. split; [lia|]. split; apply handles_ok_nil.
Qed.

Lemma host_ok_setTimeout (k : task) (delay : num) (w : world) :
  host_ok w -> host_ok (snd (setTimeout k delay w)).
Proof.
  intros (H1 & Ht & Hf). unfold host_ok. cbn. split; [lia|]. split.
  - rewrite map_app. cbn. apply handles_ok_fresh; assumption.
  - apply handles_ok_next. exact Hf.
Qed.

Lemma host_ok_clearTimeout (id : nat) (w : world) :
  host_ok w -> host_ok (clearTimeout id w).
Proof.
  intros (H1 & Ht & Hf). unfold host_ok. cbn. split; [exact H1|].
  split; [|exact Hf]. apply handles_ok_map_filter. exact Ht.
Qed.

Lemma host_ok_requestAnimationFrame (w : world) :
  host_ok w -> host_ok (snd (requestAnimationFrame w)).
Proof.
  intros (H1 & Ht & Hf). unfold host_ok. cbn. split; [lia|]. split.
  - apply handles_ok_next. exact Ht.
  - apply handles_ok_fresh; assumption.
Qed.

Lemma host_ok_cancelAnimationFrame (id : nat) (w : world) :
  host_ok w -> host_ok (cancelAnimationFrame id w).
Proof.
  intros (H1 & Ht & Hf). unfold host_ok. cbn. split; [exact H1|].
  split; [exact Ht|]. apply handles_ok_filter. exact Hf.
Qed.

Lemma host_ok_iteration (b : Z) (t now : num) (w : world) :
  host_ok w -> host_ok (nextNote (scheduleNote b t now w)).
Proof.
  intros H.
  apply (host_ok_same (snd (setTimeout (BeatNotify b)
           (num_max (Num 0) ((t - now) * Num 1000)) w))); try reflexivity.
  apply host_ok_setTimeout. exact H.
Qed.

Lemma host_ok_scheduler_loop (fuel : nat) (now : num) :
  forall w w' : world,
  scheduler_loop fuel now w = Some w' -> host_ok w -> host_ok w'.
Proof.
  induction fuel as [|fuel IH]; intros w w' Hrun Hok;
    rewrite scheduler_loop_unfold in Hrun;
    destruct (nextNoteTime w <? now + Num 0.1); try discriminate;
    try (inversion Hrun; subst; exact Hok).
  apply (IH _ _ Hrun). apply host_ok_iteration. exact Hok.
Qed.

Lemma host_ok_scheduler_rearm (w : world) :
  host_ok w -> host_ok (scheduler_rearm w).
Proof.
  intros H. unfold scheduler_rearm. destruct (isMetronomePlaying w);
    [|exact H].
  apply (host_ok_same (snd (setTimeout SchedulerTick (Num 25) w)));
    try reflexivity.
  apply host_ok_setTimeout. exact H.
Qed.

Lemma host_ok_scheduler (fuel : nat) (now : num) (w w' : world) :
  scheduler fuel now w = Some w' -> host_ok w -> host_ok w'.
Proof.
  unfold scheduler. destruct (scheduler_loop fuel now w) as [w1|] eqn:E;
    [|discriminate].
  intros H Hok. inversion H; subst. apply host_ok_scheduler_rearm.
  apply (host_ok_scheduler_loop fuel now w w1 E Hok).
Qed.

Lemma host_ok_stopMetronome (w : world) :
  host_ok w -> host_ok (stopMetronome w).
Proof.
  intros H. unfold stopMetronome. cbv zeta.
  destruct (truthy _) as [id|]; [|exact H].
  apply (host_ok_same (clearTimeout id w)); try reflexivity.
  apply host_ok_clearTimeout. exact H.
Qed.

Lemma host_ok_detectPitch (buf : list num) (sampleRate : num) (w : world) :
  host_ok w -> host_ok (detectPitch buf sampleRate w).
Proof.
  intros H. unfold detectPitch. destruct (analyser w); [|exact H].
  cbv zeta.
  apply (host_ok_same (snd (requestAnimationFrame w)));
    try (destruct (autoCorrelate buf sampleRate >? Num (-1));
         [destruct (tunerCallback w)|]; reflexivity).
  apply host_ok_requestAnimationFrame. exact H.
Qed.

Lemma host_ok_startTuner (callback : nat) (granted : bool) (buf : list num)
    (sampleRate : num) (w : world) :
  host_ok w -> host_ok (startTuner callback granted buf sampleRate w).
Proof.
  intros H. unfold startTuner. cbv zeta. destruct granted; [|exact H].
  apply host_ok_detectPitch. exact H.
Qed.

Lemma host_ok_stopTuner (w : world) : host_ok w -> host_ok (stopTuner w).
Proof.
  intros H. unfold stopTuner. cbv zeta.
  destruct (truthy _) as [id|]; [|exact H].
  apply (host_ok_same (cancelAnimationFrame id w)); try reflexivity.
  apply host_ok_cancelAnimationFrame. exact H.
Qed.

Lemma host_ok_step (fuel : nat) (e : event) (w w' : world) :
  step fuel e w = Some w' -> host_ok w -> host_ok w'.
Proof.
  intros Hstep Hok. destruct e; cbn [step] in Hstep.
  - unfold startMetronome in Hstep.
    apply (host_ok_scheduler _ _ _ _ Hstep). exact Hok.
  - inversion Hstep; subst. apply host_ok_stopMetronome. exact Hok.
  - inversion Hstep; subst. exact Hok.
  - unfold take_timeout in Hstep.
    destruct (find _ (timeouts w)) as [t|];
      [|inversion Hstep; subst; exact Hok].
    pose proof (host_ok_clearTimeout id w Hok) as Hc.
    destruct (timeout_task t).
    + apply (host_ok_scheduler _ _ _ _ Hstep Hc).
    + inversion Hstep; subst. unfold beat_notify.
      destruct (isMetronomePlaying _); [destruct (beatCallback _)|];
        exact Hc.
  - inversion Hstep; subst. apply host_ok_startTuner. exact Hok.
  - inversion Hstep; subst. apply host_ok_stopTuner. exact Hok.
  - destruct (existsb _ _); inversion Hstep; subst; [|exact Hok].
    apply host_ok_detectPitch, host_ok_cancelAnimationFrame. exact Hok.
Qed.

Lemma startMetronome_any (fuel : nat) (tempo : num) (onBeat : nat) (now : num)
    (w : world) :
  startMetronome fuel tempo onBeat now w
  = Some (scheduler_rearm (startMetronome_assign tempo onBeat now w)).
Proof.
  unfold startMetronome, scheduler. rewrite scheduler_loop_unfold.
  cbn [startMetronome_assign set_metronome nextNoteTime].
  rewrite num_ltb_irrefl. reflexivity.
Qed.

(** Cancelling a handle that is not in the queue changes nothing. *)
Lemma filter_out_absent {A : Type} (f : A -> nat) (id : nat) (l : list A) :
  ~ In id (map f l) ->
  List.filter (fun x => negb (Nat.eqb (f x) id)) l = l.
Proof.
  induction l as [|x l IH]; intros Hn; [reflexivity|].
  cbn in Hn. cbn. destruct (Nat.eqb_spec (f x) id) as [He|Hne].
  - exfalso. apply Hn. left. exact He.
  - cbn. f_equal. apply IH. intros Hin. apply Hn. right. exact Hin.
Qed.

Lemma fresh_not_in (next : nat) (ids : list nat) :
  handles_ok next ids -> ~ In next ids.
Proof.
  intros [_ Hf] Hin. rewrite List.Forall_forall in Hf.
  specialize (Hf _ Hin). lia.
Qed.

Lemma filter_out_last {A : Type} (f : A -> nat) (x : A) (l : list A) :
  ~ In (f x) (map f l) ->
  List.filter (fun y => negb (Nat.eqb (f y) (f x))) (l ++ [x]) = l.
Proof.
  intros Hn. rewrite List.filter_app, (filter_out_absent f (f x) l Hn).
  cbn. rewrite Nat.eqb_refl. cbn. apply app_nil_r.
Qed.

(** X9.  Start, then stop: nothing is left behind.  In a host whose handles
    are positive and handed out once, [stopMetronome] called after
    [startMetronome] takes off the queue exactly the polling timeout that
    the start armed: the queue is as it was before the start, the playing
    flag is down, [timerID] is cleared and no click has been scheduled. *)
Theorem start_stop_round_trip (fuel : nat) (tempo : num) (onBeat : nat)
    (now : num) (w : world) :
  host_ok w ->
  exists w1 : world,
    startMetronome fuel tempo onBeat now w = Some w1
    /\ timeouts (stopMetronome w1) = timeouts w
    /\ scheduling_loops (stopMetronome w1) = scheduling_loops w
    /\ isMetronomePlaying (stopMetronome w1) = false
    /\ timerID (stopMetronome w1) = None
    /\ notes (stopMetronome w1) = notes w.
Proof.
  intros (H1 & Ht & _). eexists. split; [apply startMetronome_any|].
  assert (Hq : timeouts (stopMetronome (scheduler_rearm
                 (startMetronome_assign tempo onBeat now w))) = timeouts w).
  { unfold stopMetronome. cbn.
    destruct (next_handle w) as [|n] eqn:En; [lia|]. cbn.
    apply (filter_out_last timeout_id (mk_timeout (S n) (Num 25) SchedulerTick)).
    cbn. apply (fresh_not_in _ _ Ht). }
  split; [exact Hq|]. split; [unfold scheduling_loops; rewrite Hq; reflexivity|].
  unfold stopMetronome. cbn.
  destruct (next_handle w) as [|n]; [lia|]. repeat split.
Qed.

Lemma start_stop_round_trip_witness :
  host_ok world_init
  /\ exists w1 : world,
       startMetronome 0 (Num 120) 7 (Num 0) world_init = Some w1
       /\ timeouts (stopMetronome w1) = timeouts world_init
       /\ scheduling_loops (stopMetronome w1) = scheduling_loops world_init
       /\ isMetronomePlaying (stopMetronome w1) = false
       /\ timerID (stopMetronome w1) = None
       /\ notes (stopMetronome w1) = notes world_init.
Proof.
  split; [exact host_ok_init|].
  exact (start_stop_round_trip 0 (Num 120) 7 (Num 0) world_init host_ok_init).
Defined.

(** X10.  Start the tuner, then stop it: the frame is cancelled, the
    analyser stays.  After a granted [startTuner], [stopTuner] takes off the
    queue the animation frame the start asked for, so that the pending
    frames are those of before, and releases the stream and the source; the
    analyser node and the callback are kept. *)
Theorem tuner_start_stop_round_trip (callback : nat) (buf : list num)
    (sampleRate : num) (w : world) :
  host_ok w ->
  frames (stopTuner (startTuner callback true buf sampleRate w)) = frames w
  /\ detection_loops (stopTuner (startTuner callback true buf sampleRate w))
     = detection_loops w
  /\ microphoneStream (stopTuner (startTuner callback true buf sampleRate w))
     = false
  /\ sourceNode (stopTuner (startTuner callback true buf sampleRate w))
     = false
  /\ analyser (stopTuner (startTuner callback true buf sampleRate w)) = true
  /\ tunerCallback (stopTuner (startTuner callback true buf sampleRate w))
     = Some callback.
Proof.
  intros (H1 & _ & Hf).
  set (w0 := set_tuner true true (tunerFrameId w) (Some callback) true w).
  assert (Hs : startTuner callback true buf sampleRate w
               = detectPitch buf sampleRate w0) by reflexivity.
  destruct (detectPitch_rearms buf sampleRate w0 eq_refl)
    as (Hfr & Hid & _ & _ & Han).
  change (frames w0) with (frames w) in Hfr.
  change (next_handle w0) with (next_handle w) in Hfr, Hid.
  rewrite Hs.
  assert (Hq : frames (stopTuner (detectPitch buf sampleRate w0)) = frames w).
  { unfold stopTuner. cbv zeta. rewrite Hid.
    destruct (next_handle w) as [|n] eqn:En; [lia|]. cbn [truthy].
    cbn [set_tuner frames cancelAnimationFrame]. rewrite Hfr.
    apply (filter_out_last (fun x => x) (S n)). rewrite List.map_id.
    apply (fresh_not_in _ _ Hf). }
  split; [exact Hq|].
  split; [unfold detection_loops; rewrite Hq; reflexivity|].
  unfold stopTuner. cbv zeta.
  destruct (truthy _); cbn; repeat split; try exact Han;
    unfold detectPitch; cbn;
    destruct (autoCorrelate buf sampleRate >? Num (-1)); reflexivity.
Qed.

Lemma tuner_start_stop_round_trip_witness :
  host_ok world_init
  /\ frames (stopTuner (startTuner 7 true [] (Num 44100) world_init))
     = frames world_init
  /\ detection_loops (stopTuner (startTuner 7 true [] (Num 44100) world_init))
     = detection_loops world_init
  /\ microphoneStream
       (stopTuner (startTuner 7 true [] (Num 44100) world_init)) = false
  /\ sourceNode (stopTuner (startTuner 7 true [] (Num 44100) world_init))
     = false
  /\ analyser (stopTuner (startTuner 7 true [] (Num 44100) world_init)) = true
  /\ tunerCallback (stopTuner (startTuner 7 true [] (Num 44100) world_init))
     = Some 7%nat.
Proof.
  split; [exact host_ok_init|].
  exact (tuner_start_stop_round_trip 7 [] (Num 44100) world_init host_ok_init).
Defined.

Lemma filter_filter_same {A : Type} (Q : A -> bool) (l : list A) :
  List.filter Q (List.filter Q l) = List.filter Q l.
Proof.
  induction l as [|x l IH]; [reflexivity|].
  cbn. destruct (Q x) eqn:E; [|exact IH]. cbn. rewrite E, IH. reflexivity.
Qed.

(** X11.  Stopping twice is stopping once, and stopping an idle engine does
    nothing.  [stopMetronome] and [stopTuner] are idempotent; on an engine
    whose metronome is not playing and holds no timeout, [stopMetronome]
    leaves the whole state as it is. *)
Theorem stop_idempotent (w : world) :
  stopMetronome (stopMetronome w) = stopMetronome w
  /\ stopTuner (stopTuner w) = stopTuner w
  /\ (isMetronomePlaying w = false -> timerID w = None ->
      stopMetronome w = w).
Proof.
  split; [|split].
  - destruct w as [nnt [[|id]|] pl bp cb cur an mic fid tcb src ts fr nh nt bs ps];
      reflexivity.
  - destruct w as [nnt tid pl bp cb cur an mic [[|id]|] tcb src ts fr nh nt bs ps];
      unfold stopTuner; cbn; try reflexivity.
    unfold set_tuner, cancelAnimationFrame. cbn.
    rewrite filter_filter_same. reflexivity.
  - destruct w as [nnt tid pl bp cb cur an mic fid tcb src ts fr nh nt bs ps].
    cbn. intros -> ->. reflexivity.
Qed.

(** *** One scheduling loop *)

Lemma find_by_id (id : nat) (ts : list timeout) (t : timeout) :
  find (fun x => Nat.eqb (timeout_id x) id) ts = Some t ->
  In t ts /\ timeout_id t = id.
Proof.
  intros H. apply List.find_some in H. destruct H as [Hin He].
  apply Nat.eqb_eq in He. split; assumption.
Qed.

(** Taking a polling timeout off a queue of distinct handles takes off one
    scheduling loop. *)
Lemma clear_tick (ts : list timeout) (t : timeout) :
  List.NoDup (map timeout_id ts) ->
  In t ts ->
  is_tick t = true ->
  length (List.filter is_tick ts)
  = S (length (List.filter is_tick
                 (List.filter
                    (fun x => negb (Nat.eqb (timeout_id x) (timeout_id t)))
                    ts))).
Proof.
  induction ts as [|x ts IH]; intros Hn Hin Ht; [contradiction|].
  cbn in Hn. apply List.NoDup_cons_iff in Hn. destruct Hn as [Hx Hn].
  destruct Hin as [-> | Hin].
  - cbn. rewrite Nat.eqb_refl, Ht. cbn.
    rewrite (filter_out_absent timeout_id (timeout_id t) ts Hx). reflexivity.
  - assert (Hne : timeout_id x <> timeout_id t).
    { intros He. apply Hx. rewrite He. apply List.in_map. exact Hin. }
    cbn. apply Nat.eqb_neq in Hne. rewrite Hne. cbn.
    destruct (is_tick x); cbn; rewrite (IH Hn Hin Ht); reflexivity.
Qed.

(** Taking a notification off the queue leaves the polling timeouts. *)
Lemma clear_other (ts : list timeout) (t : timeout) :
  List.NoDup (map timeout_id ts) ->
  In t ts ->
  is_tick t = false ->
  List.filter is_tick
    (List.filter (fun x => negb (Nat.eqb (timeout_id x) (timeout_id t))) ts)
  = List.filter is_tick ts
  /\ forall t', In t' ts -> is_tick t' = true ->
       In t' (List.filter
                (fun x => negb (Nat.eqb (timeout_id x) (timeout_id t))) ts).
Proof.
  intros Hn Hin Ht.
  assert (Hkeep : forall t', In t' ts -> is_tick t' = true ->
            negb (Nat.eqb (timeout_id t') (timeout_id t)) = true).
  { intros t' Hin' Ht'. apply negb_true_iff, Nat.eqb_neq. intros He.
    assert (t' = t); [|subst; congruence].
    clear Ht Ht'. induction ts as [|x ts IH]; [contradiction|].
    cbn in Hn. apply List.NoDup_cons_iff in Hn. destruct Hn as [Hx Hn].
    destruct Hin as [-> | Hin], Hin' as [-> | Hin'].
    - reflexivity.
    - exfalso. apply Hx. rewrite <- He. apply List.in_map. exact Hin'.
    - exfalso. apply Hx. rewrite He. apply List.in_map. exact Hin.
    - apply IH; assumption. }
  split.
  - clear Hn Hin. induction ts as [|x ts IH]; [reflexivity|].
    cbn. destruct (negb (Nat.eqb (timeout_id x) (timeout_id t))) eqn:E.
    + cbn. destruct (is_tick x); [f_equal|];
        apply IH; intros t' Hin'; apply Hkeep; right; exact Hin'.
    + destruct (is_tick x) eqn:Ex.
      * rewrite (Hkeep x (or_introl eq_refl) Ex) in E. discriminate.
      * apply IH. intros t' Hin'. apply Hkeep. right. exact Hin'.
  - intros t' Hin' Ht'. apply List.filter_In. split; [exact Hin'|].
    apply Hkeep; assumption.
Qed.

Lemma scheduling_loops_clear_le (id : nat) (w : world) :
  (scheduling_loops (clearTimeout id w) <= scheduling_loops w)%nat.
Proof.
  unfold scheduling_loops. cbn. induction (timeouts w) as [|x ts IH];
    [reflexivity|].
  cbn. destruct (negb (Nat.eqb (timeout_id x) id)); cbn;
    destruct (is_tick x); cbn; lia.
Qed.

Lemma tick_is_counted (id : nat) (w : world) :
  tick_pending id w -> (1 <= scheduling_loops w)%nat.
Proof.
  unfold tick_pending, scheduling_loops. intros Hin.
  assert (In (mk_timeout id (Num 25) SchedulerTick)
             (List.filter is_tick (timeouts w))).
  { apply List.filter_In. split; [exact Hin | reflexivity]. }
  destruct (List.filter is_tick (timeouts w)); [contradiction | cbn; lia].
Qed.

(** The playing state after a polling timeout has been armed. *)
Lemma one_loop_rearmed (w : world) :
  host_ok w ->
  isMetronomePlaying w = true ->
  scheduling_loops w = 0%nat ->
  one_loop (scheduler_rearm w).
Proof.
  intros Hok Hp H0. split; [apply host_ok_scheduler_rearm; exact Hok|].
  unfold scheduler_rearm. rewrite Hp. cbn. rewrite Hp. split.
  - unfold scheduling_loops in *. cbn.
    rewrite List.filter_app, length_app, H0. reflexivity.
  - exists (next_handle w). split; [reflexivity|].
    unfold tick_pending. cbn. apply List.in_or_app. right. left. reflexivity.
Qed.

(** [one_loop] looks at the host, the playing flag, [timerID] and the
    queue of timeouts only. *)
Lemma one_loop_same (w w' : world) :
  host_ok w' ->
  timeouts w' = timeouts w ->
  isMetronomePlaying w' = isMetronomePlaying w ->
  timerID w' = timerID w ->
  one_loop w -> one_loop w'.
Proof.
  intros Hok Ht Hp Hid [_ H]. split; [exact Hok|].
  unfold scheduling_loops, tick_pending in *. rewrite Hp, Ht, Hid. exact H.
Qed.

Lemma detectPitch_metronome_view (buf : list num) (sampleRate : num)
    (w : world) :
  timeouts (detectPitch buf sampleRate w) = timeouts w
  /\ isMetronomePlaying (detectPitch buf sampleRate w) = isMetronomePlaying w
  /\ timerID (detectPitch buf sampleRate w) = timerID w.
Proof.
  unfold detectPitch. destruct (analyser w); [|repeat split]. cbv zeta.
  destruct (autoCorrelate buf sampleRate >? Num (-1));
    [destruct (tunerCallback w)|]; repeat split.
Qed.

Lemma startTuner_metronome_view (callback : nat) (granted : bool)
    (buf : list num) (sampleRate : num) (w : world) :
  timeouts (startTuner callback granted buf sampleRate w) = timeouts w
  /\ isMetronomePlaying (startTuner callback granted buf sampleRate w)
     = isMetronomePlaying w
  /\ timerID (startTuner callback granted buf sampleRate w) = timerID w.
Proof.
  unfold startTuner. cbv zeta. destruct granted; [|repeat split].
  match goal with
  | |- context [detectPitch buf sampleRate ?w0] =>
      destruct (detectPitch_metronome_view buf sampleRate w0) as (-> & -> & ->)
  end.
  repeat split.
Qed.

Lemma one_loop_step (fuel : nat) (e : event) (w w' : world) :
  one_loop w ->
  start_when_stopped e w ->
  step fuel e w = Some w' ->
  one_loop w'.
Proof.
  intros Hone Hdisc Hstep. pose proof Hone as [Hok Hloop].
  pose proof (host_ok_step fuel e w w' Hstep Hok) as Hok'.
  destruct e; cbn [step] in Hstep; cbn [start_when_stopped] in Hdisc.
  - (* start, the metronome stopped *)
    rewrite startMetronome_any in Hstep. inversion Hstep; subst w'.
    rewrite Hdisc in Hloop. apply one_loop_rearmed; [|reflexivity|exact Hloop].
    apply (host_ok_same w); try reflexivity. exact Hok.
  - (* stop *)
    inversion Hstep; subst w'. split; [exact Hok'|].
    assert (Hp : isMetronomePlaying (stopMetronome w) = false).
    { unfold stopMetronome. cbv zeta. destruct (truthy _); reflexivity. }
    rewrite Hp. destruct (isMetronomePlaying w).
    + destruct Hloop as (H1 & id & Hid & Hpend).
      destruct Hok as (_ & [Hnd Hfa] & _).
      assert (Hpos : (1 <= id)%nat).
      { rewrite List.Forall_forall in Hfa.
        specialize (Hfa id (List.in_map timeout_id _ _ Hpend)). cbn in Hfa.
        lia. }
      unfold stopMetronome. cbv zeta. cbn [set_metronome timerID].
      rewrite Hid. destruct id as [|n]; [lia|]. cbn [truthy].
      pose proof (clear_tick (timeouts w) _ Hnd Hpend eq_refl) as Hc.
      unfold scheduling_loops in *. cbn in Hc |- *. lia.
    + pose proof (scheduling_loops_clear_le) as Hle.
      unfold stopMetronome. cbv zeta. destruct (truthy _) as [id|].
      * specialize (Hle id w). unfold scheduling_loops in *. cbn in Hle |- *.
        lia.
      * exact Hloop.
  - (* tempo *)
    inversion Hstep; subst w'. apply (one_loop_same w); try reflexivity;
      assumption.
  - (* a timeout fires *)
    unfold take_timeout in Hstep.
    destruct (find _ (timeouts w)) as [t|] eqn:Ef;
      [|inversion Hstep; subst; exact Hone].
    apply find_by_id in Ef. destruct Ef as [Hin Hidt]. subst id.
    destruct Hok as (_ & [Hnd _] & _).
    destruct (timeout_task t) as [|b] eqn:Et.
    + (* the polling timeout *)
      assert (Htick : is_tick t = true) by (unfold is_tick; rewrite Et; reflexivity).
      pose proof (clear_tick (timeouts w) t Hnd Hin Htick) as Hc.
      destruct (isMetronomePlaying w) eqn:Hp.
      * destruct Hloop as (H1 & _).
        unfold scheduler in Hstep.
        destruct (scheduler_loop fuel now _) as [w1|] eqn:El; [|discriminate].
        inversion Hstep; subst w'.
        destruct (scheduler_loop_effect _ _ _ _ El)
          as (_ & Hp1 & _ & _ & _ & _ & Hs1 & _).
        apply one_loop_rearmed.
        -- apply (host_ok_scheduler_loop _ _ _ _ El).
           apply host_ok_clearTimeout. exact (proj1 Hone).
        -- rewrite Hp1. exact Hp.
        -- rewrite Hs1. unfold scheduling_loops in *. cbn. lia.
      * unfold scheduling_loops in Hloop. rewrite Hloop in Hc. discriminate.
    + (* a notification *)
      assert (Htick : is_tick t = false) by (unfold is_tick; rewrite Et; reflexivity).
      destruct (clear_other (timeouts w) t Hnd Hin Htick) as [Hsame Hkeep].
      inversion Hstep; subst w'. split; [exact Hok'|].
      assert (Hv : timeouts (beat_notify b (clearTimeout (timeout_id t) w))
                   = timeouts (clearTimeout (timeout_id t) w)
                   /\ isMetronomePlaying
                        (beat_notify b (clearTimeout (timeout_id t) w))
                      = isMetronomePlaying w
                   /\ timerID (beat_notify b (clearTimeout (timeout_id t) w))
                      = timerID w).
      { unfold beat_notify. cbn.
        destruct (isMetronomePlaying w) eqn:Hp; [destruct (beatCallback w)|];
          repeat split; cbn; exact Hp. }
      destruct Hv as (Hv1 & Hv2 & Hv3).
      unfold scheduling_loops, tick_pending in *. rewrite Hv1, Hv2, Hv3.
      cbn [clearTimeout timeouts]. rewrite Hsame.
      destruct (isMetronomePlaying w); [|exact Hloop].
      destruct Hloop as (H1 & id & Hid & Hpend).
      split; [exact H1|]. exists id. split; [exact Hid|].
      apply Hkeep; [exact Hpend | reflexivity].
  - (* the tuner starts *)
    inversion Hstep; subst w'. apply (one_loop_same w); try assumption;
      apply startTuner_metronome_view.
  - (* the tuner stops *)
    inversion Hstep; subst w'. apply (one_loop_same w); try assumption;
      unfold stopTuner; cbv zeta; destruct (truthy _); reflexivity.
  - (* a frame *)
    destruct (existsb _ _); inversion Hstep; subst w'; [|exact Hone].
    apply (one_loop_same w); try assumption;
      apply (detectPitch_metronome_view buf sampleRate
               (cancelAnimationFrame id w)).
Qed.

Lemma one_loop_init : one_loop world_init.
Proof. split; [exact host_ok_init | reflexivity]. Qed.

(** X12.  One loop, as long as every start finds the metronome stopped.
    From a state with one scheduling loop when playing and none when not
    (the fresh engine is one), any run of events in which [startMetronome]
    is only called with the playing flag down ends in such a state: at most
    one polling timeout is pending, whatever timeouts and frames fire and in
    whatever order. *)
Theorem one_loop_kept (fuel : nat) (es : list event) :
  forall w w' : world,
  one_loop w ->
  disciplined fuel es w ->
  run fuel es w = Some w' ->
  one_loop w'
  /\ (scheduling_loops w' <= 1)%nat
  /\ scheduling_loops w' = (if isMetronomePlaying w' then 1 else 0)%nat.
Proof.
  induction es as [|e es IH]; intros w w' Hone Hd Hrun.
  - inversion Hrun; subst w'. split; [exact Hone|].
    destruct Hone as [_ H]. destruct (isMetronomePlaying w).
    + destruct H as [-> _]. split; [lia | reflexivity].
    + rewrite H. split; [lia | reflexivity].
  - cbn [run] in Hrun. cbn [disciplined] in Hd. destruct Hd as [Hs Hd].
    destruct (step fuel e w) as [w1|] eqn:E; [|discriminate].
    apply (IH w1 w'); [|exact Hd | exact Hrun].
    apply (one_loop_step fuel e w w1 Hone Hs E).
Qed.

Lemma one_loop_kept_witness :
  exists w' : world,
    one_loop world_init
    /\ disciplined 0 [EStartMetronome (Num 120) 7 (Num 0); EStopMetronome;
                      EStartMetronome (Num 90) 7 (Num 3)] world_init
    /\ run 0 [EStartMetronome (Num 120) 7 (Num 0); EStopMetronome;
              EStartMetronome (Num 90) 7 (Num 3)] world_init = Some w'
    /\ one_loop w'
    /\ (scheduling_loops w' <= 1)%nat
    /\ scheduling_loops w' = (if isMetronomePlaying w' then 1 else 0)%nat.
Proof.
  assert (Hd : disciplined 0 [EStartMetronome (Num 120) 7 (Num 0);
                              EStopMetronome;
                              EStartMetronome (Num 90) 7 (Num 3)] world_init).
  { cbn [disciplined step start_when_stopped].
    rewrite !startMetronome_any. cbn [disciplined step start_when_stopped].
    rewrite ?startMetronome_any. repeat split. }
  eexists. split; [exact one_loop_init|]. split; [exact Hd|].
  assert (Hr : run 0 [EStartMetronome (Num 120) 7 (Num 0); EStopMetronome;
                      EStartMetronome (Num 90) 7 (Num 3)] world_init
               = Some (scheduler_rearm (startMetronome_assign (Num 90) 7 (Num 3)
                         (stopMetronome (scheduler_rearm
                            (startMetronome_assign (Num 120) 7 (Num 0)
                               world_init)))))).
  { cbn [run step]. rewrite !startMetronome_any. cbn [run step].
    rewrite ?startMetronome_any. reflexivity. }
  split; [exact Hr|].
  exact (one_loop_kept 0 _ world_init _ one_loop_init Hd Hr).
Defined.

(** *** Loops that a stop leaves behind *)

Lemma filter_out_one (id : nat) (l : list nat) :
  List.NoDup l ->
  In id l ->
  length l = S (length (List.filter (fun i => negb (Nat.eqb i id)) l)).
Proof.
  induction l as [|x l IH]; intros Hn Hin; [contradiction|].
  apply List.NoDup_cons_iff in Hn. destruct Hn as [Hx Hn].
  destruct Hin as [-> | Hin].
  - cbn. rewrite Nat.eqb_refl. cbn. f_equal.
    pose proof (filter_out_absent (fun i => i) id l) as H.
    rewrite List.map_id in H. rewrite (H Hx). reflexivity.
  - assert (Hne : x <> id) by (intros ->; contradiction).
    cbn. apply Nat.eqb_neq in Hne. rewrite Hne. cbn.
    rewrite (IH Hn Hin). reflexivity.
Qed.

Lemma existsb_eqb_In (id : nat) (l : list nat) :
  In id l -> existsb (Nat.eqb id) l = true.
Proof.
  intros Hin. apply List.existsb_exists. exists id.
  split; [exact Hin | apply Nat.eqb_refl].
Qed.

Lemma stopTuner_keeps (w : world) :
  tunerFrameId (stopTuner w) = tunerFrameId w
  /\ next_handle (stopTuner w) = next_handle w
  /\ analyser (stopTuner w) = analyser w.
Proof.
  unfold stopTuner. cbv zeta. destruct (truthy _); repeat split.
Qed.



(** X14.  A polling timeout that fires with the playing flag down is the
    last of its loop.  It is taken off the queue, the loop of [scheduler]
    runs, and no timeout is armed again: there is one scheduling loop less,
    and [onBeat] is not called. *)
Theorem tick_after_stop_ends (fuel : nat) (id : nat) (now : num)
    (w w' : world) :
  host_ok w ->
  isMetronomePlaying w = false ->
  tick_pending id w ->
  step fuel (ETimeout id now) w = Some w' ->
  S (scheduling_loops w') = scheduling_loops w
  /\ isMetronomePlaying w' = false
  /\ beats w' = beats w.
Proof.
  intros (_ & [Hnd _] & _) Hp Hpend Hstep. cbn [step] in Hstep.
  unfold take_timeout in Hstep.
  destruct (find _ (timeouts w)) as [t|] eqn:Ef.
  - destruct (find_by_id _ _ _ Ef) as [Hin Hid].
    assert (Ht : t = mk_timeout id (Num 25) SchedulerTick).
    { clear Ef Hstep. unfold tick_pending in Hpend.
      induction (timeouts w) as [|x ts IH]; [contradiction|].
      cbn in Hnd. apply List.NoDup_cons_iff in Hnd. destruct Hnd as [Hx Hnd].
      destruct Hin as [-> | Hin], Hpend as [He | Hpend].
      - exact He.
      - exfalso. apply Hx. rewrite Hid.
        apply (List.in_map timeout_id _ _ Hpend).
      - exfalso. apply Hx. rewrite He. cbn. rewrite <- Hid.
        apply (List.in_map timeout_id _ _ Hin).
      - apply IH; assumption. }
    subst t. cbn [timeout_task] in Hstep. unfold scheduler in Hstep.
    destruct (scheduler_loop fuel now _) as [w1|] eqn:El; [|discriminate].
    inversion Hstep; subst w'.
    destruct (scheduler_loop_effect _ _ _ _ El)
      as (_ & Hp1 & _ & _ & Hb1 & _ & Hs1 & _).
    cbn [isMetronomePlaying clearTimeout] in Hp1. rewrite Hp in Hp1.
    unfold scheduler_rearm. rewrite Hp1.
    pose proof (clear_tick (timeouts w) _ Hnd Hin eq_refl) as Hc.
    split; [|split; [exact Hp1 | exact Hb1]].
    rewrite Hs1. unfold scheduling_loops in *. cbn in Hc |- *. lia.
  - exfalso. unfold tick_pending in Hpend.
    apply (List.find_none _ _ Ef) in Hpend. cbn in Hpend.
    rewrite Nat.eqb_refl in Hpend. discriminate.
Qed.

(** The metronome stopped, with one polling timeout (handle 1) left over. *)
Lemma tick_after_stop_ends_witness :
  exists w' : world,
    host_ok (mk_world (Num 5) None false (Num 120) (Some 7%nat) 2
               false false None None false
               [mk_timeout 1 (Num 25) SchedulerTick] [] 2 [] [] [])
    /\ isMetronomePlaying
         (mk_world (Num 5) None false (Num 120) (Some 7%nat) 2
            false false None None false
            [mk_timeout 1 (Num 25) SchedulerTick] [] 2 [] [] []) = false
    /\ tick_pending 1
         (mk_world (Num 5) None false (Num 120) (Some 7%nat) 2
            false false None None false
            [mk_timeout 1 (Num 25) SchedulerTick] [] 2 [] [] [])
    /\ step 0 (ETimeout 1 (Num 0))
         (mk_world (Num 5) None false (Num 120) (Some 7%nat) 2
            false false None None false
            [mk_timeout 1 (Num 25) SchedulerTick] [] 2 [] [] []) = Some w'
    /\ S (scheduling_loops w')
       = scheduling_loops
           (mk_world (Num 5) None false (Num 120) (Some 7%nat) 2
              false false None None false
              [mk_timeout 1 (Num 25) SchedulerTick] [] 2 [] [] [])
    /\ isMetronomePlaying w' = false
    /\ beats w' = beats
           (mk_world (Num 5) None false (Num 120) (Some 7%nat) 2
              false false None None false
              [mk_timeout 1 (Num 25) SchedulerTick] [] 2 [] [] []).
Proof.
  set (w := mk_world (Num 5) None false (Num 120) (Some 7%nat) 2
              false false None None false
              [mk_timeout 1 (Num 25) SchedulerTick] [] 2 [] [] []).
  assert (Hok : host_ok w).
  { unfold host_ok, handles_ok. cbn. repeat split; try lia.
    - repeat constructor. intros [].
    - repeat constructor.
    - constructor.
    - constructor. }
  assert (Hp : isMetronomePlaying w = false) by reflexivity.
  assert (Ht : tick_pending 1 w) by (left; reflexivity).
  assert (Hs : step 0 (ETimeout 1 (Num 0)) w = Some (clearTimeout 1 w)).
  { cbn [step]. unfold take_timeout. cbn [find timeouts w timeout_id Nat.eqb
      timeout_task]. unfold scheduler. rewrite scheduler_loop_unfold.
    cbn [nextNoteTime clearTimeout w num_add].
    rewrite num_ltb_ge by lra. reflexivity. }
  exists (clearTimeout 1 w).
  split; [exact Hok|]. split; [exact Hp|]. split; [exact Ht|].
  split; [exact Hs|].
  exact (tick_after_stop_ends 0 1 (Num 0) w (clearTimeout 1 w) Hok Hp Ht Hs).
Defined.

(** ** Well-formed telemetry lines *)

Lemma digit_char_cases (P : nat -> Prop) :
  P 0%nat -> P 1%nat -> P 2%nat -> P 3%nat -> P 4%nat -> P 5%nat ->
  P 6%nat -> P 7%nat -> P 8%nat -> P 9%nat ->
  forall d : nat, (d < 10)%nat -> P d.
Proof.
  intros H0 H1 H2 H3 H4 H5 H6 H7 H8 H9 d Hd.
  do 10 (destruct d as [|d]; [assumption|]). lia.
Qed.

Lemma digit_of_digit_char (d : nat) :
  (d < 10)%nat -> App.digit_of (digit_char d) = Some (Z.of_nat d).
Proof. revert d. apply digit_char_cases; reflexivity. Qed.

Lemma is_space_digit_char (d : nat) :
  (d < 10)%nat -> App.is_space (digit_char d) = false.
Proof. revert d. apply digit_char_cases; reflexivity. Qed.

Lemma digit_char_not (c : ascii) (d : nat) :
  App.digit_of c = None -> (d < 10)%nat -> Ascii.eqb (digit_char d) c = false.
Proof.
  intros Hc Hd. destruct (Ascii.eqb_spec (digit_char d) c) as [<-|];
    [|reflexivity].
  rewrite digit_of_digit_char in Hc by exact Hd. discriminate.
Qed.

Lemma has_char_digits (c : ascii) (ds : list nat) :
  App.digit_of c = None -> is_digits ds -> has_char c (digits_string ds) = false.
Proof.
  intros Hc Hds. induction Hds as [|d ds Hd _ IH]; [reflexivity|].
  cbn [digits_string has_char]. rewrite (digit_char_not c d Hc Hd). exact IH.
Qed.

Lemma has_char_app (c : ascii) (a b : string) :
  has_char c (a ++ b)%string = has_char c a || has_char c b.
Proof.
  induction a as [|x a IH]; [reflexivity|].
  cbn [String.append has_char]. rewrite IH. apply orb_assoc.
Qed.

(** The digits at the head of a text are read to their end. *)
Lemma take_digits_digits (ds : list nat) (rest : string) :
  is_digits ds ->
  match rest with
  | EmptyString => True
  | String c _ => App.digit_of c = None
  end ->
  forall (acc : Z) (count : nat),
  App.take_digits App.digit_of 10 (digits_string ds ++ rest)%string acc count
  = (digits_value ds acc, (count + length ds)%nat, rest).
Proof.
  intros Hds Hrest. induction Hds as [|d ds Hd _ IH]; intros acc count.
  - cbn [digits_string String.append digits_value length].
    rewrite Nat.add_0_r. destruct rest as [|c r]; [reflexivity|].
    cbn [App.take_digits]. rewrite Hrest. reflexivity.
  - cbn [digits_string String.append App.take_digits digits_value length].
    rewrite (digit_of_digit_char d Hd), IH. f_equal. f_equal. lia.
Qed.

Lemma split_no_char (c : ascii) (s : string) :
  has_char c s = false -> App.split c s = [s].
Proof.
  induction s as [|x s IH]; intros H; [reflexivity|].
  cbn [has_char] in H. apply orb_false_iff in H. destruct H as [Hx Hs].
  cbn [App.split]. rewrite Hx, (IH Hs). reflexivity.
Qed.

Lemma split_at_char (c : ascii) (a b : string) :
  has_char c a = false ->
  App.split c (a ++ String c b)%string = a :: App.split c b.
Proof.
  induction a as [|x a IH]; intros H.
  - cbn [String.append App.split]. rewrite Ascii.eqb_refl. reflexivity.
  - cbn [has_char] in H. apply orb_false_iff in H. destruct H as [Hx Hs].
    cbn [String.append App.split]. rewrite Hx, (IH Hs). reflexivity.
Qed.

(** The first piece of a split, when the text begins with a piece that does
    not hold the separator. *)
Lemma split_head (c : ascii) (a b : string) :
  has_char c a = false ->
  exists p ps, App.split c (a ++ b)%string = (a ++ p)%string :: ps
               /\ match b with
                  | EmptyString => p = EmptyString
                  | String x _ => p = EmptyString \/ exists p', p = String x p'
                  end.
Proof.
  intros Ha. induction a as [|y a IH].
  - cbn [String.append]. destruct b as [|x b].
    + exists EmptyString, []. split; reflexivity.
    + cbn [App.split]. destruct (Ascii.eqb x c).
      * exists EmptyString, (App.split c b). split; [reflexivity | left; reflexivity].
      * destruct (App.split c b) as [|q qs].
        -- exists (String x EmptyString), []. split; [reflexivity|].
           right. exists EmptyString. reflexivity.
        -- exists (String x q), qs. split; [reflexivity|].
           right. exists q. reflexivity.
  - cbn [has_char] in Ha. apply orb_false_iff in Ha. destruct Ha as [Hy Ha].
    destruct (IH Ha) as (p & ps & Hs & Hp).
    exists p, ps. cbn [String.append App.split]. rewrite Hy, Hs.
    split; [reflexivity | exact Hp].
Qed.

(** The test of [parseInt] for a hexadecimal prefix, on a text that begins
    with a decimal digit and goes on with something else than [x]. *)
Lemma no_hex_prefix {T : Type} (A : string -> T) (B : T) (d : nat)
    (s : string) :
  (d < 10)%nat ->
  match s with
  | EmptyString => True
  | String c _ => c <> "x"%char /\ c <> "X"%char
  end ->
  match String (digit_char d) s with
  | String "0" (String "x" s2) | String "0" (String "X" s2) => A s2
  | _ => B
  end = B.
Proof.
  intros Hd Hs. revert d Hd. apply digit_char_cases; try reflexivity.
  destruct s as [|c r]; [reflexivity|]. destruct Hs as [Hx HX].
  destruct c as [[] [] [] [] [] [] [] []]; try reflexivity;
    exfalso; first [apply Hx; reflexivity | apply HX; reflexivity].
Qed.

Lemma digit_char_not_x (d : nat) :
  (d < 10)%nat -> digit_char d <> "x"%char /\ digit_char d <> "X"%char.
Proof. revert d. apply digit_char_cases; split; discriminate. Qed.

(** The text after the first digit of a run that is followed by a benign
    tail does not begin with [x]. *)
Lemma digits_then_benign (ds : list nat) (rest : string) :
  is_digits ds -> benign_tail rest ->
  match (digits_string ds ++ rest)%string with
  | EmptyString => True
  | String c _ => c <> "x"%char /\ c <> "X"%char
  end
  /\ match (digits_string ds ++ rest)%string with
     | EmptyString => True
     | String c _ => True
     end.
Proof.
  intros Hds Hb. split; [|destruct (_ ++ _)%string; exact I].
  destruct Hds as [|d ds Hd _].
  - cbn [digits_string String.append]. destruct rest; [exact I|].
    destruct Hb as (_ & Hx & HX). split; assumption.
  - cbn [digits_string String.append]. apply digit_char_not_x. exact Hd.
Qed.

Lemma take_sign_digit (d : nat) (s : string) :
  (d < 10)%nat ->
  App.take_sign (String (digit_char d) s) = (false, String (digit_char d) s).
Proof. revert d. apply digit_char_cases; reflexivity. Qed.

(** [parseInt] on a run of decimal digits and a benign tail. *)
Lemma parseInt_digits (ds : list nat) (rest : string) :
  is_digits ds -> ds <> [] -> benign_tail rest ->
  App.parseInt (digits_string ds ++ rest)%string
  = Num (IZR (digits_value ds 0)).
Proof.
  intros Hds Hne Hb. destruct Hds as [|d ds Hd Hds]; [contradiction|].
  unfold App.parseInt. cbn [digits_string String.append App.trim_start].
  rewrite (is_space_digit_char d Hd), (take_sign_digit d _ Hd).
  rewrite (no_hex_prefix _ _ d _ Hd)
    by (apply (digits_then_benign ds rest Hds Hb)).
  change (String (digit_char d) (digits_string ds ++ rest)%string)
    with (digits_string (d :: ds) ++ rest)%string.
  rewrite take_digits_digits.
  - reflexivity.
  - constructor; assumption.
  - destruct rest; [exact I | apply Hb].
Qed.

Lemma parseInt_negative_digits (ds : list nat) (rest : string) :
  is_digits ds -> ds <> [] -> benign_tail rest ->
  App.parseInt (String "-" (digits_string ds ++ rest))%string
  = Num (IZR (- digits_value ds 0)).
Proof.
  intros Hds Hne Hb. destruct Hds as [|d ds Hd Hds]; [contradiction|].
  unfold App.parseInt.
  change (App.take_sign (App.trim_start
            (String "-" (digits_string (d :: ds) ++ rest)%string)))
    with (true, (digits_string (d :: ds) ++ rest)%string).
  cbn [digits_string String.append].
  rewrite (no_hex_prefix _ _ d _ Hd)
    by (apply (digits_then_benign ds rest Hds Hb)).
  change (String (digit_char d) (digits_string ds ++ rest)%string)
    with (digits_string (d :: ds) ++ rest)%string.
  rewrite take_digits_digits.
  - reflexivity.
  - constructor; assumption.
  - destruct rest; [exact I | apply Hb].
Qed.

Lemma string_app_nil (s : string) : (s ++ "")%string = s.
Proof. induction s as [|c s IH]; [reflexivity|]. cbn. rewrite IH. reflexivity. Qed.

Lemma take_digits_all (ds : list nat) (acc : Z) (count : nat) :
  is_digits ds ->
  App.take_digits App.digit_of 10 (digits_string ds) acc count
  = (digits_value ds acc, (count + length ds)%nat, EmptyString).
Proof.
  intros Hds. rewrite <- (string_app_nil (digits_string ds)) at 1.
  apply take_digits_digits; [exact Hds | exact I].
Qed.

Lemma digits_value_app (a b : list nat) (acc : Z) :
  digits_value (a ++ b) acc = digits_value b (digits_value a acc).
Proof.
  revert acc. induction a as [|d a IH]; intros acc; [reflexivity|].
  cbn [app digits_value]. apply IH.
Qed.

Lemma digits_string_app (a b : list nat) :
  digits_string (a ++ b) = (digits_string a ++ digits_string b)%string.
Proof.
  induction a as [|d a IH]; [reflexivity|].
  cbn [app digits_string String.append]. rewrite IH. reflexivity.
Qed.

Lemma decimal_value_neg (m : Z) (n : nat) :
  App.decimal_value m (0 - Z.of_nat n) = (IZR m / 10 ^ n)%R.
Proof.
  unfold App.decimal_value. destruct n as [|k].
  - replace (0 - Z.of_nat 0)%Z with 0%Z by reflexivity.
    change (0 <=? 0)%Z with true. cbv iota.
    rewrite Z.pow_0_r, Z.mul_1_r. rewrite pow_O. lra.
  - destruct (Z.leb_spec 0 (0 - Z.of_nat (S k))) as [H|_]; [lia|].
    replace (- (0 - Z.of_nat (S k)))%Z with (Z.of_nat (S k)) by lia.
    rewrite <- pow_IZR. reflexivity.
Qed.

Lemma prefix_Infinity_digit (d : nat) (s : string) :
  (d < 10)%nat -> String.prefix "Infinity" (String (digit_char d) s) = false.
Proof. revert d. apply digit_char_cases; reflexivity. Qed.

(** [parseFloat] on a decimal literal with a point. *)
Lemma parseFloat_decimal (ds1 ds2 : list nat) :
  is_digits ds1 -> ds1 <> [] -> is_digits ds2 ->
  App.parseFloat (decimal_text ds1 ds2)
  = Num (IZR (digits_value (ds1 ++ ds2) 0) / 10 ^ length ds2).
Proof.
  intros H1 Hne H2. destruct H1 as [|d ds Hd Hds]; [contradiction|].
  unfold App.parseFloat, decimal_text.
  cbn [digits_string String.append App.trim_start].
  rewrite (is_space_digit_char d Hd), (take_sign_digit d _ Hd).
  rewrite (prefix_Infinity_digit d _ Hd).
  change (String (digit_char d)
            (digits_string ds ++ String "." (digits_string ds2))%string)
    with (digits_string (d :: ds) ++ String "." (digits_string ds2))%string.
  rewrite take_digits_digits;
    [| constructor; assumption | reflexivity].
  cbn [length Nat.add]. cbv iota beta.
  rewrite (take_digits_all ds2 _ 0 H2).
  rewrite digits_value_app.
  destruct ds2 as [|d2 ds2]; cbn [length Nat.add digits_value];
    unfold App.signed, App.take_exponent;
    rewrite decimal_value_neg; reflexivity.
Qed.

Lemma list_of_string_app (a b : string) :
  list_ascii_of_string (a ++ b)%string
  = (list_ascii_of_string a ++ list_ascii_of_string b)%list.
Proof.
  induction a as [|c a IH]; [reflexivity|].
  cbn [String.append list_ascii_of_string app]. rewrite IH. reflexivity.
Qed.

Lemma string_of_list_app (a b : list ascii) :
  string_of_list_ascii (a ++ b)%list
  = (string_of_list_ascii a ++ string_of_list_ascii b)%string.
Proof.
  induction a as [|c a IH]; [reflexivity|].
  cbn [String.append string_of_list_ascii app]. rewrite IH. reflexivity.
Qed.

Lemma rev_string_app (a b : string) :
  App.rev_string (a ++ b)%string
  = (App.rev_string b ++ App.rev_string a)%string.
Proof.
  unfold App.rev_string.
  rewrite list_of_string_app, rev_app_distr, string_of_list_app. reflexivity.
Qed.

Lemma rev_string_involutive (s : string) :
  App.rev_string (App.rev_string s) = s.
Proof.
  unfold App.rev_string.
  rewrite list_ascii_of_string_of_list_ascii, rev_involutive.
  apply string_of_list_ascii_of_string.
Qed.

Lemma all_space_app (a b : string) :
  all_space (a ++ b)%string = all_space a && all_space b.
Proof.
  induction a as [|c a IH]; [reflexivity|].
  cbn [String.append all_space]. rewrite IH. apply andb_assoc.
Qed.

Lemma all_space_rev (s : string) :
  all_space (App.rev_string s) = all_space s.
Proof.
  induction s as [|c s IH]; [reflexivity|].
  change (String c s) with (String c EmptyString ++ s)%string at 1.
  rewrite rev_string_app, all_space_app, IH.
  change (App.rev_string (String c EmptyString)) with (String c EmptyString).
  cbn [all_space]. rewrite andb_true_r. apply andb_comm.
Qed.

Lemma trim_start_spaces (ws s : string) :
  all_space ws = true ->
  App.trim_start (ws ++ s)%string = App.trim_start s.
Proof.
  induction ws as [|c ws IH]; intros H; [reflexivity|].
  cbn [all_space] in H. apply andb_true_iff in H. destruct H as [Hc Hws].
  cbn [String.append App.trim_start]. rewrite Hc. exact (IH Hws).
Qed.

(** White space after a text that begins and ends with something else is
    all that [trim] removes. *)
Lemma trim_tail (body tail : string) :
  match body with
  | EmptyString => False
  | String c _ => App.is_space c = false
  end ->
  ends_nonspace body ->
  all_space tail = true ->
  App.trim (body ++ tail)%string = body.
Proof.
  intros Hb Hr Ht. unfold App.trim.
  assert (H1 : App.trim_start (body ++ tail)%string = (body ++ tail)%string).
  { destruct body as [|c b]; [contradiction|].
    cbn [String.append App.trim_start]. rewrite Hb. reflexivity. }
  rewrite H1, rev_string_app, trim_start_spaces
    by (rewrite all_space_rev; exact Ht).
  unfold ends_nonspace in Hr.
  destruct (App.rev_string body) as [|c r] eqn:E; [contradiction|].
  cbn [App.trim_start]. rewrite Hr, <- E. apply rev_string_involutive.
Qed.

Lemma ends_nonspace_app (a b : string) :
  ends_nonspace b -> ends_nonspace (a ++ b)%string.
Proof.
  unfold ends_nonspace. rewrite rev_string_app.
  destruct (App.rev_string b) as [|c r]; [contradiction|].
  cbn [String.append]. trivial.
Qed.

Lemma ends_nonspace_cons (c : ascii) (s : string) :
  ends_nonspace s -> ends_nonspace (String c s).
Proof. exact (ends_nonspace_app (String c EmptyString) s). Qed.

Lemma ends_nonspace_digits (ds : list nat) :
  is_digits ds -> ds <> [] -> ends_nonspace (digits_string ds).
Proof.
  intros Hds Hne. destruct (exists_last Hne) as (l & d & ->).
  apply Forall_app in Hds. destruct Hds as [_ Hd].
  apply Forall_inv in Hd.
  rewrite digits_string_app. apply ends_nonspace_app.
  unfold ends_nonspace.
  change (App.rev_string (digits_string [d]))
    with (String (digit_char d) EmptyString).
  apply is_space_digit_char. exact Hd.
Qed.

Lemma ends_nonspace_cents (negative : bool) (ds : list nat) :
  is_digits ds -> ds <> [] -> ends_nonspace (cents_text negative ds).
Proof.
  intros Hds Hne. destruct negative; cbn [cents_text].
  - apply (ends_nonspace_app (String "-" EmptyString)).
    apply ends_nonspace_digits; assumption.
  - apply ends_nonspace_digits; assumption.
Qed.

Lemma has_char_cents (c : ascii) (negative : bool) (ds : list nat) :
  App.digit_of c = None -> c <> "-"%char -> is_digits ds ->
  has_char c (cents_text negative ds) = false.
Proof.
  intros Hc Hm Hds. destruct negative; cbn [cents_text has_char].
  - rewrite (has_char_digits c ds Hc Hds).
    destruct (Ascii.eqb_spec "-"%char c) as [E|]; [|reflexivity].
    exfalso. apply Hm. symmetry. exact E.
  - apply has_char_digits; assumption.
Qed.

Lemma has_char_decimal (c : ascii) (ds1 ds2 : list nat) :
  App.digit_of c = None -> c <> "."%char -> is_digits ds1 -> is_digits ds2 ->
  has_char c (decimal_text ds1 ds2) = false.
Proof.
  intros Hc Hm H1 H2. unfold decimal_text.
  rewrite has_char_app. cbn [has_char].
  rewrite (has_char_digits c ds1 Hc H1), (has_char_digits c ds2 Hc H2).
  destruct (Ascii.eqb_spec "."%char c) as [E|]; [|reflexivity].
  exfalso. apply Hm. symmetry. exact E.
Qed.

(** The parts of a well-formed tuner line. *)
Lemma tuner_line_parts (ds1 ds2 : list nat) (name : string) (negative : bool)
    (ds3 : list nat) (tail : string) :
  is_digits ds1 -> is_digits ds2 -> plain_name name ->
  is_digits ds3 -> ds3 <> [] -> all_space tail = true ->
  App.split "|" (App.trim (tuner_line ds1 ds2 name negative ds3 tail))
  = [freq_part ds1 ds2; note_part name; cents_part negative ds3].
Proof.
  intros H1 H2 [Hbar _] H3 Hne Ht. unfold tuner_line.
  rewrite trim_tail; [| reflexivity | | exact Ht].
  - unfold tuner_body.
    rewrite split_at_char
      by (apply (has_char_decimal "|" ds1 ds2);
          [reflexivity | discriminate | assumption | assumption]).
    rewrite split_at_char by exact Hbar.
    rewrite split_no_char
      by (apply (has_char_cents "|" negative ds3);
          [reflexivity | discriminate | assumption]).
    reflexivity.
  - unfold tuner_body, cents_part.
    apply ends_nonspace_app, ends_nonspace_cons, ends_nonspace_app,
      ends_nonspace_cons, ends_nonspace_app, ends_nonspace_cents;
      assumption.
Qed.

Lemma startsWith_app (p s : string) :
  App.startsWith (p ++ s)%string p = true.
Proof.
  unfold App.startsWith. induction p as [|c p IH].
  - destruct s; reflexivity.
  - cbn [String.append String.prefix].
    destruct (ascii_dec c c) as [_|Hn]; [exact IH | contradiction].
Qed.

Lemma startsWith_app_l (p a b : string) :
  App.startsWith a p = true -> App.startsWith (a ++ b)%string p = true.
Proof.
  unfold App.startsWith. revert a. induction p as [|c p IH]; intros a H.
  - destruct (a ++ b)%string; reflexivity.
  - destruct a as [|x a]; [discriminate|].
    cbn [String.append String.prefix] in H |- *.
    destruct (ascii_dec c x); [exact (IH a H) | discriminate].
Qed.

Lemma field_freq (ds1 ds2 : list nat) (ps : list string) :
  is_digits ds1 -> is_digits ds2 ->
  App.field "FREQ:" (freq_part ds1 ds2 :: ps) = Some (decimal_text ds1 ds2).
Proof.
  intros H1 H2. unfold App.field.
  assert (E : App.startsWith (freq_part ds1 ds2) "FREQ:" = true)
    by apply startsWith_app.
  cbn [find]. rewrite E.
  change (freq_part ds1 ds2)
    with ("FREQ" ++ String ":" (decimal_text ds1 ds2))%string.
  rewrite split_at_char by reflexivity.
  rewrite split_no_char
    by (apply has_char_decimal; [reflexivity | discriminate | assumption
                                | assumption]).
  reflexivity.
Qed.

Lemma field_note (ds1 ds2 : list nat) (name : string) (ps : list string) :
  plain_name name ->
  App.field "NOTE:" (freq_part ds1 ds2 :: note_part name :: ps) = Some name.
Proof.
  intros [_ Hcolon]. unfold App.field.
  assert (E1 : App.startsWith (freq_part ds1 ds2) "NOTE:" = false)
    by reflexivity.
  assert (E2 : App.startsWith (note_part name) "NOTE:" = true)
    by apply startsWith_app.
  cbn [find]. rewrite E1, E2.
  change (note_part name) with ("NOTE" ++ String ":" name)%string.
  rewrite split_at_char by reflexivity.
  rewrite (split_no_char ":" name Hcolon). reflexivity.
Qed.

Lemma field_cents (ds1 ds2 : list nat) (name : string) (negative : bool)
    (ds3 : list nat) (ps : list string) :
  is_digits ds3 ->
  App.field "CENTS:"
    (freq_part ds1 ds2 :: note_part name :: cents_part negative ds3 :: ps)
  = Some (cents_text negative ds3).
Proof.
  intros H3. unfold App.field.
  assert (E1 : App.startsWith (freq_part ds1 ds2) "CENTS:" = false)
    by reflexivity.
  assert (E2 : App.startsWith (note_part name) "CENTS:" = false)
    by reflexivity.
  assert (E3 : App.startsWith (cents_part negative ds3) "CENTS:" = true)
    by apply startsWith_app.
  cbn [find]. rewrite E1, E2, E3.
  change (cents_part negative ds3)
    with ("CENTS" ++ String ":" (cents_text negative ds3))%string.
  rewrite split_at_char by reflexivity.
  rewrite split_no_char
    by (apply has_char_cents; [reflexivity | discriminate | assumption]).
  reflexivity.
Qed.

Lemma parseInt_cents (negative : bool) (ds : list nat) :
  is_digits ds -> ds <> [] ->
  App.parseInt (cents_text negative ds)
  = Num (IZR (App.signed negative (digits_value ds 0))).
Proof.
  intros Hds Hne. destruct negative; cbn [cents_text App.signed].
  - rewrite <- (string_app_nil (digits_string ds)).
    apply parseInt_negative_digits; [assumption | assumption | exact I].
  - rewrite <- (string_app_nil (digits_string ds)).
    apply parseInt_digits; [assumption | assumption | exact I].
Qed.

Lemma or_default_nonempty (s d : string) :
  s <> EmptyString -> App.or_default (Some s) d = s.
Proof. destruct s; [contradiction | reflexivity]. Qed.





(** ** A stopped metronome *)

Lemma stopMetronome_view (w : world) :
  isMetronomePlaying (stopMetronome w) = false
  /\ beats (stopMetronome w) = beats w
  /\ (scheduling_loops (stopMetronome w) <= scheduling_loops w)%nat.
Proof.
  unfold stopMetronome. cbv zeta.
  destruct (truthy _) as [id|]; repeat (split; [reflexivity|]).
  - exact (scheduling_loops_clear_le id w).
  - apply Nat.le_refl.
Qed.

Lemma detectPitch_beats (buf : list num) (sampleRate : num) (w : world) :
  beats (detectPitch buf sampleRate w) = beats w.
Proof.
  unfold detectPitch. destruct (analyser w); [|reflexivity]. cbv zeta.
  destruct (autoCorrelate buf sampleRate >? Num (-1));
    [destruct (tunerCallback w)|]; reflexivity.
Qed.

Lemma stopped_step (fuel : nat) (e : event) (w w' : world) :
  isMetronomePlaying w = false ->
  not_a_start e ->
  step fuel e w = Some w' ->
  isMetronomePlaying w' = false
  /\ beats w' = beats w
  /\ (scheduling_loops w' <= scheduling_loops w)%nat.
Proof.
  intros Hp Hns Hstep. destruct e; cbn [step] in Hstep;
    cbn [not_a_start] in Hns; try contradiction.
  - (* stop *)
    inversion Hstep; subst w'. apply stopMetronome_view.
  - (* tempo *)
    inversion Hstep; subst w'. repeat split; [exact Hp | apply Nat.le_refl].
  - (* a timeout fires *)
    unfold take_timeout in Hstep.
    destruct (find _ (timeouts w)) as [t|];
      [|inversion Hstep; subst w'; repeat split;
        [exact Hp | apply Nat.le_refl]].
    pose proof (scheduling_loops_clear_le id w) as Hle.
    destruct (timeout_task t).
    + unfold scheduler in Hstep.
      destruct (scheduler_loop fuel now (clearTimeout id w)) as [w1|] eqn:El;
        [|discriminate].
      destruct (scheduler_loop_effect _ _ _ _ El)
        as (_ & Hpl & _ & _ & Hb & _ & Hs & _).
      inversion Hstep; subst w'. unfold scheduler_rearm.
      change (isMetronomePlaying (clearTimeout id w))
        with (isMetronomePlaying w) in Hpl.
      rewrite Hp in Hpl. rewrite Hpl.
      split; [exact Hpl|]. split; [exact Hb|]. rewrite Hs. exact Hle.
    + inversion Hstep; subst w'. unfold beat_notify.
      change (isMetronomePlaying (clearTimeout id w))
        with (isMetronomePlaying w).
      rewrite Hp. split; [exact Hp|]. split; [reflexivity | exact Hle].
  - (* the tuner starts *)
    inversion Hstep; subst w'.
    destruct (startTuner_metronome_view callback granted buf sampleRate w)
      as (Ht & Hpl & _).
    split; [rewrite Hpl; exact Hp|]. split.
    + unfold startTuner. cbv zeta. destruct granted; [|reflexivity].
      rewrite detectPitch_beats. reflexivity.
    + unfold scheduling_loops. rewrite Ht. apply Nat.le_refl.
  - (* the tuner stops *)
    inversion Hstep; subst w'. unfold stopTuner. cbv zeta.
    destruct (truthy _); repeat split; try exact Hp; apply Nat.le_refl.
  - (* a frame *)
    destruct (existsb _ _);
      [|inversion Hstep; subst w'; repeat split;
        [exact Hp | apply Nat.le_refl]].
    inversion Hstep; subst w'.
    destruct (detectPitch_metronome_view buf sampleRate
                (cancelAnimationFrame id w)) as (Ht & Hpl & _).
    split; [rewrite Hpl; exact Hp|]. split.
    + rewrite detectPitch_beats. reflexivity.
    + unfold scheduling_loops. rewrite Ht. apply Nat.le_refl.
Qed.

(** X17.  A stopped metronome reports no beat.  Once the playing flag is
    down, whatever fires or is called other than [startMetronome] (timeouts
    still pending from the lookahead, ticks of a loop that was never
    cancelled, tempo changes, the tuner) leaves the flag down, calls
    [onBeat] not once, and arms no new polling timeout. *)
Theorem stopped_reports_no_beat (fuel : nat) (es : list event) :
  forall w w' : world,
  isMetronomePlaying w = false ->
  List.Forall not_a_start es ->
  run fuel es w = Some w' ->
  isMetronomePlaying w' = false
  /\ beats w' = beats w
  /\ (scheduling_loops w' <= scheduling_loops w)%nat.
Proof.
  induction es as [|e es IH]; intros w w' Hp Hns Hrun.
  - inversion Hrun; subst w'. repeat split; [exact Hp | apply Nat.le_refl].
  - cbn [run] in Hrun. inversion Hns as [|e0 es0 He Hes]; subst.
    destruct (step fuel e w) as [w1|] eqn:Es; [|discriminate].
    destruct (stopped_step fuel e w w1 Hp He Es) as (Hp1 & Hb1 & Hl1).
    destruct (IH w1 w' Hp1 Hes Hrun) as (Hp' & Hb' & Hl').
    split; [exact Hp'|]. split; [congruence | lia].
Qed.

Lemma stopped_reports_no_beat_witness :
  let w :=
    mk_world (Num 10) None false (Num 120) (Some 7%nat) 2
             false false None None false
             [mk_timeout 1 (Num 100) (BeatNotify 1)] [] 2
             [(1%Z, Num 10)] [] [] in
  let w' := updateBPM (Num 90) (beat_notify 1 (clearTimeout 1 w)) in
  isMetronomePlaying w' = false
  /\ beats w' = beats w
  /\ (scheduling_loops w' <= scheduling_loops w)%nat.
Proof.
  intros w w'.
  apply (stopped_reports_no_beat 1 [ETimeout 1 (Num 0); EUpdateBPM (Num 90)]
           w w').
  - reflexivity.
  - repeat constructor.
  - reflexivity.
Defined.

(** ** The application in front of the engine *)

Lemma listeners_keeps (before after : world) (u : Dispatch.cells) :
  Dispatch.mode (Dispatch.listeners before after u) = Dispatch.mode u
  /\ Dispatch.activeTab (Dispatch.listeners before after u)
     = Dispatch.activeTab u
  /\ Dispatch.bpm (Dispatch.listeners before after u) = Dispatch.bpm u
  /\ Dispatch.isMetroPlaying (Dispatch.listeners before after u)
     = Dispatch.isMetroPlaying u
  /\ Dispatch.isTunerActive (Dispatch.listeners before after u)
     = Dispatch.isTunerActive u.
Proof.
  unfold Dispatch.listeners. cbv zeta.
  destruct (last (drop (length (beats before)) (beats after)));
    destruct (last (drop (length (pitches before)) (pitches after)))
      as [[f [name c]]|]; repeat split.
Qed.

Lemma rearm_playing (w : world) :
  isMetronomePlaying (scheduler_rearm w) = isMetronomePlaying w.
Proof.
  unfold scheduler_rearm. destruct (isMetronomePlaying w) eqn:E;
    [exact E | exact E].
Qed.

(** The events of the host leave the playing flag as it is. *)
Lemma host_step_playing (fuel : nat) (e : event) (w w' : world) :
  match e with
  | ETimeout _ _ | EFrame _ _ _ => True
  | _ => False
  end ->
  step fuel e w = Some w' ->
  isMetronomePlaying w' = isMetronomePlaying w.
Proof.
  intros He Hstep. destruct e; try contradiction; cbn [step] in Hstep.
  - unfold take_timeout in Hstep.
    destruct (find _ (timeouts w)) as [t|];
      [|inversion Hstep; reflexivity].
    destruct (timeout_task t).
    + unfold scheduler in Hstep.
      destruct (scheduler_loop fuel now (clearTimeout id w)) as [w1|] eqn:El;
        [|discriminate].
      destruct (scheduler_loop_effect _ _ _ _ El) as (_ & Hpl & _).
      inversion Hstep; subst w'. rewrite rearm_playing. exact Hpl.
    + inversion Hstep; subst w'. unfold beat_notify.
      destruct (isMetronomePlaying (clearTimeout id w));
        [destruct (beatCallback (clearTimeout id w))|]; reflexivity.
  - destruct (existsb _ _); inversion Hstep; subst w'; [|reflexivity].
    destruct (detectPitch_metronome_view buf sampleRate
                (cancelAnimationFrame id w)) as (_ & Hpl & _).
    rewrite Hpl. reflexivity.
Qed.

Lemma stopTuner_playing (w : world) :
  isMetronomePlaying (stopTuner w) = isMetronomePlaying w.
Proof. unfold stopTuner. cbv zeta. destruct (truthy _); reflexivity. Qed.

Lemma start_sets_playing (tempo : num) (onBeat : nat) (now : num) (w : world) :
  isMetronomePlaying
    (scheduler_rearm (startMetronome_assign tempo onBeat now w)) = true.
Proof. rewrite rearm_playing. reflexivity. Qed.

Lemma coupled_start_stop (fuel : nat) (now : num) (s s' : Dispatch.state) :
  Dispatch.coupled s ->
  Dispatch.handleStartStopMetronome fuel now s = Some s' ->
  Dispatch.coupled s'.
Proof.
  intros (Hm & Hp & Hone & Hw) H.
  unfold Dispatch.handleStartStopMetronome in H. cbv zeta in H.
  rewrite Hm in H.
  destruct (Dispatch.isMetroPlaying (Dispatch.ui s)) eqn:Ep;
    cbn [negb] in H.
  - (* stop *)
    inversion H; subst s'. unfold Dispatch.coupled.
    cbn [Dispatch.ui Dispatch.engine Dispatch.link].
    split; [exact Hm|]. split.
    + destruct (stopMetronome_view (Dispatch.engine s)) as (-> & _).
      reflexivity.
    + split; [|exact Hw].
      apply (one_loop_step fuel EStopMetronome (Dispatch.engine s));
        [exact Hone | exact I | reflexivity].
  - (* start *)
    rewrite startMetronome_any in H. inversion H; subst s'.
    unfold Dispatch.coupled.
    cbn [Dispatch.ui Dispatch.engine Dispatch.link].
    match goal with
    | |- context [Dispatch.listeners ?a ?b ?u] =>
        destruct (listeners_keeps a b u) as (-> & _ & _ & -> & _)
    end.
    split; [exact Hm|]. split.
    + rewrite start_sets_playing. reflexivity.
    + split; [|exact Hw].
      apply (one_loop_step fuel
               (EStartMetronome (Dispatch.bpm (Dispatch.ui s))
                  Dispatch.onBeat now) (Dispatch.engine s));
        [exact Hone | symmetry; exact Hp | apply startMetronome_any].
Qed.

Lemma coupled_bpm (fuel : nat) (newBpm : num) (s : Dispatch.state) :
  Dispatch.coupled s -> Dispatch.coupled (Dispatch.handleBPMChange newBpm s).
Proof.
  intros (Hm & Hp & Hone & Hw). unfold Dispatch.handleBPMChange. cbv zeta.
  rewrite Hm. unfold Dispatch.coupled.
  cbn [Dispatch.ui Dispatch.engine Dispatch.link].
  split; [exact Hm|]. split; [exact Hp|]. split; [|exact Hw].
  apply (one_loop_step fuel (EUpdateBPM newBpm) (Dispatch.engine s));
    [exact Hone | exact I | reflexivity].
Qed.

Lemma coupled_tuner (fuel : nat) (granted : bool) (buf : list num)
    (sampleRate : num) (s : Dispatch.state) :
  Dispatch.coupled s ->
  Dispatch.coupled (Dispatch.handleToggleTuner granted buf sampleRate s).
Proof.
  intros (Hm & Hp & Hone & Hw). unfold Dispatch.handleToggleTuner.
  cbv zeta. rewrite Hm.
  destruct (Dispatch.isTunerActive (Dispatch.ui s)); cbn [negb];
    unfold Dispatch.coupled;
    cbn [Dispatch.ui Dispatch.engine Dispatch.link].
  - split; [exact Hm|]. split.
    + rewrite stopTuner_playing. exact Hp.
    + split; [|exact Hw].
      apply (one_loop_step fuel EStopTuner (Dispatch.engine s));
        [exact Hone | exact I | reflexivity].
  - match goal with
    | |- context [Dispatch.listeners ?a ?b ?u] =>
        destruct (listeners_keeps a b u) as (-> & _ & _ & -> & _)
    end.
    split; [exact Hm|]. split.
    + destruct (startTuner_metronome_view Dispatch.onPitch granted buf
                  sampleRate (Dispatch.engine s)) as (_ & -> & _).
      exact Hp.
    + split; [|exact Hw].
      apply (one_loop_step fuel
               (EStartTuner Dispatch.onPitch granted buf sampleRate)
               (Dispatch.engine s));
        [exact Hone | exact I | reflexivity].
Qed.

Lemma coupled_host (fuel : nat) (e : event) (s s' : Dispatch.state) :
  match e with
  | ETimeout _ _ | EFrame _ _ _ => True
  | _ => False
  end ->
  Dispatch.coupled s ->
  Dispatch.host fuel e s = Some s' ->
  Dispatch.coupled s'.
Proof.
  intros He (Hm & Hp & Hone & Hw) H. unfold Dispatch.host in H.
  destruct (step fuel e (Dispatch.engine s)) as [w|] eqn:Es; [|discriminate].
  inversion H; subst s'. unfold Dispatch.coupled.
  cbn [Dispatch.ui Dispatch.engine Dispatch.link].
  destruct (listeners_keeps (Dispatch.engine s) w (Dispatch.ui s))
    as (-> & _ & _ & -> & _).
  split; [exact Hm|]. split.
  - rewrite (host_step_playing fuel e _ _ He Es). exact Hp.
  - split; [|exact Hw].
    apply (one_loop_step fuel e (Dispatch.engine s)); [exact Hone | | exact Es].
    destruct e; try contradiction; exact I.
Qed.

Lemma coupled_same_cells (s : Dispatch.state) (u : Dispatch.cells)
    (l : Bluetooth.service) :
  Dispatch.mode u = Dispatch.mode (Dispatch.ui s) ->
  Dispatch.isMetroPlaying u = Dispatch.isMetroPlaying (Dispatch.ui s) ->
  Bluetooth.written l = Bluetooth.written (Dispatch.link s) ->
  Dispatch.coupled s ->
  Dispatch.coupled (Dispatch.mk_state u (Dispatch.engine s) l).
Proof.
  intros Hm Hp Hw (Hm0 & Hp0 & Hone & Hw0). unfold Dispatch.coupled.
  cbn [Dispatch.ui Dispatch.engine Dispatch.link].
  rewrite Hm, Hp, Hw.
  split; [exact Hm0|]. split; [exact Hp0|]. split; [exact Hone | exact Hw0].
Qed.

Lemma coupled_handle (fuel : nat) (a : Dispatch.action)
    (s s' : Dispatch.state) :
  Dispatch.coupled s ->
  Dispatch.not_bluetooth a ->
  Dispatch.handle fuel a s = Some s' ->
  Dispatch.coupled s'.
Proof.
  intros Hc Hnb H. destruct a; cbn [Dispatch.handle] in H;
    cbn [Dispatch.not_bluetooth] in Hnb; try contradiction.
  - (* the error is dismissed *)
    inversion H; subst s'. apply coupled_same_cells; try reflexivity.
    exact Hc.
  - (* play button *)
    destruct (Dispatch.activeTab (Dispatch.ui s));
      [exact (coupled_start_stop fuel now s s' Hc H)
      | inversion H; subst s'; exact Hc].
  - (* slider *)
    destruct (Dispatch.activeTab (Dispatch.ui s)); inversion H; subst s';
      [apply (coupled_bpm fuel) | ]; exact Hc.
  - destruct (Dispatch.activeTab (Dispatch.ui s)); inversion H; subst s';
      [apply (coupled_bpm fuel) | ]; exact Hc.
  - destruct (Dispatch.activeTab (Dispatch.ui s)); inversion H; subst s';
      [apply (coupled_bpm fuel) | ]; exact Hc.
  - (* tuner button *)
    destruct (Dispatch.activeTab (Dispatch.ui s)); inversion H; subst s';
      [| apply (coupled_tuner fuel)]; exact Hc.
  - (* tab bar *)
    destruct (Dispatch.same_tab t (Dispatch.activeTab (Dispatch.ui s)));
      [inversion H; subst s'; exact Hc|].
    unfold Dispatch.tab_effect in H.
    cbn [Dispatch.ui] in H.
    assert (Hc1 : Dispatch.coupled
              (Dispatch.mk_state (Dispatch.setActiveTab t (Dispatch.ui s))
                 (Dispatch.engine s) (Dispatch.link s)))
      by (apply coupled_same_cells; try reflexivity; exact Hc).
    set (s1 := Dispatch.mk_state (Dispatch.setActiveTab t (Dispatch.ui s))
                 (Dispatch.engine s) (Dispatch.link s)) in *.
    destruct (if Dispatch.isMetroPlaying (Dispatch.setActiveTab t (Dispatch.ui s))
              then Dispatch.handleStartStopMetronome fuel now s1
              else Some s1) as [s2|] eqn:E2; [|discriminate].
    assert (Hc2 : Dispatch.coupled s2).
    { destruct (Dispatch.isMetroPlaying
                  (Dispatch.setActiveTab t (Dispatch.ui s))).
      - exact (coupled_start_stop fuel now s1 s2 Hc1 E2).
      - inversion E2; subst s2. exact Hc1. }
    match type of H with
    | context [if ?c then Dispatch.handleToggleTuner _ _ _ _ else _] =>
        destruct c
    end; inversion H; subst s'; [apply (coupled_tuner fuel) | ]; exact Hc2.
  - (* a timeout fires *)
    exact (coupled_host fuel (ETimeout id now) s s' I Hc H).
  - exact (coupled_host fuel (EFrame id buf sampleRate) s s' I Hc H).
  - (* the link drops *)
    inversion H; subst s'. apply coupled_same_cells; try reflexivity.
    exact Hc.
  - (* telemetry *)
    destruct (Bluetooth.handleCharacteristicValueChanged value
                (Dispatch.link s)) as [data|];
      inversion H; subst s'; [|exact Hc].
    apply coupled_same_cells; try reflexivity; [| | exact Hc];
      unfold Dispatch.telemetry; destruct (App.onDataReceived data);
      reflexivity.
Qed.

(** X18.  In standalone mode the play button and the engine never disagree.
    From a state in which they agree, the engine runs at most its one
    polling loop and nothing was sent (the state after the first render is
    one), whatever is clicked, fires or arrives, the Bluetooth button
    apart: the application only starts the metronome when it is stopped,
    the engine keeps one polling loop when it plays and none when it does
    not, and nothing is written to the link. *)
Theorem standalone_coupled (fuel : nat) (acts : list Dispatch.action) :
  forall s s' : Dispatch.state,
  Dispatch.coupled s ->
  List.Forall Dispatch.not_bluetooth acts ->
  Dispatch.handle_all fuel acts s = Some s' ->
  Dispatch.coupled s'
  /\ scheduling_loops (Dispatch.engine s')
     = (if Dispatch.isMetroPlaying (Dispatch.ui s') then 1 else 0)%nat.
Proof.
  induction acts as [|a acts IH]; intros s s' Hc Hnb Hrun.
  - inversion Hrun; subst s'. split; [exact Hc|].
    destruct Hc as (_ & Hp & (_ & Hl) & _). rewrite Hp.
    destruct (isMetronomePlaying (Dispatch.engine s));
      [destruct Hl as [Hl _]|]; exact Hl.
  - cbn [Dispatch.handle_all] in Hrun.
    inversion Hnb as [|a0 acts0 Ha Hacts]; subst.
    destruct (Dispatch.handle fuel a s) as [s1|] eqn:E; [|discriminate].
    apply (IH s1 s' (coupled_handle fuel a s s1 Hc Ha E) Hacts Hrun).
Qed.

Lemma coupled_init : Dispatch.coupled Dispatch.state_init.
Proof.
  split; [reflexivity|]. split; [reflexivity|].
  split; [exact one_loop_init | reflexivity].
Qed.

Lemma standalone_coupled_witness :
  exists s' : Dispatch.state,
    Dispatch.handle_all 1
      [Dispatch.ClickStartStop (Num 0); Dispatch.ClickPlus;
       Dispatch.ClickTab Dispatch.tuner (Num 1) [] (Num 44100)]
      Dispatch.state_init = Some s'
    /\ Dispatch.coupled s'
    /\ scheduling_loops (Dispatch.engine s')
       = (if Dispatch.isMetroPlaying (Dispatch.ui s') then 1 else 0)%nat.
Proof.
  destruct (Dispatch.handle_all 1
              [Dispatch.ClickStartStop (Num 0); Dispatch.ClickPlus;
               Dispatch.ClickTab Dispatch.tuner (Num 1) [] (Num 44100)]
              Dispatch.state_init) as [s'|] eqn:E.
  - exists s'. split; [reflexivity|].
    apply (standalone_coupled 1
             [Dispatch.ClickStartStop (Num 0); Dispatch.ClickPlus;
              Dispatch.ClickTab Dispatch.tuner (Num 1) [] (Num 44100)]
             Dispatch.state_init s');
      [exact coupled_init | repeat constructor | exact E].
  - exfalso. cbn [Dispatch.handle_all Dispatch.handle] in E.
    cbn [Dispatch.state_init Dispatch.ui Dispatch.cells_init
         Dispatch.activeTab] in E.
    unfold Dispatch.handleStartStopMetronome in E. cbv zeta in E.
    cbn [Dispatch.ui Dispatch.mode Dispatch.isMetroPlaying negb
         Dispatch.engine Dispatch.bpm] in E.
    rewrite startMetronome_any in E.
    cbn in E. discriminate E.
Defined.

(** What each handler does to the tab and to the two switches. *)
Lemma start_stop_cells (fuel : nat) (now : num) (s s' : Dispatch.state) :
  Dispatch.handleStartStopMetronome fuel now s = Some s' ->
  Dispatch.mode (Dispatch.ui s') = Dispatch.mode (Dispatch.ui s)
  /\ Dispatch.activeTab (Dispatch.ui s') = Dispatch.activeTab (Dispatch.ui s)
  /\ Dispatch.isMetroPlaying (Dispatch.ui s')
     = negb (Dispatch.isMetroPlaying (Dispatch.ui s))
  /\ Dispatch.isTunerActive (Dispatch.ui s')
     = Dispatch.isTunerActive (Dispatch.ui s).
Proof.
  unfold Dispatch.handleStartStopMetronome. cbv zeta. intros H.
  destruct (Dispatch.mode (Dispatch.ui s)) eqn:Em.
  - destruct (negb (Dispatch.isMetroPlaying (Dispatch.ui s))) eqn:En.
    + destruct (startMetronome _ _ _ _ _) as [w|]; [|discriminate].
      inversion H; subst s'. cbn [Dispatch.ui].
      match goal with
      | |- context [Dispatch.listeners ?a ?b ?u] =>
          destruct (listeners_keeps a b u) as (-> & -> & _ & -> & ->)
      end.
      repeat split; assumption.
    + inversion H; subst s'. repeat split; assumption.
  - inversion H; subst s'. repeat split; assumption.
Qed.

Lemma tuner_cells (granted : bool) (buf : list num) (sampleRate : num)
    (s : Dispatch.state) :
  let s' := Dispatch.handleToggleTuner granted buf sampleRate s in
  Dispatch.mode (Dispatch.ui s') = Dispatch.mode (Dispatch.ui s)
  /\ Dispatch.activeTab (Dispatch.ui s') = Dispatch.activeTab (Dispatch.ui s)
  /\ Dispatch.isMetroPlaying (Dispatch.ui s')
     = Dispatch.isMetroPlaying (Dispatch.ui s)
  /\ Dispatch.isTunerActive (Dispatch.ui s')
     = negb (Dispatch.isTunerActive (Dispatch.ui s)).
Proof.
  cbv zeta. unfold Dispatch.handleToggleTuner. cbv zeta.
  destruct (Dispatch.mode (Dispatch.ui s)) eqn:Em.
  - destruct (negb (Dispatch.isTunerActive (Dispatch.ui s))) eqn:En.
    + cbn [Dispatch.ui].
      match goal with
      | |- context [Dispatch.listeners ?a ?b ?u] =>
          destruct (listeners_keeps a b u) as (-> & -> & _ & -> & ->)
      end.
      repeat split; assumption.
    + repeat split; assumption.
  - repeat split; assumption.
Qed.

Lemma bpm_cells (newBpm : num) (s : Dispatch.state) :
  let s' := Dispatch.handleBPMChange newBpm s in
  Dispatch.mode (Dispatch.ui s') = Dispatch.mode (Dispatch.ui s)
  /\ Dispatch.activeTab (Dispatch.ui s') = Dispatch.activeTab (Dispatch.ui s)
  /\ Dispatch.isMetroPlaying (Dispatch.ui s')
     = Dispatch.isMetroPlaying (Dispatch.ui s)
  /\ Dispatch.isTunerActive (Dispatch.ui s')
     = Dispatch.isTunerActive (Dispatch.ui s).
Proof.
  cbv zeta. unfold Dispatch.handleBPMChange. cbv zeta.
  destruct (Dispatch.mode (Dispatch.ui s)) eqn:Em; repeat split; assumption.
Qed.

Lemma bluetooth_cells (o : Bluetooth.connect_outcome) (write_ok : bool)
    (s : Dispatch.state) :
  let s' := Dispatch.handleBluetoothToggle o write_ok s in
  Dispatch.activeTab (Dispatch.ui s') = Dispatch.activeTab (Dispatch.ui s)
  /\ Dispatch.isMetroPlaying (Dispatch.ui s')
     = Dispatch.isMetroPlaying (Dispatch.ui s)
  /\ Dispatch.isTunerActive (Dispatch.ui s')
     = Dispatch.isTunerActive (Dispatch.ui s)
  /\ Dispatch.engine s' = Dispatch.engine s.
Proof.
  cbv zeta. unfold Dispatch.handleBluetoothToggle. cbv zeta.
  destruct (Dispatch.mode (Dispatch.ui s)); [|repeat split].
  destruct (Bluetooth.connect o (Dispatch.link s)) as [[|] l1];
    [|repeat split].
  destruct (Dispatch.activeTab (Dispatch.ui s)) eqn:Et;
    [destruct write_ok|]; cbn [Dispatch.ui Dispatch.engine];
    repeat split; cbn; assumption.
Qed.

Lemma telemetry_cells (data : string) (u : Dispatch.cells) :
  Dispatch.mode (Dispatch.telemetry data u) = Dispatch.mode u
  /\ Dispatch.activeTab (Dispatch.telemetry data u) = Dispatch.activeTab u
  /\ Dispatch.isMetroPlaying (Dispatch.telemetry data u)
     = Dispatch.isMetroPlaying u
  /\ Dispatch.isTunerActive (Dispatch.telemetry data u)
     = Dispatch.isTunerActive u.
Proof.
  unfold Dispatch.telemetry. destruct (App.onDataReceived data);
    repeat split.
Qed.

Lemma on_screen_same (s s' : Dispatch.state) :
  Dispatch.activeTab (Dispatch.ui s') = Dispatch.activeTab (Dispatch.ui s) ->
  Dispatch.isMetroPlaying (Dispatch.ui s')
  = Dispatch.isMetroPlaying (Dispatch.ui s) ->
  Dispatch.isTunerActive (Dispatch.ui s')
  = Dispatch.isTunerActive (Dispatch.ui s) ->
  Dispatch.on_screen s -> Dispatch.on_screen s'.
Proof.
  unfold Dispatch.on_screen. intros -> -> ->. trivial.
Qed.

Lemma on_screen_handle (fuel : nat) (a : Dispatch.action)
    (s s' : Dispatch.state) :
  Dispatch.on_screen s ->
  Dispatch.handle fuel a s = Some s' ->
  Dispatch.on_screen s'.
Proof.
  intros Hs H. destruct a; cbn [Dispatch.handle] in H.
  - inversion H; subst s'.
    destruct (bluetooth_cells outcome write_ok s) as (Ht & Hp & Ha & _).
    apply (on_screen_same s); assumption.
  - inversion H; subst s'. apply (on_screen_same s); [reflexivity .. | exact Hs].
  - destruct (Dispatch.activeTab (Dispatch.ui s)) eqn:Et;
      [|inversion H; subst s'; exact Hs].
    destruct (start_stop_cells fuel now s s' H) as (_ & Ht' & Hp' & Ha').
    destruct Hs as [_ Hs2]. unfold Dispatch.on_screen.
    rewrite Ht', Ha', Et. split; [reflexivity|].
    intros Ha. specialize (Hs2 Ha). rewrite Et in Hs2. discriminate.
  - destruct (Dispatch.activeTab (Dispatch.ui s)); inversion H; subst s';
      [|exact Hs].
    destruct (bpm_cells value s) as (_ & Ht & Hp & Ha).
    apply (on_screen_same s); assumption.
  - destruct (Dispatch.activeTab (Dispatch.ui s)); inversion H; subst s';
      [|exact Hs].
    match goal with
    | |- Dispatch.on_screen (Dispatch.handleBPMChange ?b s) =>
        destruct (bpm_cells b s) as (_ & Ht & Hp & Ha)
    end.
    apply (on_screen_same s); assumption.
  - destruct (Dispatch.activeTab (Dispatch.ui s)); inversion H; subst s';
      [|exact Hs].
    match goal with
    | |- Dispatch.on_screen (Dispatch.handleBPMChange ?b s) =>
        destruct (bpm_cells b s) as (_ & Ht & Hp & Ha)
    end.
    apply (on_screen_same s); assumption.
  - destruct (Dispatch.activeTab (Dispatch.ui s)) eqn:Et; inversion H;
      subst s'; [exact Hs|].
    destruct (tuner_cells granted buf sampleRate s) as (_ & Ht' & Hp' & Ha').
    destruct Hs as [Hs1 _]. unfold Dispatch.on_screen.
    rewrite Ht', Hp', Et. split; [|reflexivity].
    intros Hp. specialize (Hs1 Hp). rewrite Et in Hs1. discriminate.
  - (* the tab changes: what was on is switched off *)
    destruct (Dispatch.same_tab t (Dispatch.activeTab (Dispatch.ui s)));
      [inversion H; subst s'; exact Hs|].
    unfold Dispatch.tab_effect in H. cbn [Dispatch.ui] in H.
    set (s1 := Dispatch.mk_state (Dispatch.setActiveTab t (Dispatch.ui s))
                 (Dispatch.engine s) (Dispatch.link s)) in *.
    assert (Hoff : Dispatch.isMetroPlaying (Dispatch.ui s') = false
                   /\ Dispatch.isTunerActive (Dispatch.ui s') = false).
    { destruct (Dispatch.isMetroPlaying (Dispatch.ui s)) eqn:Ep;
        destruct (Dispatch.isTunerActive (Dispatch.ui s)) eqn:Ea;
        cbn [Dispatch.setActiveTab Dispatch.isMetroPlaying
             Dispatch.isTunerActive] in H; rewrite ?Ep, ?Ea in H.
      - destruct (Dispatch.handleStartStopMetronome fuel now s1) as [s2|]
          eqn:E2; [|discriminate].
        destruct (start_stop_cells fuel now s1 s2 E2) as (_ & _ & Hp2 & Ha2).
        inversion H; subst s'.
        destruct (tuner_cells true buf sampleRate s2) as (_ & _ & -> & ->).
        rewrite Hp2, Ha2. subst s1. cbn. rewrite Ep, Ea. split; reflexivity.
      - destruct (Dispatch.handleStartStopMetronome fuel now s1) as [s2|]
          eqn:E2; [|discriminate].
        destruct (start_stop_cells fuel now s1 s2 E2) as (_ & _ & Hp2 & Ha2).
        inversion H; subst s'.
        rewrite Hp2, Ha2. subst s1. cbn. rewrite Ep, Ea. split; reflexivity.
      - inversion H; subst s'.
        destruct (tuner_cells true buf sampleRate s1) as (_ & _ & -> & ->).
        subst s1. cbn. rewrite Ep, Ea. split; reflexivity.
      - inversion H; subst s'. subst s1. cbn. split; assumption. }
    destruct Hoff as [Hp Ha]. unfold Dispatch.on_screen. rewrite Hp, Ha.
    split; discriminate.
  - unfold Dispatch.host in H.
    destruct (step fuel _ (Dispatch.engine s)) as [w|]; [|discriminate].
    inversion H; subst s'.
    destruct (listeners_keeps (Dispatch.engine s) w (Dispatch.ui s))
      as (_ & Ht & _ & Hp & Ha).
    apply (on_screen_same s); assumption.
  - unfold Dispatch.host in H.
    destruct (step fuel _ (Dispatch.engine s)) as [w|]; [|discriminate].
    inversion H; subst s'.
    destruct (listeners_keeps (Dispatch.engine s) w (Dispatch.ui s))
      as (_ & Ht & _ & Hp & Ha).
    apply (on_screen_same s); assumption.
  - inversion H; subst s'. apply (on_screen_same s); [reflexivity .. | exact Hs].
  - destruct (Bluetooth.handleCharacteristicValueChanged value
                (Dispatch.link s)) as [data|];
      inversion H; subst s'; [|exact Hs].
    destruct (telemetry_cells data (Dispatch.ui s)) as (_ & Ht & Hp & Ha).
    apply (on_screen_same s); assumption.
Qed.

(** X19.  The metronome and the tuner are never switched on together.
    Whatever is clicked, fires or arrives, in either mode, a switch that is
    on belongs to the panel on the screen: the play button can only be
    pressed on the metronome tab, the tuner button on the tuner tab, and a
    change of tab toggles off what was on. *)
Theorem never_both_on (fuel : nat) (acts : list Dispatch.action) :
  forall s s' : Dispatch.state,
  Dispatch.on_screen s ->
  Dispatch.handle_all fuel acts s = Some s' ->
  Dispatch.on_screen s'
  /\ ~ (Dispatch.isMetroPlaying (Dispatch.ui s') = true
        /\ Dispatch.isTunerActive (Dispatch.ui s') = true).
Proof.
  induction acts as [|a acts IH]; intros s s' Hs Hrun.
  - inversion Hrun; subst s'. split; [exact Hs|].
    intros [Hp Ha]. destruct Hs as [H1 H2].
    rewrite (H1 Hp) in H2. specialize (H2 Ha). discriminate.
  - cbn [Dispatch.handle_all] in Hrun.
    destruct (Dispatch.handle fuel a s) as [s1|] eqn:E; [|discriminate].
    exact (IH s1 s' (on_screen_handle fuel a s s1 Hs E) Hrun).
Qed.

Lemma on_screen_init : Dispatch.on_screen Dispatch.state_init.
Proof. split; discriminate. Qed.

Lemma never_both_on_witness :
  exists s' : Dispatch.state,
    Dispatch.handle_all 1
      [Dispatch.ClickTab Dispatch.tuner (Num 0) [] (Num 44100);
       Dispatch.ClickTuner false [] (Num 44100);
       Dispatch.ClickBluetooth Bluetooth.Linked true;
       Dispatch.ClickTab Dispatch.metronome (Num 1) [] (Num 44100);
       Dispatch.ClickStartStop (Num 2)]
      Dispatch.state_init = Some s'
    /\ Dispatch.on_screen s'
    /\ ~ (Dispatch.isMetroPlaying (Dispatch.ui s') = true
          /\ Dispatch.isTunerActive (Dispatch.ui s') = true).
Proof.
  destruct (Dispatch.handle_all 1
      [Dispatch.ClickTab Dispatch.tuner (Num 0) [] (Num 44100);
       Dispatch.ClickTuner false [] (Num 44100);
       Dispatch.ClickBluetooth Bluetooth.Linked true;
       Dispatch.ClickTab Dispatch.metronome (Num 1) [] (Num 44100);
       Dispatch.ClickStartStop (Num 2)]
      Dispatch.state_init) as [s'|] eqn:E.
  - exists s'. split; [reflexivity|].
    apply (never_both_on 1
      [Dispatch.ClickTab Dispatch.tuner (Num 0) [] (Num 44100);
       Dispatch.ClickTuner false [] (Num 44100);
       Dispatch.ClickBluetooth Bluetooth.Linked true;
       Dispatch.ClickTab Dispatch.metronome (Num 1) [] (Num 44100);
       Dispatch.ClickStartStop (Num 2)]
      Dispatch.state_init s'); [exact on_screen_init | exact E].
  - exfalso. cbn in E. discriminate E.
Defined.

(** ** The application in connected mode *)

Lemma sendCommand_no_rx (cmd : string) (value : option num)
    (l : Bluetooth.service) :
  Bluetooth.rxCharacteristic l = false -> Bluetooth.sendCommand cmd value l = l.
Proof. unfold Bluetooth.sendCommand. intros ->. reflexivity. Qed.

Lemma connected_start_stop (fuel : nat) (now : num) (s : Dispatch.state) :
  Dispatch.mode (Dispatch.ui s) = Dispatch.connected ->
  exists s' : Dispatch.state,
    Dispatch.handleStartStopMetronome fuel now s = Some s'
    /\ Dispatch.mode (Dispatch.ui s') = Dispatch.connected
    /\ Dispatch.engine s' = Dispatch.engine s
    /\ (Bluetooth.rxCharacteristic (Dispatch.link s) = false ->
        Dispatch.link s' = Dispatch.link s).
Proof.
  intros Hm. unfold Dispatch.handleStartStopMetronome. cbv zeta.
  rewrite Hm. eexists. split; [reflexivity|].
  cbn [Dispatch.ui Dispatch.engine Dispatch.link].
  split; [exact Hm|]. split; [reflexivity|]. intros Hrx.
  destruct (negb (Dispatch.isMetroPlaying (Dispatch.ui s)));
    repeat rewrite (sendCommand_no_rx _ _ (Dispatch.link s) Hrx);
    reflexivity.
Qed.

Lemma connected_bpm (newBpm : num) (s : Dispatch.state) :
  Dispatch.mode (Dispatch.ui s) = Dispatch.connected ->
  Dispatch.mode (Dispatch.ui (Dispatch.handleBPMChange newBpm s))
  = Dispatch.connected
  /\ Dispatch.engine (Dispatch.handleBPMChange newBpm s) = Dispatch.engine s
  /\ (Bluetooth.rxCharacteristic (Dispatch.link s) = false ->
      Dispatch.link (Dispatch.handleBPMChange newBpm s) = Dispatch.link s).
Proof.
  intros Hm. unfold Dispatch.handleBPMChange. cbv zeta. rewrite Hm.
  cbn [Dispatch.ui Dispatch.engine Dispatch.link].
  split; [exact Hm|]. split; [reflexivity|].
  intros Hrx. apply sendCommand_no_rx. exact Hrx.
Qed.

Lemma connected_tuner (granted : bool) (buf : list num) (sampleRate : num)
    (s : Dispatch.state) :
  Dispatch.mode (Dispatch.ui s) = Dispatch.connected ->
  Dispatch.mode
    (Dispatch.ui (Dispatch.handleToggleTuner granted buf sampleRate s))
  = Dispatch.connected
  /\ Dispatch.engine (Dispatch.handleToggleTuner granted buf sampleRate s)
     = Dispatch.engine s
  /\ (Bluetooth.rxCharacteristic (Dispatch.link s) = false ->
      Dispatch.link (Dispatch.handleToggleTuner granted buf sampleRate s)
      = Dispatch.link s).
Proof.
  intros Hm. unfold Dispatch.handleToggleTuner. cbv zeta. rewrite Hm.
  cbn [Dispatch.ui Dispatch.engine Dispatch.link].
  split; [exact Hm|]. split; [reflexivity|].
  intros Hrx. apply sendCommand_no_rx. exact Hrx.
Qed.

(** In connected mode a control does not reach the engine, and without a
    write characteristic it does not reach the device either. *)
Lemma connected_control (fuel : nat) (a : Dispatch.action)
    (s : Dispatch.state) :
  Dispatch.mode (Dispatch.ui s) = Dispatch.connected ->
  Dispatch.is_control a ->
  exists s' : Dispatch.state,
    Dispatch.handle fuel a s = Some s'
    /\ Dispatch.mode (Dispatch.ui s') = Dispatch.connected
    /\ Dispatch.engine s' = Dispatch.engine s
    /\ (Bluetooth.rxCharacteristic (Dispatch.link s) = false ->
        Dispatch.link s' = Dispatch.link s).
Proof.
  intros Hm Hc.
  assert (Hsame : exists s' : Dispatch.state,
            Some s = Some s'
            /\ Dispatch.mode (Dispatch.ui s') = Dispatch.connected
            /\ Dispatch.engine s' = Dispatch.engine s
            /\ (Bluetooth.rxCharacteristic (Dispatch.link s) = false ->
                Dispatch.link s' = Dispatch.link s)).
  { exists s. repeat split. exact Hm. }
  destruct a; cbn [Dispatch.is_control] in Hc; try contradiction;
    cbn [Dispatch.handle].
  - destruct (Dispatch.activeTab (Dispatch.ui s)); [|exact Hsame].
    apply connected_start_stop. exact Hm.
  - destruct (Dispatch.activeTab (Dispatch.ui s)); [|exact Hsame].
    eexists. split; [reflexivity | apply connected_bpm; exact Hm].
  - destruct (Dispatch.activeTab (Dispatch.ui s)); [|exact Hsame].
    eexists. split; [reflexivity | apply connected_bpm; exact Hm].
  - destruct (Dispatch.activeTab (Dispatch.ui s)); [|exact Hsame].
    eexists. split; [reflexivity | apply connected_bpm; exact Hm].
  - destruct (Dispatch.activeTab (Dispatch.ui s)); [exact Hsame|].
    eexists. split; [reflexivity | apply connected_tuner; exact Hm].
  - destruct (Dispatch.same_tab t (Dispatch.activeTab (Dispatch.ui s)));
      [exact Hsame|].
    unfold Dispatch.tab_effect. cbn [Dispatch.ui].
    set (s1 := Dispatch.mk_state (Dispatch.setActiveTab t (Dispatch.ui s))
                 (Dispatch.engine s) (Dispatch.link s)).
    assert (Hm1 : Dispatch.mode (Dispatch.ui s1) = Dispatch.connected)
      by exact Hm.
    assert (H2 : exists s2 : Dispatch.state,
              (if Dispatch.isMetroPlaying
                    (Dispatch.setActiveTab t (Dispatch.ui s))
               then Dispatch.handleStartStopMetronome fuel now s1
               else Some s1) = Some s2
              /\ Dispatch.mode (Dispatch.ui s2) = Dispatch.connected
              /\ Dispatch.engine s2 = Dispatch.engine s
              /\ (Bluetooth.rxCharacteristic (Dispatch.link s) = false ->
                  Dispatch.link s2 = Dispatch.link s)).
    { destruct (Dispatch.isMetroPlaying
                  (Dispatch.setActiveTab t (Dispatch.ui s))).
      - exact (connected_start_stop fuel now s1 Hm1).
      - exists s1. repeat split. exact Hm1. }
    destruct H2 as (s2 & -> & Hm2 & He2 & Hl2).
    destruct (Dispatch.isTunerActive
                (Dispatch.setActiveTab t (Dispatch.ui s))).
    + eexists. split; [reflexivity|].
      destruct (connected_tuner true buf sampleRate s2 Hm2)
        as (Hm3 & He3 & Hl3).
      split; [exact Hm3|]. split; [congruence|].
      intros Hrx. rewrite Hl3; [exact (Hl2 Hrx)|].
      rewrite (Hl2 Hrx). exact Hrx.
    + exists s2. repeat split; assumption.
Qed.

Lemma dead_controls (fuel : nat) (acts : list Dispatch.action) :
  forall s : Dispatch.state,
  Dispatch.mode (Dispatch.ui s) = Dispatch.connected ->
  Bluetooth.rxCharacteristic (Dispatch.link s) = false ->
  List.Forall Dispatch.is_control acts ->
  exists s' : Dispatch.state,
    Dispatch.handle_all fuel acts s = Some s'
    /\ Dispatch.mode (Dispatch.ui s') = Dispatch.connected
    /\ Dispatch.engine s' = Dispatch.engine s
    /\ Dispatch.link s' = Dispatch.link s.
Proof.
  induction acts as [|a acts IH]; intros s Hm Hrx Hc.
  - exists s. repeat split. exact Hm.
  - inversion Hc as [|a0 acts0 Ha Hacts]; subst.
    destruct (connected_control fuel a s Hm Ha) as (s1 & E & Hm1 & He1 & Hl1).
    specialize (Hl1 Hrx).
    destruct (IH s1 Hm1) as (s' & E' & Hm' & He' & Hl');
      [rewrite Hl1; exact Hrx | exact Hacts |].
    exists s'. cbn [Dispatch.handle_all]. rewrite E.
    split; [exact E'|]. split; [exact Hm'|]. split; congruence.
Qed.

(** X20.  After the device has dropped the link the controls are dead.  The
    listener of the disconnection clears the write characteristic but the
    application stays in connected mode: from then on every click on the
    play button, the tempo controls, the tuner button or the tab bar
    returns, writes nothing to the device and does not touch the engine. *)
Theorem controls_dead_after_link_loss (fuel : nat)
    (acts : list Dispatch.action) (s : Dispatch.state) :
  Dispatch.mode (Dispatch.ui s) = Dispatch.connected ->
  List.Forall Dispatch.is_control acts ->
  exists s' : Dispatch.state,
    Dispatch.handle_all fuel (Dispatch.LinkLost :: acts) s = Some s'
    /\ Dispatch.mode (Dispatch.ui s') = Dispatch.connected
    /\ Dispatch.engine s' = Dispatch.engine s
    /\ Bluetooth.written (Dispatch.link s')
       = Bluetooth.written (Dispatch.link s)
    /\ Bluetooth.rxCharacteristic (Dispatch.link s') = false.
Proof.
  intros Hm Hc. cbn [Dispatch.handle_all Dispatch.handle].
  destruct (dead_controls fuel acts
              (Dispatch.mk_state (Dispatch.ui s) (Dispatch.engine s)
                 (Bluetooth.handleDisconnect (Dispatch.link s))))
    as (s' & E & Hm' & He' & Hl'); [exact Hm | reflexivity | exact Hc |].
  exists s'. split; [exact E|]. split; [exact Hm'|].
  split; [exact He'|]. rewrite Hl'. split; reflexivity.
Qed.

Lemma controls_dead_after_link_loss_witness :
  exists s' : Dispatch.state,
    Dispatch.handle_all 1
      [Dispatch.LinkLost; Dispatch.ClickStartStop (Num 0);
       Dispatch.ClickPlus;
       Dispatch.ClickTab Dispatch.tuner (Num 1) [] (Num 44100)]
      (Dispatch.handleBluetoothToggle Bluetooth.Linked true
         Dispatch.state_init) = Some s'
    /\ Dispatch.mode (Dispatch.ui s') = Dispatch.connected
    /\ Dispatch.engine s'
       = Dispatch.engine
           (Dispatch.handleBluetoothToggle Bluetooth.Linked true
              Dispatch.state_init)
    /\ Bluetooth.written (Dispatch.link s')
       = Bluetooth.written
           (Dispatch.link
              (Dispatch.handleBluetoothToggle Bluetooth.Linked true
                 Dispatch.state_init))
    /\ Bluetooth.rxCharacteristic (Dispatch.link s') = false.
Proof.
  apply (controls_dead_after_link_loss 1
           [Dispatch.ClickStartStop (Num 0); Dispatch.ClickPlus;
            Dispatch.ClickTab Dispatch.tuner (Num 1) [] (Num 44100)]
           (Dispatch.handleBluetoothToggle Bluetooth.Linked true
              Dispatch.state_init)).
  - reflexivity.
  - repeat constructor.
Defined.

Lemma connected_handle (fuel : nat) (a : Dispatch.action)
    (s s' : Dispatch.state) :
  Dispatch.mode (Dispatch.ui s) = Dispatch.connected ->
  one_loop (Dispatch.engine s) ->
  Dispatch.not_bluetooth a ->
  Dispatch.handle fuel a s = Some s' ->
  Dispatch.mode (Dispatch.ui s') = Dispatch.connected
  /\ isMetronomePlaying (Dispatch.engine s')
     = isMetronomePlaying (Dispatch.engine s)
  /\ one_loop (Dispatch.engine s').
Proof.
  intros Hm Hone Hnb H.
  assert (Hctl : Dispatch.is_control a ->
            Dispatch.mode (Dispatch.ui s') = Dispatch.connected
            /\ isMetronomePlaying (Dispatch.engine s')
               = isMetronomePlaying (Dispatch.engine s)
            /\ one_loop (Dispatch.engine s')).
  { intros Hc.
    destruct (connected_control fuel a s Hm Hc) as (s1 & E & Hm1 & He1 & _).
    rewrite E in H. inversion H; subst s'. rewrite He1.
    split; [exact Hm1|]. split; [reflexivity | exact Hone]. }
  assert (Hhost : forall e : event,
            match e with
            | ETimeout _ _ | EFrame _ _ _ => True
            | _ => False
            end ->
            Dispatch.host fuel e s = Some s' ->
            Dispatch.mode (Dispatch.ui s') = Dispatch.connected
            /\ isMetronomePlaying (Dispatch.engine s')
               = isMetronomePlaying (Dispatch.engine s)
            /\ one_loop (Dispatch.engine s')).
  { intros e He Hh. unfold Dispatch.host in Hh.
    destruct (step fuel e (Dispatch.engine s)) as [w|] eqn:Es;
      [|discriminate].
    inversion Hh; subst s'. cbn [Dispatch.ui Dispatch.engine].
    destruct (listeners_keeps (Dispatch.engine s) w (Dispatch.ui s))
      as (-> & _).
    split; [exact Hm|]. split.
    - exact (host_step_playing fuel e _ _ He Es).
    - apply (one_loop_step fuel e (Dispatch.engine s));
        [exact Hone | | exact Es].
      destruct e; try contradiction; exact I. }
  destruct a; cbn [Dispatch.not_bluetooth] in Hnb; try contradiction;
    try (apply Hctl; exact I); cbn [Dispatch.handle] in H.
  - inversion H; subst s'. split; [exact Hm|]. split; [reflexivity|exact Hone].
  - exact (Hhost (ETimeout id now) I H).
  - exact (Hhost (EFrame id buf sampleRate) I H).
  - inversion H; subst s'. split; [exact Hm|]. split; [reflexivity|exact Hone].
  - destruct (Bluetooth.handleCharacteristicValueChanged value
                (Dispatch.link s)) as [data|];
      inversion H; subst s'; cbn [Dispatch.ui Dispatch.engine].
    + destruct (telemetry_cells data (Dispatch.ui s)) as (-> & _).
      split; [exact Hm|]. split; [reflexivity|exact Hone].
    + split; [exact Hm|]. split; [reflexivity|exact Hone].
Qed.

(** X21.  In connected mode nothing on the screen stops a metronome that
    the engine is playing.  If the engine plays with its polling loop when
    the application is in connected mode (the metronome was started before
    the link was made), then whatever is clicked, fires or arrives, the
    Bluetooth button apart, the application stays connected and the engine
    goes on playing with its loop: the play button only writes to the
    device. *)
Theorem connected_cannot_stop_engine (fuel : nat)
    (acts : list Dispatch.action) :
  forall s s' : Dispatch.state,
  Dispatch.mode (Dispatch.ui s) = Dispatch.connected ->
  isMetronomePlaying (Dispatch.engine s) = true ->
  one_loop (Dispatch.engine s) ->
  List.Forall Dispatch.not_bluetooth acts ->
  Dispatch.handle_all fuel acts s = Some s' ->
  Dispatch.mode (Dispatch.ui s') = Dispatch.connected
  /\ isMetronomePlaying (Dispatch.engine s') = true
  /\ scheduling_loops (Dispatch.engine s') = 1%nat.
Proof.
  induction acts as [|a acts IH]; intros s s' Hm Hp Hone Hnb Hrun.
  - inversion Hrun; subst s'. split; [exact Hm|]. split; [exact Hp|].
    destruct Hone as [_ Hl]. rewrite Hp in Hl. apply Hl.
  - cbn [Dispatch.handle_all] in Hrun.
    inversion Hnb as [|a0 acts0 Ha Hacts]; subst.
    destruct (Dispatch.handle fuel a s) as [s1|] eqn:E; [|discriminate].
    destruct (connected_handle fuel a s s1 Hm Hone Ha E) as (Hm1 & Hp1 & Ho1).
    apply (IH s1 s' Hm1); [congruence | exact Ho1 | exact Hacts | exact Hrun].
Qed.

Lemma connected_cannot_stop_engine_witness :
  exists s' : Dispatch.state,
    Dispatch.handle_all 1
      [Dispatch.ClickStartStop (Num 1); Dispatch.DismissError;
       Dispatch.ClickStartStop (Num 2)]
      (Dispatch.mk_state
         (Dispatch.setMode Dispatch.connected
            (Dispatch.setIsMetroPlaying true Dispatch.cells_init))
         (scheduler_rearm
            (startMetronome_assign (Num 120) Dispatch.onBeat (Num 0)
               world_init))
         (snd (Bluetooth.connect Bluetooth.Linked
                 (Bluetooth.onDataReceived Bluetooth.service_init))))
    = Some s'
    /\ Dispatch.mode (Dispatch.ui s') = Dispatch.connected
    /\ isMetronomePlaying (Dispatch.engine s') = true
    /\ scheduling_loops (Dispatch.engine s') = 1%nat.
Proof.
  destruct (Dispatch.handle_all 1
      [Dispatch.ClickStartStop (Num 1); Dispatch.DismissError;
       Dispatch.ClickStartStop (Num 2)]
      (Dispatch.mk_state
         (Dispatch.setMode Dispatch.connected
            (Dispatch.setIsMetroPlaying true Dispatch.cells_init))
         (scheduler_rearm
            (startMetronome_assign (Num 120) Dispatch.onBeat (Num 0)
               world_init))
         (snd (Bluetooth.connect Bluetooth.Linked
                 (Bluetooth.onDataReceived Bluetooth.service_init)))))
    as [s'|] eqn:E.
  - exists s'. split; [reflexivity|].
    apply (connected_cannot_stop_engine 1
      [Dispatch.ClickStartStop (Num 1); Dispatch.DismissError;
       Dispatch.ClickStartStop (Num 2)]
      (Dispatch.mk_state
         (Dispatch.setMode Dispatch.connected
            (Dispatch.setIsMetroPlaying true Dispatch.cells_init))
         (scheduler_rearm
            (startMetronome_assign (Num 120) Dispatch.onBeat (Num 0)
               world_init))
         (snd (Bluetooth.connect Bluetooth.Linked
                 (Bluetooth.onDataReceived Bluetooth.service_init))))
      s').
    + reflexivity.
    + reflexivity.
    + apply (one_loop_step 1
               (EStartMetronome (Num 120) Dispatch.onBeat (Num 0))
               world_init);
        [exact one_loop_init | reflexivity | apply startMetronome_any].
    + repeat constructor.
    + exact E.
  - exfalso.
    cbn [Dispatch.handle_all Dispatch.handle Dispatch.ui Dispatch.activeTab
         Dispatch.setMode Dispatch.setIsMetroPlaying Dispatch.cells_init
         Dispatch.handleStartStopMetronome Dispatch.mode
         Dispatch.isMetroPlaying negb Dispatch.engine Dispatch.link
         Dispatch.setConnectionError Dispatch.connectionError
         Dispatch.bpm Dispatch.currentBeat Dispatch.isTunerActive
         Dispatch.tunerData] in E.
    discriminate E.
Defined.

(** ** The tempo buttons *)

Lemma take_pending_tick (id : nat) (w : world) :
  host_ok w ->
  tick_pending id w ->
  take_timeout id w = Some (SchedulerTick, clearTimeout id w).
Proof.
  intros (_ & [Hnd _] & _) Hpend. unfold take_timeout.
  destruct (find _ (timeouts w)) as [t|] eqn:Ef.
  - destruct (find_by_id _ _ _ Ef) as [Hin Hid].
    assert (Ht : t = mk_timeout id (Num 25) SchedulerTick).
    { clear Ef. unfold tick_pending in Hpend.
      induction (timeouts w) as [|x ts IH]; [contradiction|].
      cbn in Hnd. apply List.NoDup_cons_iff in Hnd. destruct Hnd as [Hx Hnd].
      destruct Hin as [-> | Hin], Hpend as [He | Hpend].
      - exact He.
      - exfalso. apply Hx. rewrite Hid.
        apply (List.in_map timeout_id _ _ Hpend).
      - exfalso. apply Hx. rewrite He. cbn. rewrite <- Hid.
        apply (List.in_map timeout_id _ _ Hin).
      - apply IH; assumption. }
    subst t. reflexivity.
  - exfalso. unfold tick_pending in Hpend.
    apply (List.find_none _ _ Ef) in Hpend. cbn in Hpend.
    rewrite Nat.eqb_refl in Hpend. discriminate.
Qed.

Lemma press_minus (fuel : nat) (s : Dispatch.state) (b : R) :
  Dispatch.mode (Dispatch.ui s) = Dispatch.standalone ->
  Dispatch.activeTab (Dispatch.ui s) = Dispatch.metronome ->
  Dispatch.bpm (Dispatch.ui s) = Num b ->
  exists s' : Dispatch.state,
    Dispatch.handle fuel Dispatch.ClickMinus s = Some s'
    /\ Dispatch.mode (Dispatch.ui s') = Dispatch.standalone
    /\ Dispatch.activeTab (Dispatch.ui s') = Dispatch.metronome
    /\ Dispatch.bpm (Dispatch.ui s') = Num (b - 1)
    /\ Dispatch.engine s' = updateBPM (Num (b - 1)) (Dispatch.engine s).
Proof.
  intros Hm Ht Hb. cbn [Dispatch.handle]. rewrite Ht, Hb.
  unfold Dispatch.handleBPMChange. cbv zeta. rewrite Hm.
  eexists. split; [reflexivity|].
  cbn [Dispatch.ui Dispatch.engine Dispatch.setBpm Dispatch.mode
       Dispatch.activeTab Dispatch.bpm].
  repeat (split; [assumption || reflexivity|]). reflexivity.
Qed.

Lemma presses_minus (fuel k : nat) :
  forall (s : Dispatch.state) (b : R),
  Dispatch.mode (Dispatch.ui s) = Dispatch.standalone ->
  Dispatch.activeTab (Dispatch.ui s) = Dispatch.metronome ->
  Dispatch.bpm (Dispatch.ui s) = Num b ->
  exists s' : Dispatch.state,
    Dispatch.handle_all fuel (repeat Dispatch.ClickMinus (S k)) s = Some s'
    /\ Dispatch.bpm (Dispatch.ui s') = Num (b - INR (S k))
    /\ Dispatch.engine s'
       = updateBPM (Num (b - INR (S k))) (Dispatch.engine s).
Proof.
  induction k as [|k IH]; intros s b Hm Ht Hb;
    destruct (press_minus fuel s b Hm Ht Hb) as (s1 & E & Hm1 & Ht1 & Hb1 & He1).
  - exists s1. cbn [repeat Dispatch.handle_all]. rewrite E.
    change (INR 1) with 1%R.
    split; [reflexivity|]. split; assumption.
  - destruct (IH s1 (b - 1)%R Hm1 Ht1 Hb1) as (s' & E' & Hb' & He').
    exists s'.
    change (repeat Dispatch.ClickMinus (S (S k)))
      with (Dispatch.ClickMinus :: repeat Dispatch.ClickMinus (S k)).
    cbn [Dispatch.handle_all]. rewrite E.
    assert (Hv : (b - 1 - INR (S k) = b - INR (S (S k)))%R)
      by (rewrite (S_INR (S k)); lra).
    rewrite <- Hv.
    split; [exact E'|]. split; [exact Hb'|].
    rewrite He', He1. reflexivity.
Qed.



(** ** Changing mode while the metronome plays *)

Lemma start_loops (tempo : num) (onBeat : nat) (now : num) (w : world) :
  scheduling_loops (scheduler_rearm (startMetronome_assign tempo onBeat now w))
  = S (scheduling_loops w).
Proof.
  unfold scheduling_loops. cbn.
  rewrite List.filter_app, length_app. cbn. lia.
Qed.

(** X23.  The way round the play button: connect, stop, disconnect, start.
    From any state in which the metronome plays in standalone mode, on the
    metronome tab, with its one polling loop, the four clicks return; the
    stop goes to the device only, the engine is never stopped, and the
    start that follows the disconnection calls [startMetronome] on an
    engine that is still playing: two polling loops are pending. *)
Theorem mode_switch_doubles_loop (fuel : nat)
    (o : Bluetooth.connect_outcome) (write_ok : bool) (now1 now2 : num)
    (s : Dispatch.state) :
  Dispatch.coupled s ->
  Dispatch.isMetroPlaying (Dispatch.ui s) = true ->
  Dispatch.activeTab (Dispatch.ui s) = Dispatch.metronome ->
  exists s' : Dispatch.state,
    Dispatch.handle_all fuel
      [Dispatch.ClickBluetooth Bluetooth.Linked true;
       Dispatch.ClickStartStop now1;
       Dispatch.ClickBluetooth o write_ok;
       Dispatch.ClickStartStop now2] s = Some s'
    /\ Dispatch.mode (Dispatch.ui s') = Dispatch.standalone
    /\ Dispatch.isMetroPlaying (Dispatch.ui s') = true
    /\ isMetronomePlaying (Dispatch.engine s') = true
    /\ scheduling_loops (Dispatch.engine s') = 2%nat
    /\ Bluetooth.written (Dispatch.link s')
       = [(Dispatch.SET_BPM, Some (Dispatch.bpm (Dispatch.ui s)));
          (Dispatch.STOP_METRONOME, None)].
Proof.
  intros (Hm & Hp & Hone & Hw) Hplay Htab.
  destruct s as [u w l]. cbn [Dispatch.ui Dispatch.engine Dispatch.link] in *.
  destruct u as [m t err b p beat act td].
  cbn [Dispatch.mode Dispatch.isMetroPlaying Dispatch.activeTab Dispatch.bpm]
    in *.
  rewrite Hplay in Hp. subst m p t.
  destruct l as [d srv rx cb wr]. cbn [Bluetooth.written] in Hw. subst wr.
  eexists. split.
  - cbn [Dispatch.handle_all Dispatch.handle Dispatch.handleBluetoothToggle
         Dispatch.ui Dispatch.mode Dispatch.link Dispatch.engine
         Bluetooth.connect Bluetooth.with_link Dispatch.activeTab
         Dispatch.bpm Bluetooth.sendCommand Bluetooth.rxCharacteristic
         Bluetooth.device Bluetooth.server Bluetooth.dataCallback
         Bluetooth.written Dispatch.setConnectionError Dispatch.setMode
         Dispatch.connectionError Dispatch.isMetroPlaying
         Dispatch.currentBeat Dispatch.isTunerActive Dispatch.tunerData
         Dispatch.handleStartStopMetronome Dispatch.setIsMetroPlaying negb
         Bluetooth.disconnect Bluetooth.cleanup Bluetooth.isConnected app].
    rewrite startMetronome_any. reflexivity.
  - cbn [Dispatch.ui Dispatch.engine Dispatch.link].
    match goal with
    | |- context [Dispatch.listeners ?x ?y ?z] =>
        destruct (listeners_keeps x y z) as (-> & _ & _ & -> & _)
    end.
    split; [reflexivity|]. split; [reflexivity|].
    split; [apply start_sets_playing|].
    split; [|reflexivity].
    rewrite start_loops. destruct Hone as [_ Hl]. rewrite <- Hp in Hl.
    destruct Hl as [-> _]. reflexivity.
Qed.

Lemma mode_switch_doubles_loop_witness :
  exists s' : Dispatch.state,
    Dispatch.handle_all 1
      [Dispatch.ClickBluetooth Bluetooth.Linked true;
       Dispatch.ClickStartStop (Num 1);
       Dispatch.ClickBluetooth Bluetooth.Linked true;
       Dispatch.ClickStartStop (Num 2)]
      (Dispatch.mk_state
         (Dispatch.setIsMetroPlaying true Dispatch.cells_init)
         (scheduler_rearm
            (startMetronome_assign (Num 120) Dispatch.onBeat (Num 0)
               world_init))
         (Bluetooth.onDataReceived Bluetooth.service_init)) = Some s'
    /\ Dispatch.mode (Dispatch.ui s') = Dispatch.standalone
    /\ Dispatch.isMetroPlaying (Dispatch.ui s') = true
    /\ isMetronomePlaying (Dispatch.engine s') = true
    /\ scheduling_loops (Dispatch.engine s') = 2%nat
    /\ Bluetooth.written (Dispatch.link s')
       = [(Dispatch.SET_BPM, Some (Num 120));
          (Dispatch.STOP_METRONOME, None)].
Proof.
  apply (mode_switch_doubles_loop 1 Bluetooth.Linked true (Num 1) (Num 2)
           (Dispatch.mk_state
              (Dispatch.setIsMetroPlaying true Dispatch.cells_init)
              (scheduler_rearm
                 (startMetronome_assign (Num 120) Dispatch.onBeat (Num 0)
                    world_init))
              (Bluetooth.onDataReceived Bluetooth.service_init))).
  - split; [reflexivity|]. split; [reflexivity|]. split; [|reflexivity].
    apply (one_loop_step 1
             (EStartMetronome (Num 120) Dispatch.onBeat (Num 0)) world_init);
      [exact one_loop_init | reflexivity | apply startMetronome_any].
  - reflexivity.
  - reflexivity.
Defined.

(** ** Beats inside the bar *)

Lemma beat_to_play_in_bar (w : world) :
  (0 <= currentBeatInBar w <= 4)%Z -> in_bar (beat_to_play w).
Proof.
  unfold beat_to_play, in_bar. intros H.
  destruct (Z.eqb_spec (currentBeatInBar w) 0); lia.
Qed.

Lemma advance_in_bar (c : Z) : (0 <= c <= 4)%Z -> (0 <= advance c <= 4)%Z.
Proof. unfold advance. intros H. destruct (Z.gtb_spec (c + 1) 4); lia. Qed.

Lemma bar_ok_pass (t now : num) (w : world) :
  bar_ok w ->
  bar_ok (nextNote (scheduleNote (beat_to_play w) t now w)).
Proof.
  intros (Hc & Hn & Hb & Ht).
  pose proof (nextNote_scheduleNote_fields (beat_to_play w) t now w) as F.
  cbv zeta in F. destruct F as (_ & _ & _ & _ & _ & F6 & F7 & F8 & _).
  unfold bar_ok. rewrite F6, F7, F8.
  split; [apply advance_in_bar; exact Hc|]. split; [|split; [exact Hb|]].
  - rewrite map_app. apply List.Forall_app. split; [exact Hn|].
    constructor; [apply beat_to_play_in_bar; exact Hc | constructor].
  - change (timeouts (nextNote (scheduleNote (beat_to_play w) t now w)))
      with (timeouts w
            ++ [mk_timeout (next_handle w)
                  (num_max (Num 0) ((t - now) * Num 1000))
                  (BeatNotify (beat_to_play w))]).
    apply List.Forall_app. split; [exact Ht|].
    constructor; [apply beat_to_play_in_bar; exact Hc | constructor].
Qed.

Lemma bar_ok_loop (fuel : nat) (now : num) :
  forall w w' : world,
  bar_ok w -> scheduler_loop fuel now w = Some w' -> bar_ok w'.
Proof.
  induction fuel as [|fuel IH]; intros w w' Hok H;
    rewrite scheduler_loop_unfold in H;
    destruct (nextNoteTime w <? now + Num 0.1);
    try discriminate; try (inversion H; subst w'; exact Hok).
  apply (IH _ w' (bar_ok_pass (nextNoteTime w) now w Hok) H).
Qed.

Lemma bar_ok_same (w w' : world) :
  currentBeatInBar w' = currentBeatInBar w ->
  notes w' = notes w ->
  beats w' = beats w ->
  timeouts w' = timeouts w ->
  bar_ok w -> bar_ok w'.
Proof. unfold bar_ok. intros -> -> -> ->. trivial. Qed.

Lemma bar_ok_rearm (w : world) : bar_ok w -> bar_ok (scheduler_rearm w).
Proof.
  intros (Hc & Hn & Hb & Ht). unfold scheduler_rearm.
  destruct (isMetronomePlaying w);
    [|exact (conj Hc (conj Hn (conj Hb Ht)))].
  unfold bar_ok. cbn.
  split; [exact Hc|]. split; [exact Hn|]. split; [exact Hb|].
  apply List.Forall_app. split; [exact Ht|].
  constructor; [exact I | constructor].
Qed.

Lemma Forall_filter_keeps {A : Type} (P : A -> Prop) (f : A -> bool)
    (l : list A) :
  List.Forall P l -> List.Forall P (List.filter f l).
Proof.
  intros H. apply List.Forall_forall. intros x Hx.
  apply List.filter_In in Hx. destruct Hx as [Hx _].
  exact (proj1 (List.Forall_forall P l) H x Hx).
Qed.

Lemma bar_ok_clearTimeout (id : nat) (w : world) :
  bar_ok w -> bar_ok (clearTimeout id w).
Proof.
  intros (Hc & Hn & Hb & Ht). unfold bar_ok. cbn.
  split; [exact Hc|]. split; [exact Hn|]. split; [exact Hb|].
  apply Forall_filter_keeps. exact Ht.
Qed.

Lemma detectPitch_bar_view (buf : list num) (sampleRate : num) (w : world) :
  currentBeatInBar (detectPitch buf sampleRate w) = currentBeatInBar w
  /\ notes (detectPitch buf sampleRate w) = notes w
  /\ beats (detectPitch buf sampleRate w) = beats w
  /\ timeouts (detectPitch buf sampleRate w) = timeouts w.
Proof.
  unfold detectPitch. destruct (analyser w); [|repeat split]. cbv zeta.
  destruct (autoCorrelate buf sampleRate >? Num (-1));
    [destruct (tunerCallback w)|]; repeat split.
Qed.

Lemma bar_ok_step (fuel : nat) (e : event) (w w' : world) :
  bar_ok w -> step fuel e w = Some w' -> bar_ok w'.
Proof.
  intros Hok Hstep. destruct e; cbn [step] in Hstep.
  - rewrite startMetronome_any in Hstep. inversion Hstep; subst w'.
    apply bar_ok_rearm. destruct Hok as (_ & Hn & Hb & Ht).
    unfold bar_ok. cbn. split; [lia|]. repeat split; assumption.
  - inversion Hstep; subst w'. unfold stopMetronome. cbv zeta.
    destruct (truthy _) as [id|].
    + apply (bar_ok_same (clearTimeout id w)); try reflexivity.
      apply bar_ok_clearTimeout. exact Hok.
    + apply (bar_ok_same w); try reflexivity. exact Hok.
  - inversion Hstep; subst w'. apply (bar_ok_same w); try reflexivity.
    exact Hok.
  - unfold take_timeout in Hstep.
    destruct (find _ (timeouts w)) as [t|] eqn:Ef;
      [|inversion Hstep; subst w'; exact Hok].
    pose proof (bar_ok_clearTimeout id w Hok) as Hc.
    destruct (timeout_task t) as [|b] eqn:Et.
    + unfold scheduler in Hstep.
      destruct (scheduler_loop fuel now (clearTimeout id w)) as [w1|] eqn:El;
        [|discriminate].
      inversion Hstep; subst w'.
      apply bar_ok_rearm. exact (bar_ok_loop fuel now _ w1 Hc El).
    + inversion Hstep; subst w'. unfold beat_notify.
      destruct (isMetronomePlaying (clearTimeout id w));
        [destruct (beatCallback (clearTimeout id w))|]; try exact Hc.
      destruct Hc as (H1 & H2 & H3 & H4). unfold bar_ok. cbn.
      split; [exact H1|]. split; [exact H2|]. split; [|exact H4].
      apply List.Forall_app. split; [exact H3|].
      constructor; [|constructor].
      destruct (find_by_id _ _ _ Ef) as [Hin _].
      destruct Hok as (_ & _ & _ & Ht).
      pose proof (proj1 (List.Forall_forall _ _) Ht t Hin) as Hb.
      unfold notify_in_bar in Hb. rewrite Et in Hb. exact Hb.
  - inversion Hstep; subst w'. unfold startTuner. cbv zeta.
    destruct granted; [|apply (bar_ok_same w); try reflexivity; exact Hok].
    match goal with
    | |- bar_ok (detectPitch _ _ ?w0) =>
        destruct (detectPitch_bar_view buf sampleRate w0)
          as (H1 & H2 & H3 & H4);
        apply (bar_ok_same w); [rewrite H1 | rewrite H2 | rewrite H3
                               | rewrite H4 | exact Hok]; reflexivity
    end.
  - inversion Hstep; subst w'. unfold stopTuner. cbv zeta.
    destruct (truthy _); apply (bar_ok_same w); try reflexivity; exact Hok.
  - destruct (existsb _ _); inversion Hstep; subst w'; [|exact Hok].
    destruct (detectPitch_bar_view buf sampleRate (cancelAnimationFrame id w))
      as (H1 & H2 & H3 & H4).
    apply (bar_ok_same w); [rewrite H1 | rewrite H2 | rewrite H3
                           | rewrite H4 | exact Hok]; reflexivity.
Qed.

Lemma bar_ok_init : bar_ok world_init.
Proof.
  unfold bar_ok. cbn. split; [lia|]. repeat split; constructor.
Qed.

(** X24.  Every beat is a beat of the bar.  From a state in which the
    cursor is between 0 and 4 and every beat clicked, reported or waiting
    to be reported is between 1 and 4 (the initial state is one), every run
    of the engine, whatever is called and whatever fires, in whatever order
    (restarts and double starts included), ends in such a state: each click
    scheduled and each beat handed to [onBeat] carries a number from 1 to
    4. *)
Theorem beats_stay_in_bar (fuel : nat) (es : list event) :
  forall w w' : world,
  bar_ok w ->
  run fuel es w = Some w' ->
  bar_ok w'
  /\ (forall b : Z, In b (beats w') -> (1 <= b <= 4)%Z)
  /\ (forall (b : Z) (t : num), In (b, t) (notes w') -> (1 <= b <= 4)%Z).
Proof.
  induction es as [|e es IH]; intros w w' Hok Hrun.
  - inversion Hrun; subst w'. split; [exact Hok|].
    destruct Hok as (_ & Hn & Hb & _). split.
    + intros b Hin. exact (proj1 (List.Forall_forall _ _) Hb b Hin).
    + intros b t Hin.
      apply (proj1 (List.Forall_forall _ _) Hn b).
      apply (List.in_map fst _ _ Hin).
  - cbn [run] in Hrun.
    destruct (step fuel e w) as [w1|] eqn:Es; [|discriminate].
    exact (IH w1 w' (bar_ok_step fuel e w w1 Hok Es) Hrun).
Qed.

Lemma beats_stay_in_bar_witness :
  exists w' : world,
    run 1 [EStartMetronome (Num 120) 7 (Num 0); EUpdateBPM (Num 90);
           EStartMetronome (Num 90) 7 (Num 3); EStopMetronome]
        world_init = Some w'
    /\ bar_ok w'
    /\ (forall b : Z, In b (beats w') -> (1 <= b <= 4)%Z)
    /\ (forall (b : Z) (t : num), In (b, t) (notes w') -> (1 <= b <= 4)%Z).
Proof.
  destruct (run 1 [EStartMetronome (Num 120) 7 (Num 0); EUpdateBPM (Num 90);
                   EStartMetronome (Num 90) 7 (Num 3); EStopMetronome]
                world_init) as [w'|] eqn:E.
  - exists w'. split; [reflexivity|].
    apply (beats_stay_in_bar 1
             [EStartMetronome (Num 120) 7 (Num 0); EUpdateBPM (Num 90);
              EStartMetronome (Num 90) 7 (Num 3); EStopMetronome]
             world_init w' bar_ok_init E).
  - exfalso. cbn [run step] in E. rewrite !startMetronome_any in E.
    discriminate E.
Defined.

(** ** The beat indicator *)

Lemma last_In {A : Type} (l : list A) (x : A) : last l = Some x -> In x l.
Proof.
  induction l as [|y l IH]; [discriminate|].
  destruct l as [|z l]; cbn.
  - intros H. inversion H. left. reflexivity.
  - intros H. right. apply IH. exact H.
Qed.

Lemma In_drop {A : Type} (n : nat) (l : list A) (x : A) :
  In x (drop n l) -> In x l.
Proof.
  revert l. induction n as [|n IH]; intros l H; [exact H|].
  destruct l as [|y l]; [contradiction|]. right. apply IH. exact H.
Qed.

Lemma dot_same (s s' : Dispatch.state) :
  Dispatch.currentBeat (Dispatch.ui s') = Dispatch.currentBeat (Dispatch.ui s) ->
  dot_lit s -> dot_lit s'.
Proof. unfold dot_lit. intros ->. trivial. Qed.

Lemma listeners_dot (before after : world) (s : Dispatch.state)
    (l : Bluetooth.service) (u : Dispatch.cells) :
  Dispatch.currentBeat u = Dispatch.currentBeat (Dispatch.ui s) ->
  bar_ok after ->
  dot_lit s ->
  dot_lit (Dispatch.mk_state (Dispatch.listeners before after u) after l).
Proof.
  intros Hu (_ & _ & Hb & _) (b0 & Hb0 & Hc0). unfold dot_lit.
  cbn [Dispatch.ui]. unfold Dispatch.listeners. cbv zeta.
  destruct (last (drop (length (beats before)) (beats after))) as [b|] eqn:E.
  - exists b. split.
    + apply (proj1 (List.Forall_forall _ _) Hb b).
      apply (In_drop (length (beats before))). apply last_In. exact E.
    + destruct (last (drop (length (pitches before)) (pitches after)))
        as [[f [name c]]|]; reflexivity.
  - exists b0. split; [exact Hb0|]. rewrite <- Hc0, <- Hu.
    destruct (last (drop (length (pitches before)) (pitches after)))
      as [[f [name c]]|]; reflexivity.
Qed.

Lemma dot_start_stop (fuel : nat) (now : num) (s s' : Dispatch.state) :
  dot_lit s -> bar_ok (Dispatch.engine s) ->
  Dispatch.handleStartStopMetronome fuel now s = Some s' ->
  dot_lit s' /\ bar_ok (Dispatch.engine s').
Proof.
  intros Hd Hok H. unfold Dispatch.handleStartStopMetronome in H.
  cbv zeta in H. destruct (Dispatch.mode (Dispatch.ui s)).
  - destruct (negb (Dispatch.isMetroPlaying (Dispatch.ui s))).
    + destruct (startMetronome fuel _ _ now (Dispatch.engine s)) as [w|]
        eqn:Es; [|discriminate].
      inversion H; subst s'.
      assert (Hw : bar_ok w)
        by exact (bar_ok_step fuel (EStartMetronome _ _ now) _ w Hok Es).
      split; [|exact Hw].
      apply (listeners_dot _ _ s); [reflexivity | exact Hw | exact Hd].
    + inversion H; subst s'. split.
      * exists 1%Z. split; [unfold in_bar; lia | reflexivity].
      * exact (bar_ok_step fuel EStopMetronome _ _ Hok eq_refl).
  - inversion H; subst s'. split; [|exact Hok].
    apply (dot_same s); [reflexivity | exact Hd].
Qed.

Lemma dot_bpm (fuel : nat) (newBpm : num) (s : Dispatch.state) :
  dot_lit s -> bar_ok (Dispatch.engine s) ->
  dot_lit (Dispatch.handleBPMChange newBpm s)
  /\ bar_ok (Dispatch.engine (Dispatch.handleBPMChange newBpm s)).
Proof.
  intros Hd Hok. unfold Dispatch.handleBPMChange. cbv zeta.
  destruct (Dispatch.mode (Dispatch.ui s)); split;
    try (apply (dot_same s); [reflexivity | exact Hd]).
  - exact (bar_ok_step fuel (EUpdateBPM newBpm) _ _ Hok eq_refl).
  - exact Hok.
Qed.

Lemma dot_tuner (fuel : nat) (granted : bool) (buf : list num)
    (sampleRate : num) (s : Dispatch.state) :
  dot_lit s -> bar_ok (Dispatch.engine s) ->
  dot_lit (Dispatch.handleToggleTuner granted buf sampleRate s)
  /\ bar_ok (Dispatch.engine
               (Dispatch.handleToggleTuner granted buf sampleRate s)).
Proof.
  intros Hd Hok. unfold Dispatch.handleToggleTuner. cbv zeta.
  destruct (Dispatch.mode (Dispatch.ui s)).
  - destruct (negb (Dispatch.isTunerActive (Dispatch.ui s))).
    + assert (Hw : bar_ok (startTuner Dispatch.onPitch granted buf sampleRate
                             (Dispatch.engine s)))
        by exact (bar_ok_step fuel
                    (EStartTuner Dispatch.onPitch granted buf sampleRate)
                    _ _ Hok eq_refl).
      split; [|exact Hw].
      apply (listeners_dot _ _ s); [reflexivity | exact Hw | exact Hd].
    + split; [apply (dot_same s); [reflexivity | exact Hd]|].
      exact (bar_ok_step fuel EStopTuner _ _ Hok eq_refl).
  - split; [apply (dot_same s); [reflexivity | exact Hd] | exact Hok].
Qed.

Lemma dot_host (fuel : nat) (e : event) (s s' : Dispatch.state) :
  dot_lit s -> bar_ok (Dispatch.engine s) ->
  Dispatch.host fuel e s = Some s' ->
  dot_lit s' /\ bar_ok (Dispatch.engine s').
Proof.
  intros Hd Hok H. unfold Dispatch.host in H.
  destruct (step fuel e (Dispatch.engine s)) as [w|] eqn:Es; [|discriminate].
  inversion H; subst s'.
  assert (Hw : bar_ok w) by exact (bar_ok_step fuel e _ w Hok Es).
  split; [|exact Hw].
  apply (listeners_dot _ _ s); [reflexivity | exact Hw | exact Hd].
Qed.

Lemma dot_handle (fuel : nat) (a : Dispatch.action) (s s' : Dispatch.state) :
  dot_lit s -> bar_ok (Dispatch.engine s) ->
  not_notification a ->
  Dispatch.handle fuel a s = Some s' ->
  dot_lit s' /\ bar_ok (Dispatch.engine s').
Proof.
  intros Hd Hok Hnn H. destruct a; cbn [not_notification] in Hnn;
    try contradiction; cbn [Dispatch.handle] in H.
  - inversion H; subst s'.
    destruct (bluetooth_cells outcome write_ok s) as (_ & _ & _ & He).
    rewrite He. split; [|exact Hok].
    apply (dot_same s); [|exact Hd].
    unfold Dispatch.handleBluetoothToggle. cbv zeta.
    destruct (Dispatch.mode (Dispatch.ui s)); [|reflexivity].
    destruct (Bluetooth.connect outcome (Dispatch.link s)) as [[|] l1];
      [|reflexivity].
    destruct (Dispatch.activeTab (Dispatch.ui s)); [destruct write_ok|];
      reflexivity.
  - inversion H; subst s'. split; [|exact Hok].
    apply (dot_same s); [reflexivity | exact Hd].
  - destruct (Dispatch.activeTab (Dispatch.ui s));
      [exact (dot_start_stop fuel now s s' Hd Hok H)
      | inversion H; subst s'; split; assumption].
  - destruct (Dispatch.activeTab (Dispatch.ui s)); inversion H; subst s';
      [apply (dot_bpm fuel); assumption | split; assumption].
  - destruct (Dispatch.activeTab (Dispatch.ui s)); inversion H; subst s';
      [apply (dot_bpm fuel); assumption | split; assumption].
  - destruct (Dispatch.activeTab (Dispatch.ui s)); inversion H; subst s';
      [apply (dot_bpm fuel); assumption | split; assumption].
  - destruct (Dispatch.activeTab (Dispatch.ui s)); inversion H; subst s';
      [split; assumption | apply (dot_tuner fuel); assumption].
  - destruct (Dispatch.same_tab t (Dispatch.activeTab (Dispatch.ui s)));
      [inversion H; subst s'; split; assumption|].
    unfold Dispatch.tab_effect in H. cbn [Dispatch.ui] in H.
    set (s1 := Dispatch.mk_state (Dispatch.setActiveTab t (Dispatch.ui s))
                 (Dispatch.engine s) (Dispatch.link s)) in *.
    assert (Hd1 : dot_lit s1)
      by (apply (dot_same s); [reflexivity | exact Hd]).
    assert (Hok1 : bar_ok (Dispatch.engine s1)) by exact Hok.
    destruct (if Dispatch.isMetroPlaying
                   (Dispatch.setActiveTab t (Dispatch.ui s))
              then Dispatch.handleStartStopMetronome fuel now s1
              else Some s1) as [s2|] eqn:E2; [|discriminate].
    assert (H2 : dot_lit s2 /\ bar_ok (Dispatch.engine s2)).
    { destruct (Dispatch.isMetroPlaying
                  (Dispatch.setActiveTab t (Dispatch.ui s))).
      - exact (dot_start_stop fuel now s1 s2 Hd1 Hok1 E2).
      - inversion E2; subst s2. split; assumption. }
    destruct H2 as [Hd2 Hok2].
    match type of H with
    | context [if ?c then Dispatch.handleToggleTuner _ _ _ _ else _] =>
        destruct c
    end; inversion H; subst s';
      [apply (dot_tuner fuel); assumption | split; assumption].
  - exact (dot_host fuel _ s s' Hd Hok H).
  - exact (dot_host fuel _ s s' Hd Hok H).
  - inversion H; subst s'. split; [|exact Hok].
    apply (dot_same s); [reflexivity | exact Hd].
Qed.

(** X25.  Without telemetry one dot of the indicator is always lit.  From a
    state in which the beat cell holds a beat from 1 to 4 and the engine
    has only beats of the bar in hand (the state after the first render is
    one), whatever is clicked or fires, in either mode, as long as no
    notification arrives from the device, the beat cell holds a beat from 1
    to 4: the engine only reports beats of the bar and the stop button
    resets the cell to 1. *)
Theorem indicator_always_lit (fuel : nat) (acts : list Dispatch.action) :
  forall s s' : Dispatch.state,
  dot_lit s ->
  bar_ok (Dispatch.engine s) ->
  List.Forall not_notification acts ->
  Dispatch.handle_all fuel acts s = Some s' ->
  exists b : Z,
    (1 <= b <= 4)%Z /\ Dispatch.currentBeat (Dispatch.ui s') = Num (IZR b).
Proof.
  induction acts as [|a acts IH]; intros s s' Hd Hok Hnn Hrun.
  - inversion Hrun; subst s'. exact Hd.
  - cbn [Dispatch.handle_all] in Hrun.
    inversion Hnn as [|a0 acts0 Ha Hacts]; subst.
    destruct (Dispatch.handle fuel a s) as [s1|] eqn:E; [|discriminate].
    destruct (dot_handle fuel a s s1 Hd Hok Ha E) as [Hd1 Hok1].
    exact (IH s1 s' Hd1 Hok1 Hacts Hrun).
Qed.

Lemma indicator_always_lit_witness :
  exists s' : Dispatch.state,
    Dispatch.handle_all 1
      [Dispatch.ClickStartStop (Num 0); Dispatch.ClickPlus;
       Dispatch.ClickStartStop (Num 1)]
      Dispatch.state_init = Some s'
    /\ exists b : Z,
         (1 <= b <= 4)%Z
         /\ Dispatch.currentBeat (Dispatch.ui s') = Num (IZR b).
Proof.
  destruct (Dispatch.handle_all 1
              [Dispatch.ClickStartStop (Num 0); Dispatch.ClickPlus;
               Dispatch.ClickStartStop (Num 1)]
              Dispatch.state_init) as [s'|] eqn:E.
  - exists s'. split; [reflexivity|].
    apply (indicator_always_lit 1
             [Dispatch.ClickStartStop (Num 0); Dispatch.ClickPlus;
              Dispatch.ClickStartStop (Num 1)]
             Dispatch.state_init s').
    + exists 1%Z. split; [unfold in_bar; lia | reflexivity].
    + exact bar_ok_init.
    + repeat constructor.
    + exact E.
  - exfalso. cbn [Dispatch.handle_all Dispatch.handle] in E.
    cbn [Dispatch.state_init Dispatch.ui Dispatch.cells_init
         Dispatch.activeTab] in E.
    unfold Dispatch.handleStartStopMetronome in E. cbv zeta in E.
    cbn [Dispatch.ui Dispatch.mode Dispatch.isMetroPlaying negb
         Dispatch.engine Dispatch.bpm] in E.
    rewrite startMetronome_any in E.
    cbn in E. discriminate E.
Defined.
